(** * xapian-core/backends/dbcheck.cc : Xapian::Database::check

    A shallow embedding of the consistency-check driver of Xapian
    ([reserve_doclens] and [Database::check]) together with the properties
    of its orchestration: format detection, the chert and glass whole
    database passes, the changes-log pass and the single table pass.

    The per-table checkers, the database and version-file classes, the
    changes-file checker and the file tests live in other translation units.
    They are taken as parameters (record [collaborators]); every result
    below holds for all of them. *)

From Stdlib Require Import ZArith Lia String Ascii List Bool DecimalString.
From Stdlib Require Import DecimalPos DecimalN.
From stdpp Require Import base list strings.

Local Open Scope string_scope.
Local Open Scope list_scope.
Local Open Scope Z_scope.

(** ** Machine integers *)

(** [Xapian::docid] and the revision numbers are 32-bit unsigned; [size_t]
    is 64-bit unsigned (LP64). *)
Definition docid_modulus : Z := 2 ^ 32.
Definition size_t_modulus : Z := 2 ^ 64.

(** [static_cast<Xapian::docid>(-1)] *)
Definition docid_minus_one : Z := (-1) mod docid_modulus.

Definition docid_add (a b : Z) : Z := (a + b) mod docid_modulus.
Definition size_t_add (a b : Z) : Z := (a + b) mod size_t_modulus.

(** ** Strings *)

Definition nl : string := String (ascii_of_nat 10) EmptyString.

(** Modelled from the spec: [endswith] of stringutils.h, the
    "string-ends-with test" among the collaborator interfaces; it is used
    with a character and with a string literal as suffix. *)
Definition endswith (s suffix : string) : bool :=
  (String.length suffix <=? String.length s)%nat &&
  String.eqb
    (substring (String.length s - String.length suffix) (String.length suffix) s)
    suffix.

(** [s.resize(s.size() - n)] for [n <= s.size()]. *)
Definition resize_drop (s : string) (n : nat) : string :=
  substring 0 (String.length s - n) s.

(** [s.find_last_of(c)]; [None] is [string::npos]. *)
Fixpoint find_last_of (s : string) (c : ascii) : option nat :=
  match s with
  | EmptyString => None
  | String a rest =>
      match find_last_of rest c with
      | Some i => Some (S i)
      | None => if Ascii.eqb a c then Some O else None
      end
  end.

(** [tolower] in the "C" locale. *)
Definition tolower (c : ascii) : ascii :=
  let n := nat_of_ascii c in
  if ((65 <=? n) && (n <=? 90))%nat then ascii_of_nat (n + 32) else c.

Fixpoint string_map (f : ascii -> ascii) (s : string) : string :=
  match s with
  | EmptyString => EmptyString
  | String a rest => String (f a) (string_map f rest)
  end.

(** Modelled from the spec: [str] of str.h, which renders the revision
    number as decimal ("changes<revision-number-as-decimal>"). *)
Definition str (r : N) : string := NilZero.string_of_uint (N.to_uint r).

(** ** Exceptions *)

(** The exception classes the driver distinguishes.  [DatabaseError] stands
    for that class and its subclasses, [Xapian_Error] for every other
    subclass of [Xapian::Error]. *)
Inductive exn : Type :=
| FeatureUnavailableError (msg : string)
| DatabaseError (msg : string)
| Xapian_Error (msg : string)
| bad_alloc
| length_error
| other_exception (what : string).

(** [catch (const Xapian::Error &)] *)
Definition is_Xapian_Error (e : exn) : bool :=
  match e with
  | FeatureUnavailableError _ | DatabaseError _ | Xapian_Error _ => true
  | _ => false
  end.

(** [catch (const Xapian::DatabaseError &)] *)
Definition is_DatabaseError (e : exn) : bool :=
  match e with
  | DatabaseError _ => true
  | _ => false
  end.

Inductive result (A : Type) : Type :=
| Ok (a : A)
| Throw (e : exn).
Arguments Ok {A} a.
Arguments Throw {A} e.

(** ** Objects whose address is taken *)

(** [doclens] and [rev] are locals of [check] handed to the callees by
    reference or pointer, so they live in a store; a location is an index. *)
Abbreviation loc := nat.

Inductive object : Type :=
| Vec (capacity : Z) (elems : list Z)   (* vector<Xapian::termcount> *)
| Rev (r : Z).                          (* chert_revision_number_t *)

Abbreviation store := (list object).

Definition capacity_at (h : store) (l : loc) : option Z :=
  match h !! l with
  | Some (Vec c _) => Some c
  | _ => None
  end.

(** What [ChertDatabase] and [GlassVersion] expose to the driver. *)
Record chert_db : Type := {
  get_lastdocid : Z;
  get_revision_number : Z
}.

Record glass_version : Type := {
  get_revision : N;
  get_last_docid : Z
}.

Inductive backend_t : Type := UNKNOWN | CHERT | GLASS.

(** ** Observable behaviour *)

(** Text sent to the sink and calls made to the collaborators, in program
    order.  [EReserveDoclens] marks entry into [reserve_doclens]. *)
Inductive event : Type :=
| Out (text : string)
| EReserveDoclens (doclens : loc) (last_docid : Z)
| EVectorReserve (doclens : loc) (n : Z)
| EChertDatabase (path : string)
| ECheckChertTable (tablename filename : string) (rev_ptr : option loc)
                   (opts : Z) (doclens : loc) (last_docid : Z) (out : bool)
| EChertVersionReadAndCheck (path : string)
| EChertVersionCreate (path : string)
| EDatabase (path : string)
| EGlassVersionRead (dir : string)
| EGlassChangesCheck (changes_file : string)
| ECheckGlassTable (tablename dir : string) (version_file : glass_version)
                   (opts : Z) (doclens : loc) (last_docid : Z) (out : bool).

(** ** Parameters of the build and the collaborators *)

Record platform : Type := {
  sizeof_termcount : Z;        (* sizeof(Xapian::termcount) *)
  DBCHECK_FIX : Z;             (* Xapian::DBCHECK_FIX *)
  vector_max_size : Z          (* vector<Xapian::termcount>::max_size() *)
}.

(** [W] is the state of everything outside the process (the disk).  Read
    only collaborators are functions of it; the table checkers and
    [ChertVersion::create] may change it, and the table checkers may also
    write through the references they are given. *)
Record collaborators (W : Type) : Type := {
  stat : string -> W -> bool;                 (* stat(p, &sb) == 0 *)
  file_exists : string -> W -> bool;
  vector_allocate : Z -> W -> bool;           (* false: std::bad_alloc *)
  get_description : exn -> string;            (* Xapian::Error::get_description *)
  ChertDatabase_open : string -> W -> result chert_db;
  check_chert_table :
    string -> string -> option loc -> Z -> loc -> Z -> bool ->
    W -> store -> result Z * W * store;
  ChertVersion_read_and_check : string -> W -> result unit;
  ChertVersion_create : string -> W -> result unit * W;
  Database_open : string -> W -> result unit;
  GlassVersion_read : string -> W -> result glass_version;
  GlassChanges_check : string -> W -> result unit;
  check_glass_table :
    string -> string -> glass_version -> Z -> loc -> Z -> bool ->
    W -> store -> result Z * W * store
}.
Arguments stat {W} _ _ _.
Arguments file_exists {W} _ _ _.
Arguments vector_allocate {W} _ _ _.
Arguments get_description {W} _ _.
Arguments ChertDatabase_open {W} _ _ _.
Arguments check_chert_table {W} _ _ _ _ _ _ _ _ _ _.
Arguments ChertVersion_read_and_check {W} _ _ _.
Arguments ChertVersion_create {W} _ _ _.
Arguments Database_open {W} _ _ _.
Arguments GlassVersion_read {W} _ _ _.
Arguments GlassChanges_check {W} _ _ _.
Arguments check_glass_table {W} _ _ _ _ _ _ _ _ _ _.

(** ** The state and exception monad of the driver *)

Record state (W : Type) : Type := mkState {
  world : W;
  heap : store;
  trace : list event
}.
Arguments mkState {W} _ _ _.
Arguments world {W} _.
Arguments heap {W} _.
Arguments trace {W} _.

Definition M (W A : Type) : Type := state W -> result A * state W.

Definition ret {W A} (a : A) : M W A := fun s => (Ok a, s).

Definition bind {W A B} (m : M W A) (k : A -> M W B) : M W B :=
  fun s =>
    match m s with
    | (Ok a, s') => k a s'
    | (Throw e, s') => (Throw e, s')
    end.

Definition throw {W A} (e : exn) : M W A := fun s => (Throw e, s).

(** [try { m } catch (...) { h }] where [h] rethrows what it does not
    handle. *)
Definition try_catch {W A} (m : M W A) (h : exn -> M W A) : M W A :=
  fun s =>
    match m s with
    | (Ok a, s') => (Ok a, s')
    | (Throw e, s') => h e s'
    end.

Declare Scope dbcheck_scope.
Delimit Scope dbcheck_scope with dbcheck.
Notation "'let*' x ':=' m 'in' k" := (bind m (fun x => k))
  (at level 10, x name, m at level 100, k at level 200) : dbcheck_scope.
Notation "m '>>' k" := (bind m (fun _ => k))
  (at level 100, k at level 200, right associativity) : dbcheck_scope.
Local Open Scope dbcheck_scope.

Definition log {W} (e : event) : M W unit :=
  fun s => (Ok tt, mkState (world s) (heap s) (trace s ++ [e])).

(** [if (out) *out << text;] *)
Definition print {W} (out : bool) (text : string) : M W unit :=
  if out then log (Out text) else ret tt.

(** Declaration of a local whose address is taken. *)
Definition alloc {W} (o : object) : M W loc :=
  fun s => (Ok (List.length (heap s)), mkState (world s) (heap s ++ [o]) (trace s)).

Definition assign {W} (l : loc) (o : object) : M W unit :=
  fun s => (Ok tt, mkState (world s) (<[l := o]> (heap s)) (trace s)).

(** A read-only collaborator. *)
Definition query {W A} (f : W -> A) : M W A :=
  fun s => (Ok (f (world s)), s).

Definition lift_result {W A} (r : result A) : M W A :=
  fun s => (r, s).

(** ** std::vector<Xapian::termcount>::reserve *)

Section Driver.

Context {W : Type} (P : platform) (C : collaborators W).

(** [v.reserve(n)] following the C++ standard: [length_error] when [n]
    exceeds [max_size()], no effect when the capacity suffices, otherwise
    new storage for [n] elements, [bad_alloc] when it cannot be had. *)
Definition vector_reserve (v : loc) (n : Z) : M W unit :=
  log (EVectorReserve v n) >>
  fun s =>
    match heap s !! v with
    | Some (Vec cap elems) =>
        if vector_max_size P <? n then (Throw length_error, s)
        else if n <=? cap then (Ok tt, s)
        else if vector_allocate C n (world s)
             then (Ok tt, mkState (world s) (<[v := Vec n elems]> (heap s)) (trace s))
             else (Throw bad_alloc, s)
    | _ => (Ok tt, s)
    end.

(** ** reserve_doclens (dbcheck.cc, lines 54-81) *)

Definition msg_too_large : string :=
  "Cross-checking document lengths between the postlist and termlist tables would use more than 1GB of memory, so skipping that check" +:+ nl.
Definition msg_bad_alloc : string :=
  "Couldn't allocate enough memory for cross-checking document lengths between the postlist and termlist tables, so skipping that check" +:+ nl.
Definition msg_length_error : string :=
  "Couldn't allocate enough elements for cross-checking document lengths between the postlist and termlist tables, so skipping that check" +:+ nl.

Definition reserve_doclens (doclens : loc) (last_docid : Z) (out : bool)
  : M W unit :=
  log (EReserveDoclens doclens last_docid) >>
  if last_docid >=? 1073741824 / sizeof_termcount P then
    (* The memory block needed by the vector would be >= 1GB. *)
    print out msg_too_large
  else
    try_catch (vector_reserve doclens (docid_add last_docid 1))
      (fun e =>
         match e with
         | bad_alloc => print out msg_bad_alloc
         | length_error => print out msg_length_error
         | _ => throw e
         end).

(** ** Calls to the collaborators *)

Definition call_ChertDatabase (path : string) : M W chert_db :=
  log (EChertDatabase path) >>
  fun s => (ChertDatabase_open C path (world s), s).

Definition call_check_chert_table (tablename filename : string)
    (rev_ptr : option loc) (opts : Z) (doclens : loc) (last_docid : Z)
    (out : bool) : M W Z :=
  log (ECheckChertTable tablename filename rev_ptr opts doclens last_docid out) >>
  fun s =>
    match check_chert_table C tablename filename rev_ptr opts doclens
            last_docid out (world s) (heap s) with
    | (r, w', h') => (r, mkState w' h' (trace s))
    end.

Definition call_read_and_check (path : string) : M W unit :=
  log (EChertVersionReadAndCheck path) >>
  fun s => (ChertVersion_read_and_check C path (world s), s).

Definition call_create (path : string) : M W unit :=
  log (EChertVersionCreate path) >>
  fun s =>
    match ChertVersion_create C path (world s) with
    | (r, w') => (r, mkState w' (heap s) (trace s))
    end.

Definition call_Database (path : string) : M W unit :=
  log (EDatabase path) >>
  fun s => (Database_open C path (world s), s).

Definition call_GlassVersion_read (dir : string) : M W glass_version :=
  log (EGlassVersionRead dir) >>
  fun s => (GlassVersion_read C dir (world s), s).

Definition call_GlassChanges_check (changes_file : string) : M W unit :=
  log (EGlassChangesCheck changes_file) >>
  fun s => (GlassChanges_check C changes_file (world s), s).

Definition call_check_glass_table (tablename dir : string)
    (version_file : glass_version) (opts : Z) (doclens : loc)
    (last_docid : Z) (out : bool) : M W Z :=
  log (ECheckGlassTable tablename dir version_file opts doclens last_docid out) >>
  fun s =>
    match check_glass_table C tablename dir version_file opts doclens
            last_docid out (world s) (heap s) with
    | (r, w', h') => (r, mkState w' h' (trace s))
    end.

(** ** Database::check, whole chert directory (lines 103-168) *)

Definition msg_open_failed (e : exn) : string :=
  "Database couldn't be opened for reading: " +:+ get_description C e +:+
  nl +:+ "Continuing check anyway" +:+ nl.

Definition chert_tables : list string :=
  ["record"; "termlist"; "postlist"; "position"; "spelling"; "synonym"].

(** [for (const char **t = tables; t != tables + N; ++t) errors = body] *)
Fixpoint for_each_table (body : string -> Z -> M W Z)
    (tables : list string) (errors : Z) : M W Z :=
  match tables with
  | [] => ret errors
  | t :: rest =>
      let* errors' := body t errors in
      for_each_table body rest errors'
  end.

(** Body of the loop at lines 135-158; the result is the new value of
    [errors]. *)
Definition check_chert_db_table (path : string) (rev_ptr : option loc)
    (opts : Z) (doclens : loc) (db_last_docid : Z) (out : bool)
    (t : string) (errors : Z) : M W Z :=
  let table := path +:+ "/" +:+ t in
  let check_it :=
    let* n := call_check_chert_table t table rev_ptr opts doclens
                db_last_docid out in
    ret (size_t_add errors n) in
  print out (t +:+ ":" +:+ nl) >>
  if negb (String.eqb t "record") && negb (String.eqb t "postlist") then
    (* Other tables are created lazily, so may not exist. *)
    let* present := query (file_exists C (table +:+ ".DB")) in
    if negb present then
      (if out then
         (if String.eqb t "termlist"
          then log (Out ("Not present." +:+ nl))
          else log (Out ("Lazily created, and not yet used." +:+ nl))) >>
         log (Out nl)
       else ret tt) >>
      ret errors
    else check_it
  else check_it.

(** Lines 160-168. *)
Definition chert_fix_version (path : string) (opts : Z)
    (errors pre_table_check_errors : Z) : M W unit :=
  if (errors =? pre_table_check_errors) &&
     negb (Z.land opts (DBCHECK_FIX P) =? 0) then
    try_catch (call_read_and_check path)
      (fun e => if is_DatabaseError e then call_create path else throw e)
  else ret tt.

(** Lines 106-122; the result is the pair of [db_last_docid] and [errors].
    Only the constructor of [ChertDatabase] can throw a [Xapian::Error]
    inside the [try] block (the getters are plain reads and
    [reserve_doclens] swallows what [reserve] throws), so the block yields
    the value it assigns to [db_last_docid] and the handler leaves the
    initial one. *)
Definition chert_open (path : string) (out : bool) (doclens rev : loc)
    (errors : Z) : M W (Z * Z) :=
  try_catch
    (let* db := call_ChertDatabase path in
     reserve_doclens doclens (get_lastdocid db) out >>
     assign rev (Rev (get_revision_number db)) >>
     ret (get_lastdocid db, errors))
    (fun e =>
       if is_Xapian_Error e then
         print out (msg_open_failed e) >>
         ret (docid_minus_one, size_t_add errors 1)
       else throw e).

Definition check_chert_db (path : string) (opts : Z) (out : bool)
    (doclens : loc) (errors : Z) : M W Z :=
  let* rev := alloc (Rev 0) in
  let rev_ptr := Some rev in
  let* opened := chert_open path out doclens rev errors in
  let db_last_docid := fst opened in
  let errors := snd opened in
  let pre_table_check_errors := errors in
  let* errors :=
    for_each_table
      (check_chert_db_table path rev_ptr opts doclens db_last_docid out)
      chert_tables errors in
  chert_fix_version path opts errors pre_table_check_errors >>
  ret errors.

(** ** Database::check, whole glass directory (lines 176-213) *)

Definition glass_tables : list string :=
  ["docdata"; "termlist"; "postlist"; "position"; "spelling"; "synonym"].

(** [for (r = version_file.get_revision(); r != 0; --r)], lines 191-197. *)
Fixpoint check_changes (path : string) (r : nat) : M W unit :=
  match r with
  | O => ret tt
  | S r' =>
      let changes_file := path +:+ "/changes" +:+ str (N.of_nat (S r')) in
      let* present := query (file_exists C changes_file) in
      (if present then call_GlassChanges_check changes_file else ret tt) >>
      check_changes path r'
  end.

Definition check_glass_db_table (path : string) (version_file : glass_version)
    (opts : Z) (doclens : loc) (db_last_docid : Z) (out : bool)
    (t : string) (errors : Z) : M W Z :=
  let* n := call_check_glass_table t path version_file opts doclens
              db_last_docid out in
  ret (size_t_add errors n).

(** Lines 177-187: can the database be opened at all?  The result is the
    new value of [errors]. *)
Definition glass_open (path : string) (out : bool) (errors : Z) : M W Z :=
  try_catch
    (call_Database path >> ret errors)
    (fun e =>
       if is_Xapian_Error e then
         print out (msg_open_failed e) >>
         ret (size_t_add errors 1)
       else throw e).

Definition check_glass_db (path : string) (opts : Z) (out : bool)
    (doclens : loc) (errors : Z) : M W Z :=
  let* errors := glass_open path out errors in
  let* version_file := call_GlassVersion_read path in
  check_changes path (N.to_nat (get_revision version_file)) >>
  let db_last_docid := get_last_docid version_file in
  reserve_doclens doclens db_last_docid out >>
  for_each_table
    (check_glass_db_table path version_file opts doclens db_last_docid out)
    glass_tables errors.

(** ** Database::check, a single table (lines 215-300) *)

Definition msg_flint : string :=
  "Flint database support was removed in Xapian 1.3.0".
Definition msg_brass : string :=
  "Brass database support was removed in Xapian 1.3.2".
Definition msg_quartz : string :=
  "Quartz database support was removed in Xapian 1.1.0".
Definition msg_not_a_database : string :=
  "Not a Xapian database or database table".

(** Lines 231-241: trim ".", ".DB" or ".glass". *)
Definition trim_suffix (path : string) : string * backend_t :=
  if endswith path "." then (resize_drop path 1, UNKNOWN)
  else if endswith path ".DB" then (resize_drop path 3, CHERT)
  else if endswith path ".glass" then (resize_drop path 6, GLASS)
  else (path, UNKNOWN).

(** Lines 243-252. *)
Definition probe_backend (filename : string) (backend : backend_t)
  : M W backend_t :=
  match backend with
  | UNKNOWN =>
      let* db := query (stat C (filename +:+ ".DB")) in
      if db then ret CHERT
      else
        let* glass := query (stat C (filename +:+ ".glass")) in
        if glass then ret GLASS
        else throw (DatabaseError msg_not_a_database)
  | _ => ret backend
  end.

(** Lines 254-259 (POSIX build): index just after the last '/'. *)
Definition after_last_slash (filename : string) : nat :=
  match find_last_of filename "/"%char with
  | None => O
  | Some p => S p
  end.

(** Lines 261-266. *)
Definition dir_of (filename : string) : string :=
  substring 0 (after_last_slash filename) filename.

Definition tablename_of (filename : string) : string :=
  let p := after_last_slash filename in
  string_map tolower (substring p (String.length filename - p) filename).

Definition check_single_table (path : string) (opts : Z) (out : bool)
    (doclens : loc) (errors : Z) : M W Z :=
  let* flint := query (stat C (path +:+ "/iamflint")) in
  if flint then throw (FeatureUnavailableError msg_flint) else
  let* brass := query (stat C (path +:+ "/iambrass")) in
  if brass then throw (FeatureUnavailableError msg_brass) else
  let* quartz := query (stat C (path +:+ "/record_DB")) in
  if quartz then throw (FeatureUnavailableError msg_quartz) else
  let filename := fst (trim_suffix path) in
  let* backend := probe_backend filename (snd (trim_suffix path)) in
  let dir := dir_of filename in
  let tablename := tablename_of filename in
  match backend with
  | GLASS =>
      let* version_file := call_GlassVersion_read dir in
      (* Set the last docid to its maximum value to suppress errors. *)
      let db_last_docid := docid_minus_one in
      call_check_glass_table tablename dir version_file opts doclens
        db_last_docid out
  | CHERT =>
      let* flint := query (stat C (dir +:+ "/iamflint")) in
      if flint then throw (FeatureUnavailableError msg_flint) else
      let* brass := query (stat C (dir +:+ "/iambrass")) in
      if brass then throw (FeatureUnavailableError msg_brass) else
      let db_last_docid := docid_minus_one in
      call_check_chert_table tablename filename None opts doclens
        db_last_docid out
  | UNKNOWN => ret errors
  end.

(** ** Database::check (lines 86-302), both backends compiled in *)

Definition check (path : string) (opts : Z) (out : bool) : M W Z :=
  let opts := if negb out then Z.land opts (DBCHECK_FIX P) else opts in
  let* doclens := alloc (Vec 0 []) in
  let errors := 0 in
  let* chert := query (stat C (path +:+ "/iamchert")) in
  if chert then check_chert_db path opts out doclens errors
  else
    let* glass := query (stat C (path +:+ "/iamglass")) in
    if glass then check_glass_db path opts out doclens errors
    else check_single_table path opts out doclens errors.

End Driver.


(** ** Vocabulary of the statements *)

(** What an output statement guarded by [if (out)] adds to the trace. *)
Definition emitted (out : bool) (text : string) : list event :=
  if out then [Out text] else [].

Definition entered {W} (s : state W) (e : event) : state W :=
  mkState (world s) (heap s) (trace s ++ [e]).

(** The state after the declaration of a local that lives in the store. *)
Definition declared {W} (s : state W) (o : object) : state W :=
  mkState (world s) (heap s ++ [o]) (trace s).

(** [opts] after lines 89-93. *)
Definition masked (P : platform) (opts : Z) (out : bool) : Z :=
  if negb out then Z.land opts (DBCHECK_FIX P) else opts.

Definition fix_requested (P : platform) (opts : Z) : bool :=
  negb (Z.land opts (DBCHECK_FIX P) =? 0).

(** A computation only appends to the trace, and what it appends
    satisfies [Q]. *)
Definition emits {W A} (m : M W A) (Q : list event -> Prop) : Prop :=
  forall s, exists evs, trace (snd (m s)) = trace s ++ evs /\ Q evs.

(** The tables handed to a per-table checker, in call order. *)
Fixpoint called_tables (evs : list event) : list string :=
  match evs with
  | [] => []
  | ECheckChertTable t _ _ _ _ _ _ :: rest => t :: called_tables rest
  | ECheckGlassTable t _ _ _ _ _ _ :: rest => t :: called_tables rest
  | _ :: rest => called_tables rest
  end.

(** The changes files handed to [GlassChanges::check], in call order. *)
Fixpoint changes_checked (evs : list event) : list string :=
  match evs with
  | [] => []
  | EGlassChangesCheck f :: rest => f :: changes_checked rest
  | _ :: rest => changes_checked rest
  end.

Definition is_reserve_doclens (e : event) : bool :=
  match e with
  | EReserveDoclens _ _ => true
  | _ => false
  end.

Definition is_table_check (e : event) : bool :=
  match e with
  | ECheckChertTable _ _ _ _ _ _ _ | ECheckGlassTable _ _ _ _ _ _ _ => true
  | _ => false
  end.

Definition is_version_repair (e : event) : bool :=
  match e with
  | EChertVersionReadAndCheck _ | EChertVersionCreate _ => true
  | _ => false
  end.


(** The per-table checkers called are, in order, among those of [l]. *)
Definition calls_within (l : list string) (evs : list event) : Prop :=
  called_tables evs `sublist_of` l.

(** Neither a chert nor a glass directory, nor one of a retired format. *)
Definition no_marker {W} (C : collaborators W) (path : string) (w : W)
  : Prop :=
  stat C (path +:+ "/iamchert") w = false /\
  stat C (path +:+ "/iamglass") w = false /\
  stat C (path +:+ "/iamflint") w = false /\
  stat C (path +:+ "/iambrass") w = false /\
  stat C (path +:+ "/record_DB") w = false.

(** [n, n-1, ..., 1] *)
Definition revisions_down_from (n : nat) : list nat := rev (seq 1 n).

Definition changes_file_name (path : string) (r : nat) : string :=
  path +:+ "/changes" +:+ str (N.of_nat r).

(** The changes files of revisions [n] down to 1 that exist in world [w],
    in that order. *)
Definition changes_on_disk {W} (C : collaborators W) (path : string)
    (n : nat) (w : W) : list string :=
  List.filter (fun f => file_exists C f w)
    (map (changes_file_name path) (revisions_down_from n)).

(** What the openability test of the glass pass leaves in the trace and in
    [errors], given what [Xapian::Database(path)] did. *)
Definition glass_open_events {W} (C : collaborators W) (path : string)
    (out : bool) (opened : result unit) : list event :=
  EDatabase path ::
  match opened with
  | Ok _ => []
  | Throw e => emitted out (msg_open_failed C e)
  end.

Definition glass_open_errors (opened : result unit) : Z :=
  match opened with
  | Ok _ => 0
  | Throw _ => 1
  end.

(** The exception, if any, is one that [catch (const Xapian::Error &)]
    catches. *)
Definition caught_if_thrown {A} (r : result A) : Prop :=
  match r with
  | Ok _ => True
  | Throw e => is_Xapian_Error e = true
  end.



(** ** A concrete disk on which the driver can be run *)

Module Disk.

(** The names that exist, whether memory can be had, what the database and
    version classes find, and the number of errors each table checker
    reports (none for a table that is not listed). *)
Record t : Type := mk {
  names : list string;
  memory : bool;
  chert_database : result chert_db;
  chert_version : result unit;
  glass_database : result unit;
  glass_version_file : result glass_version;
  bad_changes : list string;
  table_errors : list (string * Z)
}.

(** Path lookup treats a run of slashes as one slash; a leading slash
    makes the path absolute, so it is kept. *)
Fixpoint squeeze (p : string) : string :=
  match p with
  | EmptyString => EmptyString
  | String a rest =>
      match rest with
      | String b _ =>
          if Ascii.eqb a "/" && Ascii.eqb b "/" then squeeze rest
          else String a (squeeze rest)
      | EmptyString => String a EmptyString
      end
  end.

Definition exists_ (p : string) (d : t) : bool :=
  existsb (String.eqb (squeeze p)) (names d).

Definition errors_of (tablename : string) (d : t) : Z :=
  match find (fun e => String.eqb (fst e) tablename) (table_errors d) with
  | Some e => snd e
  | None => 0
  end.

(** The term-list checker fills the vector it is handed with the lengths
    of documents 0..2; the other checkers leave it alone. *)
Definition fill (tablename : string) (doclens : loc) (h : store) : store :=
  if String.eqb tablename "termlist" then
    match h !! doclens with
    | Some (Vec c _) => <[doclens := Vec (Z.max c 3) [0; 4; 9]]> h
    | _ => h
    end
  else h.

(** The collaborators over any world from which a disk can be read;
    [repair] is what [ChertVersion::create] does to the world. *)
Definition oracle {W : Type} (view : W -> t) (repair : W -> W)
  : collaborators W := {|
  stat := fun p w => exists_ p (view w);
  file_exists := fun p w => exists_ p (view w);
  vector_allocate := fun _ w => memory (view w);
  get_description := fun e =>
    match e with
    | FeatureUnavailableError m => "FeatureUnavailableError: " +:+ m
    | DatabaseError m => "DatabaseError: " +:+ m
    | Xapian_Error m => "Error: " +:+ m
    | _ => ""
    end;
  ChertDatabase_open := fun _ w => chert_database (view w);
  check_chert_table := fun name _ _ _ doclens _ _ w h =>
    (Ok (errors_of name (view w)), w, fill name doclens h);
  ChertVersion_read_and_check := fun _ w => chert_version (view w);
  ChertVersion_create := fun _ w => (Ok tt, repair w);
  Database_open := fun _ w => glass_database (view w);
  GlassVersion_read := fun _ w => glass_version_file (view w);
  GlassChanges_check := fun f w =>
    if existsb (String.eqb f) (bad_changes (view w))
    then Throw (DatabaseError "Changeset too short") else Ok tt;
  check_glass_table := fun name _ _ _ doclens _ _ w h =>
    (Ok (errors_of name (view w)), w, fill name doclens h)
|}.

Definition with_valid_version (d : t) : t :=
  mk (names d) (memory d) (chert_database d) (Ok tt) (glass_database d)
     (glass_version_file d) (bad_changes d) (table_errors d).

(** The world is the disk itself. *)
Definition collab : collaborators t := oracle id with_valid_version.

(** The world never changes: every collaborator sees the disk [d]. *)
Definition frozen (d : t) : collaborators unit := oracle (fun _ => d) id.

(** LP64 with a 4-byte [Xapian::termcount]. *)
Definition lp64 : platform := {|
  sizeof_termcount := 4;
  DBCHECK_FIX := 16;
  vector_max_size := 2305843009213693951
|}.

Definition boot (d : t) : state t := mkState d [] [].

Definition run (d : t) (path : string) (opts : Z) (out : bool)
  : result Z * state t :=
  check lp64 collab path opts out (boot d).

(** A healthy chert database directory [db]. *)
Definition chert_dir : t := {|
  names := ["db/iamchert"; "db/record.DB"; "db/termlist.DB";
            "db/postlist.DB"; "db/position.DB"];
  memory := true;
  chert_database := Ok {| get_lastdocid := 2; get_revision_number := 7 |};
  chert_version := Ok tt;
  glass_database := Throw (DatabaseError "not glass");
  glass_version_file := Throw (DatabaseError "not glass");
  bad_changes := [];
  table_errors := []
|}.

(** The same directory when the database cannot be opened. *)
Definition chert_dir_broken : t := {|
  names := names chert_dir;
  memory := true;
  chert_database := Throw (DatabaseError "cannot open");
  chert_version := Throw (DatabaseError "bad version file");
  glass_database := glass_database chert_dir;
  glass_version_file := glass_version_file chert_dir;
  bad_changes := [];
  table_errors := []
|}.

(** A glass database directory [g] at revision 3 whose changes file for
    revision 2 has been pruned. *)
Definition glass_dir : t := {|
  names := ["g/iamglass"; "g/changes3"; "g/changes1"; "g/postlist.glass"];
  memory := true;
  chert_database := Throw (DatabaseError "not chert");
  chert_version := Throw (DatabaseError "not chert");
  glass_database := Ok tt;
  glass_version_file := Ok {| get_revision := 3; get_last_docid := 5 |};
  bad_changes := [];
  table_errors := [("postlist", 2)]
|}.

(** A glass directory that cannot be opened and whose version file
    cannot be read. *)
Definition glass_dir_unreadable : t := {|
  names := ["g/iamglass"; "g/changes3"; "g/postlist.glass"];
  memory := true;
  chert_database := Throw (DatabaseError "not chert");
  chert_version := Throw (DatabaseError "not chert");
  glass_database := Throw (DatabaseError "cannot open");
  glass_version_file := Throw (DatabaseError "bad version file");
  bad_changes := [];
  table_errors := []
|}.

(** The current directory is a flint database; its files can be named with
    or without the directory part [./]. *)
Definition inside_flint_dir : t := {|
  names := ["iamflint"; "postlist.DB"; "record.DB";
            "./iamflint"; "./postlist.DB"; "./record.DB"];
  memory := true;
  chert_database := Throw (DatabaseError "not chert");
  chert_version := Throw (DatabaseError "not chert");
  glass_database := Throw (DatabaseError "not glass");
  glass_version_file := Throw (DatabaseError "not glass");
  bad_changes := [];
  table_errors := [("postlist", 1)]
|}.

End Disk.


(** ** Vocabulary of the further properties *)

(** What every callee must have been handed: text goes to the sink only
    when there is one; [reserve_doclens], [reserve] and the table checkers
    get the vector [doclens]; the table checkers get the options [opts] and
    the sink flag [out]. *)
Definition handed_down (out : bool) (opts : Z) (doclens : loc) (e : event)
  : Prop :=
  match e with
  | Out _ => out = true
  | EReserveDoclens d _ | EVectorReserve d _ => d = doclens
  | ECheckChertTable _ _ _ o d _ ou | ECheckGlassTable _ _ _ o d _ ou =>
      o = opts /\ d = doclens /\ ou = out
  | _ => True
  end.

(** The per-table checkers find nothing wrong, whatever they are given. *)
Definition chert_tables_clean {W} (C : collaborators W) : Prop :=
  forall t f rev_ptr opts doclens last_docid out w h,
    fst (fst (check_chert_table C t f rev_ptr opts doclens last_docid out w h))
    = Ok 0.

Definition glass_tables_clean {W} (C : collaborators W) : Prop :=
  forall t dir v opts doclens last_docid out w h,
    fst (fst (check_glass_table C t dir v opts doclens last_docid out w h))
    = Ok 0.

(** The error count the open phase of the chert pass leaves. *)
Definition chert_open_errors (opened : result chert_db) : Z :=
  match opened with
  | Ok _ => 0
  | Throw _ => 1
  end.

(** A computation only appends to the trace, and its result and what it
    appends satisfy [Q]. *)
Definition emits_with {W A} (m : M W A)
    (Q : result A -> list event -> Prop) : Prop :=
  forall s, exists evs,
    trace (snd (m s)) = trace s ++ evs /\ Q (fst (m s)) evs.

Definition is_ok {A} (r : result A) : bool :=
  match r with
  | Ok _ => true
  | Throw _ => false
  end.

(** The per-table checkers called are the first ones of [l], in order, and
    all of [l] when the computation returns. *)
Definition calls_done {A} (l : list string) (r : result A)
    (evs : list event) : Prop :=
  called_tables evs `prefix_of` l /\
  (is_ok r = true -> called_tables evs = l).

(** What a glass table checker is handed in a whole-database pass on
    [path] whose version file reads as [v]. *)
Definition glass_call_of (path : string) (v : glass_version) (e : event)
  : Prop :=
  match e with
  | ECheckGlassTable _ dir version_file _ _ last_docid _ =>
      dir = path /\ version_file = v /\ last_docid = get_last_docid v
  | ECheckChertTable _ _ _ _ _ _ _ => False
  | EReserveDoclens _ last_docid => last_docid = get_last_docid v
  | _ => True
  end.

(** The part of the file name after the last '/', before it is put in
    lower case at lines 263-266. *)
Definition basename_of (filename : string) : string :=
  substring (after_last_slash filename)
    (String.length filename - after_last_slash filename) filename.

(** The traces a single table check can leave: nothing, the read of the
    version file of [dir], that read followed by one call of the glass
    checker, or one call of the chert checker with a null revision
    pointer. *)
Definition single_table_events (opts : Z) (doclens : loc) (out : bool)
    (evs : list event) : Prop :=
  evs = [] \/
  (exists dir, evs = [EGlassVersionRead dir]) \/
  (exists t dir v,
     evs = [EGlassVersionRead dir;
            ECheckGlassTable t dir v opts doclens docid_minus_one out]) \/
  (exists t f,
     evs = [ECheckChertTable t f None opts doclens docid_minus_one out]).

(** When the computation returns, the checker of every table of [l] has
    been called. *)
Definition calls_cover {A} (l : list string) (r : result A)
    (evs : list event) : Prop :=
  is_ok r = true -> forall t, In t l -> In t (called_tables evs).

(** A table of a chert directory the loop cannot skip: record and postlist,
    and any table whose file exists whatever the checkers do to the
    world. *)
Definition always_checked {W} (C : collaborators W) (path t : string)
  : Prop :=
  t = "record" \/ t = "postlist" \/
  forall w, file_exists C ((path +:+ "/" +:+ t) +:+ ".DB") w = true.

(** What a chert table checker is handed in a whole-database pass on
    [path]: the table's path without suffix, the pointer to the revision
    number and the [last_docid] in force. *)
Definition chert_call_of (path : string) (rev : loc) (last_docid : Z)
    (e : event) : Prop :=
  match e with
  | ECheckChertTable t f rev_ptr _ _ ld _ =>
      f = path +:+ "/" +:+ t /\ rev_ptr = Some rev /\ ld = last_docid
  | ECheckGlassTable _ _ _ _ _ _ _ => False
  | _ => True
  end.

(** The [last_docid] the chert pass works with, given what opening the
    database did. *)
Definition chert_last_docid (opened : result chert_db) : Z :=
  match opened with
  | Ok db => get_lastdocid db
  | Throw _ => docid_minus_one
  end.

(** What the turn of a lazily created chert table prints when the table
    is absent: the header, the notice [text] and an empty line. *)
Definition absent_report (out : bool) (t text : string) : list event :=
  if out then [Out (t +:+ ":" +:+ nl); Out (text +:+ nl); Out nl] else [].

(** ** Further disks *)

Module Scenario.

(** A glass directory at revision 3 with nothing wrong. *)
Definition glass_sound : Disk.t := {|
  Disk.names := ["g/iamglass"; "g/changes3"; "g/changes2"];
  Disk.memory := true;
  Disk.chert_database := Throw (DatabaseError "not chert");
  Disk.chert_version := Throw (DatabaseError "not chert");
  Disk.glass_database := Ok tt;
  Disk.glass_version_file := Ok {| get_revision := 3; get_last_docid := 5 |};
  Disk.bad_changes := [];
  Disk.table_errors := []
|}.

(** Directories where opening the database runs out of memory. *)
Definition chert_no_memory : Disk.t := {|
  Disk.names := ["db/iamchert"; "db/record.DB"; "db/postlist.DB"];
  Disk.memory := false;
  Disk.chert_database := Throw bad_alloc;
  Disk.chert_version := Ok tt;
  Disk.glass_database := Throw (DatabaseError "not glass");
  Disk.glass_version_file := Throw (DatabaseError "not glass");
  Disk.bad_changes := [];
  Disk.table_errors := []
|}.

Definition glass_no_memory : Disk.t := {|
  Disk.names := ["g/iamglass"; "g/changes1"];
  Disk.memory := false;
  Disk.chert_database := Throw (DatabaseError "not chert");
  Disk.chert_version := Throw (DatabaseError "not chert");
  Disk.glass_database := Throw bad_alloc;
  Disk.glass_version_file := Ok {| get_revision := 1; get_last_docid := 5 |};
  Disk.bad_changes := [];
  Disk.table_errors := []
|}.

(** A directory that carries the markers of all three retired formats. *)
Definition retired_dir : Disk.t := {|
  Disk.names := ["old/iamflint"; "old/iambrass"; "old/record_DB"];
  Disk.memory := true;
  Disk.chert_database := Throw (DatabaseError "not chert");
  Disk.chert_version := Throw (DatabaseError "not chert");
  Disk.glass_database := Throw (DatabaseError "not glass");
  Disk.glass_version_file := Throw (DatabaseError "not glass");
  Disk.bad_changes := [];
  Disk.table_errors := []
|}.

(** The glass directory [g] at revision 3 when the changes file of
    revision 3 is damaged; the one of revision 1 is there and sound. *)
Definition glass_bad_changes : Disk.t := {|
  Disk.names := ["g/iamglass"; "g/changes3"; "g/changes1"; "g/postlist.glass"];
  Disk.memory := true;
  Disk.chert_database := Throw (DatabaseError "not chert");
  Disk.chert_version := Throw (DatabaseError "not chert");
  Disk.glass_database := Ok tt;
  Disk.glass_version_file := Ok {| get_revision := 3; get_last_docid := 5 |};
  Disk.bad_changes := ["g/changes3"];
  Disk.table_errors := []
|}.

(** A chert directory with only the two tables that are always there. *)
Definition chert_bare : Disk.t := {|
  Disk.names := ["db/iamchert"; "db/record.DB"; "db/postlist.DB"];
  Disk.memory := true;
  Disk.chert_database := Ok {| get_lastdocid := 2; get_revision_number := 7 |};
  Disk.chert_version := Ok tt;
  Disk.glass_database := Throw (DatabaseError "not glass");
  Disk.glass_version_file := Throw (DatabaseError "not glass");
  Disk.bad_changes := [];
  Disk.table_errors := [("postlist", 1)]
|}.

(** A chert directory with all six tables. *)
Definition chert_full : Disk.t := {|
  Disk.names := ["db/iamchert"; "db/record.DB"; "db/termlist.DB";
                 "db/postlist.DB"; "db/position.DB"; "db/spelling.DB";
                 "db/synonym.DB"];
  Disk.memory := true;
  Disk.chert_database := Ok {| get_lastdocid := 2; get_revision_number := 7 |};
  Disk.chert_version := Ok tt;
  Disk.glass_database := Throw (DatabaseError "not glass");
  Disk.glass_version_file := Throw (DatabaseError "not glass");
  Disk.bad_changes := [];
  Disk.table_errors := []
|}.

End Scenario.
(** * Properties *)

(** ** The monad and its trace *)

Section Basics.

Context {W : Type}.

Lemma print_run (out : bool) (text : string) (s : state W) :
  print out text s =
  (Ok tt, mkState (world s) (heap s) (trace s ++ emitted out text)).
Proof.
  destruct out, s; unfold print, log, ret, emitted; simpl;
    rewrite ?app_nil_r; reflexivity.
Qed.

Lemma emits_weaken {A} (m : M W A) (Q Q' : list event -> Prop) :
  emits m Q -> (forall evs, Q evs -> Q' evs) -> emits m Q'.
Proof.
  intros Hm HQ s. destruct (Hm s) as (evs & Ht & Hq). eauto.
Qed.

Lemma emits_silent {A} (m : M W A) (Q : list event -> Prop) :
  (forall s, trace (snd (m s)) = trace s) -> Q [] -> emits m Q.
Proof.
  intros Hm HQ s. exists []. rewrite app_nil_r. auto.
Qed.

Lemma emits_ret {A} (a : A) (Q : list event -> Prop) :
  Q [] -> emits (ret (W := W) a) Q.
Proof. apply emits_silent. reflexivity. Qed.

Lemma emits_throw {A} (e : exn) (Q : list event -> Prop) :
  Q [] -> emits (throw (W := W) (A := A) e) Q.
Proof. apply emits_silent. reflexivity. Qed.

Lemma emits_query {A} (f : W -> A) (Q : list event -> Prop) :
  Q [] -> emits (query f) Q.
Proof. apply emits_silent. reflexivity. Qed.

Lemma emits_alloc (o : object) (Q : list event -> Prop) :
  Q [] -> emits (alloc (W := W) o) Q.
Proof. apply emits_silent. reflexivity. Qed.

Lemma emits_assign (l : loc) (o : object) (Q : list event -> Prop) :
  Q [] -> emits (assign (W := W) l o) Q.
Proof. apply emits_silent. reflexivity. Qed.

Lemma emits_log (e : event) (Q : list event -> Prop) :
  Q [e] -> emits (log (W := W) e) Q.
Proof. intros HQ s. exists [e]. auto. Qed.

Lemma emits_print (out : bool) (text : string) (Q : list event -> Prop) :
  Q (emitted out text) -> emits (print (W := W) out text) Q.
Proof. intros HQ s. rewrite print_run. eauto. Qed.

Lemma emits_bind {A B} (m : M W A) (k : A -> M W B)
    (Q1 Q2 Q : list event -> Prop) :
  emits m Q1 -> (forall a, emits (k a) Q2) ->
  (forall e1, Q1 e1 -> Q e1) ->
  (forall e1 e2, Q1 e1 -> Q2 e2 -> Q (e1 ++ e2)) ->
  emits (bind m k) Q.
Proof.
  intros Hm Hk Hthrow Hseq s. unfold bind.
  destruct (Hm s) as (e1 & Ht1 & Hq1).
  destruct (m s) as [[a | e] s1]; simpl in *.
  - destruct (Hk a s1) as (e2 & Ht2 & Hq2).
    exists (e1 ++ e2). rewrite Ht2, Ht1, app_assoc. auto.
  - exists e1. auto.
Qed.

Lemma emits_try_catch {A} (m : M W A) (h : exn -> M W A)
    (Q1 Q2 Q : list event -> Prop) :
  emits m Q1 -> (forall e, emits (h e) Q2) ->
  (forall e1, Q1 e1 -> Q e1) ->
  (forall e1 e2, Q1 e1 -> Q2 e2 -> Q (e1 ++ e2)) ->
  emits (try_catch m h) Q.
Proof.
  intros Hm Hh Hok Hseq s. unfold try_catch.
  destruct (Hm s) as (e1 & Ht1 & Hq1).
  destruct (m s) as [[a | e] s1]; simpl in *.
  - exists e1. auto.
  - destruct (Hh e s1) as (e2 & Ht2 & Hq2).
    exists (e1 ++ e2). rewrite Ht2, Ht1, app_assoc. auto.
Qed.

(** *** Every appended event satisfies [P] *)

Section Only.

Context (P : event -> Prop).

Lemma only_bind {A B} (m : M W A) (k : A -> M W B) :
  emits m (Forall P) -> (forall a, emits (k a) (Forall P)) ->
  emits (bind m k) (Forall P).
Proof.
  intros Hm Hk. eapply emits_bind; eauto.
  intros e1 e2 H1 H2. apply Forall_app; auto.
Qed.

Lemma only_try_catch {A} (m : M W A) (h : exn -> M W A) :
  emits m (Forall P) -> (forall e, emits (h e) (Forall P)) ->
  emits (try_catch m h) (Forall P).
Proof.
  intros Hm Hh. eapply emits_try_catch; eauto.
  intros e1 e2 H1 H2. apply Forall_app; auto.
Qed.

Lemma only_log (e : event) : P e -> emits (log (W := W) e) (Forall P).
Proof. intros He. apply emits_log. repeat constructor. exact He. Qed.

Lemma only_print (out : bool) (text : string) :
  P (Out text) -> emits (print (W := W) out text) (Forall P).
Proof.
  intros He. apply emits_print. destruct out; repeat constructor. exact He.
Qed.

Lemma only_for_each_table (body : string -> Z -> M W Z) (tables : list string) :
  (forall t errors, emits (body t errors) (Forall P)) ->
  forall errors, emits (for_each_table body tables errors) (Forall P).
Proof.
  intros Hbody. induction tables as [| t rest IH]; intros errors; simpl.
  - apply emits_ret. constructor.
  - apply only_bind; auto.
Qed.

End Only.

End Basics.

(** ** reserve_doclens *)

Section ReserveDoclens.

Context {W : Type} (P : platform) (C : collaborators W).

(** With an element size that divides 2^30 the comparison of the source,
    on element counts, is the comparison on bytes. *)
Lemma threshold_in_bytes (last_docid : Z) :
  0 < sizeof_termcount P ->
  (sizeof_termcount P | 2 ^ 30) ->
  (last_docid >=? 1073741824 / sizeof_termcount P) =
  (2 ^ 30 <=? last_docid * sizeof_termcount P).
Proof.
  intros Hpos [k Hk].
  change 1073741824 with (2 ^ 30). rewrite Hk.
  rewrite Z.div_mul by lia.
  destruct (Z.leb_spec (k * sizeof_termcount P) (last_docid * sizeof_termcount P)).
  - apply Z.geb_le. nia.
  - destruct (last_docid >=? k) eqn:E; [ | reflexivity ].
    apply Z.geb_le in E. nia.
Qed.

(** [reserve] only ever throws [bad_alloc] or [length_error]. *)
Lemma vector_reserve_throws (v : loc) (n : Z) (s : state W) (e : exn) :
  fst (vector_reserve P C v n s) = Throw e -> e = bad_alloc \/ e = length_error.
Proof.
  unfold vector_reserve, bind, log. simpl.
  destruct (heap s !! v) as [[cap elems|r]|]; simpl; try discriminate.
  destruct (vector_max_size P <? n); simpl; [ intros [= <-]; auto | ].
  destruct (n <=? cap); simpl; try discriminate.
  destruct (vector_allocate C n (world s)); simpl; try discriminate.
  intros [= <-]; auto.
Qed.

(** No exception leaves [reserve_doclens]. *)
Lemma reserve_doclens_returns (doclens : loc) (last_docid : Z) (out : bool)
    (s : state W) :
  fst (reserve_doclens P C doclens last_docid out s) = Ok tt.
Proof.
  unfold reserve_doclens, bind at 1, log at 1. simpl.
  destruct (last_docid >=? _).
  - rewrite print_run. reflexivity.
  - unfold try_catch.
    match goal with
    | |- context [vector_reserve P C ?d ?n ?s1] =>
        pose proof (vector_reserve_throws d n s1) as H;
        destruct (vector_reserve P C d n s1) as [[[]|e] s']
    end; [ reflexivity | ].
    destruct (H e eq_refl) as [-> | ->]; rewrite print_run; reflexivity.
Qed.

Lemma docid_add_small (last_docid : Z) :
  0 <= last_docid < 2 ^ 30 -> docid_add last_docid 1 = last_docid + 1.
Proof.
  intros H. unfold docid_add, docid_modulus.
  apply Z.mod_small. lia.
Qed.

Lemma capacity_at_insert (h : store) (l : loc) (c : Z) (elems : list Z) :
  (l < List.length h)%nat ->
  capacity_at (<[l := Vec c elems]> h) l = Some c.
Proof.
  intros Hl. unfold capacity_at.
  rewrite list_lookup_insert_eq by exact Hl. reflexivity.
Qed.

Lemma reserve_doclens_unfold (doclens : loc) (last_docid : Z) (out : bool)
    (s : state W) :
  reserve_doclens P C doclens last_docid out s =
  let s1 := entered s (EReserveDoclens doclens last_docid) in
  if last_docid >=? 1073741824 / sizeof_termcount P
  then print out msg_too_large s1
  else try_catch (vector_reserve P C doclens (docid_add last_docid 1))
         (fun e =>
            match e with
            | bad_alloc => print out msg_bad_alloc
            | length_error => print out msg_length_error
            | _ => throw e
            end) s1.
Proof.
  unfold reserve_doclens, bind at 1, log at 1. simpl.
  destruct (last_docid >=? _); reflexivity.
Qed.

(** C1. Below the 1 GiB threshold (counted in bytes, for an element size
    dividing 2^30) [reserve_doclens] asks the vector for room for
    [last_docid + 1] elements, and when that succeeds the capacity is at
    least [last_docid + 1]; at or above the threshold it makes no such
    request and leaves the store alone.  [bad_alloc] and [length_error] are
    swallowed, each with its own message when a sink is attached, and the
    function always returns normally, so the caller's error count is never
    touched. *)
Theorem reserve_doclens_bounded (doclens : loc) (last_docid : Z) (out : bool)
    (s : state W) (cap : Z) (elems : list Z) :
  0 < sizeof_termcount P ->
  (sizeof_termcount P | 2 ^ 30) ->
  0 <= last_docid < docid_modulus ->
  heap s !! doclens = Some (Vec cap elems) ->
  let s1 := entered s (EReserveDoclens doclens last_docid) in
  let run := reserve_doclens P C doclens last_docid out s in
  fst run = Ok tt /\
  world (snd run) = world s /\
  (2 ^ 30 <= last_docid * sizeof_termcount P ->
     heap (snd run) = heap s /\
     trace (snd run) = trace s1 ++ emitted out msg_too_large) /\
  (last_docid * sizeof_termcount P < 2 ^ 30 ->
     exists tail,
       trace (snd run) =
         trace s1 ++ EVectorReserve doclens (last_docid + 1) :: tail /\
       match fst (vector_reserve P C doclens (last_docid + 1) s1) with
       | Ok _ =>
           tail = [] /\
           exists c, capacity_at (heap (snd run)) doclens = Some c /\
                     last_docid + 1 <= c
       | Throw bad_alloc =>
           tail = emitted out msg_bad_alloc /\ heap (snd run) = heap s
       | Throw length_error =>
           tail = emitted out msg_length_error /\ heap (snd run) = heap s
       | Throw _ => False
       end) /\
  msg_too_large <> msg_bad_alloc /\
  msg_too_large <> msg_length_error /\
  msg_bad_alloc <> msg_length_error.
Proof.
  intros Hpos Hdiv Hrange Hvec s1 run.
  split; [ apply reserve_doclens_returns | ].
  assert (Hthr := threshold_in_bytes last_docid Hpos Hdiv).
  subst run. rewrite reserve_doclens_unfold. fold s1. rewrite Hthr.
  destruct (Z.leb_spec (2 ^ 30) (last_docid * sizeof_termcount P)) as [Hge | Hlt].
  - rewrite print_run. simpl.
    repeat split; try discriminate; try reflexivity. intros; lia.
  - assert (Hsmall : 0 <= last_docid < 2 ^ 30) by nia.
    rewrite (docid_add_small _ Hsmall).
    assert (Hlen : (doclens < List.length (heap s))%nat)
      by (eapply lookup_lt_Some; exact Hvec).
    unfold try_catch, vector_reserve, bind, log. simpl. rewrite Hvec.
    destruct (vector_max_size P <? last_docid + 1); simpl.
    { rewrite print_run. simpl.
      repeat split; try discriminate; try (intros; lia).
      intros _. exists (emitted out msg_length_error).
      rewrite <- app_assoc. auto. }
    destruct (Z.leb_spec (last_docid + 1) cap); simpl.
    { repeat split; try discriminate; try (intros; lia).
      intros _. exists []. repeat split.
      exists cap. unfold capacity_at. rewrite Hvec. auto. }
    destruct (vector_allocate C (last_docid + 1) (world s)); simpl.
    { repeat split; try discriminate; try (intros; lia).
      intros _. exists []. repeat split.
      exists (last_docid + 1). rewrite capacity_at_insert by exact Hlen.
      split; [ reflexivity | lia ]. }
    rewrite print_run. simpl.
    repeat split; try discriminate; try (intros; lia).
    intros _. exists (emitted out msg_bad_alloc).
    rewrite <- app_assoc. auto.
Qed.

End ReserveDoclens.

(** The theorem on the LP64 platform: document 2 is the last one, the
    vector is still empty and a sink is attached. *)
Lemma reserve_doclens_bounded_witness :
  let s := mkState Disk.chert_dir [Vec 0 []] [] in
  fst (reserve_doclens Disk.lp64 Disk.collab 0%nat 2 true s) = Ok tt /\
  capacity_at (heap (snd (reserve_doclens Disk.lp64 Disk.collab 0%nat 2 true s))) 0%nat
    = Some 3.
Proof.
  intros s.
  assert (H1 : 0 < sizeof_termcount Disk.lp64) by (simpl; lia).
  assert (H2 : (sizeof_termcount Disk.lp64 | 2 ^ 30))
    by (exists (2 ^ 28); reflexivity).
  assert (H3 : 0 <= 2 < docid_modulus) by (unfold docid_modulus; lia).
  assert (H4 : heap s !! 0%nat = Some (Vec 0 [])) by reflexivity.
  pose proof (reserve_doclens_bounded Disk.lp64 Disk.collab 0%nat 2 true s 0 [] H1 H2 H3 H4) as H.
  split; [ exact (proj1 H) | reflexivity ].
Defined.

(** ** What the parts of the driver append to the trace *)

Ltac only_step :=
  match goal with
  | |- emits (bind _ _) (Forall _) => apply only_bind; [ | intros ? ]
  | |- emits (try_catch _ _) (Forall _) => apply only_try_catch; [ | intros ? ]
  | |- emits (log _) (Forall _) => apply only_log
  | |- emits (print _ _) (Forall _) => apply only_print
  | |- emits (ret _) (Forall _) => apply emits_ret; constructor
  | |- emits (throw _) (Forall _) => apply emits_throw; constructor
  | |- emits (query _) (Forall _) => apply emits_query; constructor
  | |- emits (alloc _) (Forall _) => apply emits_alloc; constructor
  | |- emits (assign _ _) (Forall _) => apply emits_assign; constructor
  | |- emits (for_each_table _ _ _) (Forall _) =>
      apply only_for_each_table; intros ? ?
  | |- emits (if ?b then _ else _) (Forall _) => destruct b
  | |- emits (match ?x with _ => _ end) (Forall _) => destruct x
  | |- emits (fun s => _) (Forall _) =>
      apply emits_silent;
      [ intros ?; simpl;
        repeat match goal with
               | |- context [match ?x with _ => _ end] => destruct x
               end; reflexivity
      | constructor ]
  end.

Section Parts.

Context {W : Type} (P : platform) (C : collaborators W).
Context (Q : event -> Prop).

Lemma only_vector_reserve (v : loc) (n : Z) :
  Q (EVectorReserve v n) -> emits (vector_reserve P C v n) (Forall Q).
Proof. intros H. unfold vector_reserve. repeat only_step. exact H. Qed.

Lemma only_reserve_doclens (doclens : loc) (last_docid : Z) (out : bool) :
  Q (EReserveDoclens doclens last_docid) ->
  Q (EVectorReserve doclens (docid_add last_docid 1)) ->
  (forall text, Q (Out text)) ->
  emits (reserve_doclens P C doclens last_docid out) (Forall Q).
Proof.
  intros H1 H2 H3. unfold reserve_doclens.
  only_step; [ only_step; exact H1 | ].
  only_step; [ only_step; apply H3 | ].
  only_step; [ apply only_vector_reserve; exact H2 | ].
  repeat only_step; apply H3.
Qed.

Lemma only_call_check_chert_table (t f : string) (rev_ptr : option loc)
    (opts : Z) (doclens : loc) (last_docid : Z) (out : bool) :
  Q (ECheckChertTable t f rev_ptr opts doclens last_docid out) ->
  emits (call_check_chert_table C t f rev_ptr opts doclens last_docid out)
    (Forall Q).
Proof. intros H. unfold call_check_chert_table. repeat only_step. exact H. Qed.

Lemma only_call_check_glass_table (t dir : string) (v : glass_version)
    (opts : Z) (doclens : loc) (last_docid : Z) (out : bool) :
  Q (ECheckGlassTable t dir v opts doclens last_docid out) ->
  emits (call_check_glass_table C t dir v opts doclens last_docid out)
    (Forall Q).
Proof. intros H. unfold call_check_glass_table. repeat only_step. exact H. Qed.

Lemma only_chert_fix_version (path : string) (opts errors pre : Z) :
  Q (EChertVersionReadAndCheck path) -> Q (EChertVersionCreate path) ->
  emits (chert_fix_version P C path opts errors pre) (Forall Q).
Proof.
  intros H1 H2.
  unfold chert_fix_version, call_read_and_check, call_create.
  repeat only_step; assumption.
Qed.

Lemma only_check_chert_db_table (path : string) (rev_ptr : option loc)
    (opts : Z) (doclens : loc) (ld : Z) (out : bool) (t : string) (errors : Z) :
  (forall text, Q (Out text)) ->
  Q (ECheckChertTable t (path +:+ "/" +:+ t) rev_ptr opts doclens ld out) ->
  emits (check_chert_db_table C path rev_ptr opts doclens ld out t errors)
    (Forall Q).
Proof.
  intros H1 H2. unfold check_chert_db_table.
  repeat first [ apply only_call_check_chert_table | only_step ]; auto.
Qed.

Lemma only_check_changes (path : string) (r : nat) :
  (forall f, Q (EGlassChangesCheck f)) ->
  emits (check_changes C path r) (Forall Q).
Proof.
  intros H. induction r as [| r IH]; simpl.
  - only_step.
  - unfold call_GlassChanges_check. repeat only_step; auto.
Qed.

End Parts.

(** ** The whole chert directory *)

Section Chert.

Context {W : Type} (P : platform) (C : collaborators W).

Local Arguments for_each_table : simpl never.

Lemma call_check_chert_table_run (t f : string) (rev_ptr : option loc)
    (opts : Z) (doclens : loc) (ld : Z) (out : bool) (s : state W) :
  call_check_chert_table C t f rev_ptr opts doclens ld out s =
  let r := check_chert_table C t f rev_ptr opts doclens ld out
             (world s) (heap s) in
  (fst (fst r),
   mkState (snd (fst r)) (snd r)
     (trace s ++ [ECheckChertTable t f rev_ptr opts doclens ld out])).
Proof.
  unfold call_check_chert_table, bind, log. simpl.
  destruct (check_chert_table C t f rev_ptr opts doclens ld out _ _)
    as [[r w'] h']. reflexivity.
Qed.

Lemma check_chert_unfold (path : string) (opts : Z) (out : bool) (s : state W) :
  stat C (path +:+ "/iamchert") (world s) = true ->
  check P C path opts out s =
  check_chert_db P C path (masked P opts out) out (List.length (heap s)) 0
    (declared s (Vec 0 [])).
Proof.
  intros H. unfold check, bind, alloc, query. simpl. rewrite H. reflexivity.
Qed.

(** One turn of the table loop when the table is handed to the checker. *)
Lemma check_chert_db_table_checked (path : string) (rev_ptr : option loc)
    (opts : Z) (doclens : loc) (ld : Z) (out : bool) (t : string)
    (errors : Z) (s : state W) :
  String.eqb t "record" || String.eqb t "postlist" ||
  file_exists C ((path +:+ "/" +:+ t) +:+ ".DB") (world s) = true ->
  check_chert_db_table C path rev_ptr opts doclens ld out t errors s =
  (let* n := call_check_chert_table C t (path +:+ "/" +:+ t) rev_ptr opts
               doclens ld out in
   ret (size_t_add errors n))
    (mkState (world s) (heap s) (trace s ++ emitted out (t +:+ ":" +:+ nl))).
Proof.
  intros H. unfold check_chert_db_table.
  unfold bind at 1. rewrite print_run.
  destruct (String.eqb t "record"); simpl; [ reflexivity | ].
  destruct (String.eqb t "postlist"); simpl; [ reflexivity | ].
  simpl in H. unfold bind at 1, query. simpl. rewrite H. reflexivity.
Qed.

(** One turn of the table loop when a lazily created table is absent. *)
Lemma check_chert_db_table_skipped (path : string) (rev_ptr : option loc)
    (opts : Z) (doclens : loc) (ld : Z) (out : bool) (t : string)
    (errors : Z) (s : state W) :
  String.eqb t "record" = false -> String.eqb t "postlist" = false ->
  file_exists C ((path +:+ "/" +:+ t) +:+ ".DB") (world s) = false ->
  check_chert_db_table C path rev_ptr opts doclens ld out t errors s =
  (Ok errors,
   mkState (world s) (heap s)
     (trace s ++
      if out then
        [Out (t +:+ ":" +:+ nl);
         Out (if String.eqb t "termlist" then "Not present." +:+ nl
              else "Lazily created, and not yet used." +:+ nl);
         Out nl]
      else [])).
Proof.
  intros H1 H2 H3. unfold check_chert_db_table.
  unfold bind at 1. rewrite print_run. rewrite H1, H2. simpl.
  unfold bind at 1, query. simpl. rewrite H3. simpl.
  destruct out; simpl.
  - destruct (String.eqb t "termlist"); unfold bind, log, ret; simpl;
      rewrite <- !app_assoc; reflexivity.
  - rewrite app_nil_r. destruct s; reflexivity.
Qed.

Lemma not_called_Forall (t : string) (evs : list event) :
  Forall (fun e => match e with
                   | ECheckChertTable t' _ _ _ _ _ _
                   | ECheckGlassTable t' _ _ _ _ _ _ => t' <> t
                   | _ => True
                   end) evs ->
  ~ In t (called_tables evs).
Proof.
  induction 1 as [| e evs He _ IH]; simpl; [ tauto | ].
  destruct e; simpl; try exact IH; intros [Heq | Hin]; auto.
Qed.

(** In the chert table loop a term-list, position, spelling or synonym
    table whose .DB file is absent is not handed to the checker and leaves
    the error count as it was; with a sink the turn prints the table
    header, then "Not present." for the term-list and "Lazily created, and
    not yet used." for the others, then an empty line, and without a sink
    it prints nothing.  The record and postlist tables are handed to the
    checker whatever the file test would say.  Over a whole run on a chert
    directory, a lazily created table that is absent throughout is never
    handed to the checker. *)
Lemma chert_lazy_turns (path : string) (opts : Z) (out : bool)
    (s : state W) (rev_ptr : option loc) (doclens : loc) (ld errors : Z) :
  let turn t := check_chert_db_table C path rev_ptr opts doclens ld out t errors s in
  let skipped t text :=
    (Ok errors,
     mkState (world s) (heap s)
       (trace s ++
        if out then [Out (t +:+ ":" +:+ nl); Out (text +:+ nl); Out nl]
        else [])) in
  (file_exists C ((path +:+ "/" +:+ "termlist") +:+ ".DB") (world s) = false ->
   turn "termlist" = skipped "termlist" "Not present.") /\
  (forall t, In t ["position"; "spelling"; "synonym"] ->
     file_exists C ((path +:+ "/" +:+ t) +:+ ".DB") (world s) = false ->
     turn t = skipped t "Lazily created, and not yet used.") /\
  (forall t, In t ["record"; "postlist"] ->
     turn t =
     (let* n := call_check_chert_table C t (path +:+ "/" +:+ t) rev_ptr opts
                  doclens ld out in
      ret (size_t_add errors n))
       (mkState (world s) (heap s) (trace s ++ emitted out (t +:+ ":" +:+ nl)))) /\
  (forall t, In t ["termlist"; "position"; "spelling"; "synonym"] ->
     stat C (path +:+ "/iamchert") (world s) = true ->
     (forall w, file_exists C ((path +:+ "/" +:+ t) +:+ ".DB") w = false) ->
     exists evs,
       trace (snd (check P C path opts out s)) = trace s ++ evs /\
       ~ In t (called_tables evs)).
Proof.
  intros turn skipped. subst turn skipped. simpl.
  split; [ | split; [ | split ] ].
  - intros H. apply (check_chert_db_table_skipped path rev_ptr opts doclens ld
                       out "termlist"); auto.
  - intros t Ht H.
    rewrite (check_chert_db_table_skipped path rev_ptr opts doclens ld out t)
      by (try exact H; simpl in Ht; intuition subst; reflexivity).
    simpl in Ht. intuition subst; reflexivity.
  - intros t Ht. apply check_chert_db_table_checked.
    simpl in Ht. intuition subst; reflexivity.
  - intros t Ht Hchert Habsent.
    rewrite check_chert_unfold by exact Hchert.
    set (Q := fun e => match e with
                       | ECheckChertTable t' _ _ _ _ _ _
                       | ECheckGlassTable t' _ _ _ _ _ _ => t' <> t
                       | _ => True
                       end).
    assert (Hemits : forall o dl e0,
               emits (check_chert_db P C path o out dl e0) (Forall Q)).
    { intros o dl e0. unfold check_chert_db, chert_open, call_ChertDatabase.
      repeat first
        [ apply only_reserve_doclens
        | apply only_chert_fix_version
        | match goal with
          | |- emits (check_chert_db_table _ _ _ _ _ _ _ ?t' _) _ =>
              destruct (String.eqb_spec t' t) as [-> | Hne];
              [ intros s'; eexists; split;
                [ rewrite (check_chert_db_table_skipped path _ _ _ _ out t)
                    by (try apply Habsent; simpl in Ht; intuition subst;
                        reflexivity);
                  simpl; reflexivity
                | destruct out; repeat constructor ]
              | apply only_check_chert_db_table; [ intros; exact I | exact Hne ] ]
          end
        | only_step ];
        try exact I; try (intros; exact I). }
    destruct (Hemits (masked P opts out) (List.length (heap s)) 0
                (declared s (Vec 0 []))) as (evs & Htr & Hall).
    exists evs. split; [ exact Htr | ].
    apply not_called_Forall. exact Hall.
Qed.

Lemma check_chert_db_unfold (path : string) (opts : Z) (out : bool)
    (doclens : loc) (errors : Z) (s : state W) :
  check_chert_db P C path opts out doclens errors s =
  let rev := List.length (heap s) in
  match chert_open P C path out doclens rev errors (declared s (Rev 0)) with
  | (Ok opened, s1) =>
      (let* errors' :=
         for_each_table
           (check_chert_db_table C path (Some rev) opts doclens (fst opened) out)
           chert_tables (snd opened) in
       chert_fix_version P C path opts errors' (snd opened) >> ret errors') s1
  | (Throw e, s1) => (Throw e, s1)
  end.
Proof. reflexivity. Qed.

Lemma chert_open_failed_run (path : string) (out : bool) (doclens rev : loc)
    (errors : Z) (e : exn) (s : state W) :
  ChertDatabase_open C path (world s) = Throw e ->
  is_Xapian_Error e = true ->
  chert_open P C path out doclens rev errors s =
  (Ok (docid_minus_one, size_t_add errors 1),
   mkState (world s) (heap s)
     (trace s ++ EChertDatabase path :: emitted out (msg_open_failed C e))).
Proof.
  intros Hopen Hx. unfold chert_open, try_catch, call_ChertDatabase.
  unfold bind at 3, log. simpl. unfold bind at 1. simpl. rewrite Hopen, Hx.
  unfold bind. rewrite print_run. simpl. rewrite <- app_assoc. reflexivity.
Qed.

Lemma chert_open_ok_run (path : string) (out : bool) (doclens rev : loc)
    (errors : Z) (db : chert_db) (s : state W) :
  ChertDatabase_open C path (world s) = Ok db ->
  chert_open P C path out doclens rev errors s =
  let s1 := snd (reserve_doclens P C doclens (get_lastdocid db) out
                   (entered s (EChertDatabase path))) in
  (Ok (get_lastdocid db, errors),
   mkState (world s1) (<[rev := Rev (get_revision_number db)]> (heap s1))
     (trace s1)).
Proof.
  intros Hopen. unfold chert_open, try_catch, call_ChertDatabase.
  unfold bind at 3, log. simpl. unfold bind at 1. simpl. rewrite Hopen.
  unfold bind at 1. fold (entered s (EChertDatabase path)).
  pose proof (reserve_doclens_returns P C doclens (get_lastdocid db) out
                (entered s (EChertDatabase path))) as Hret.
  destruct (reserve_doclens P C doclens (get_lastdocid db) out _)
    as [r s1]. simpl in Hret. subst r. reflexivity.
Qed.

(** A run on a chert directory: the two locals are declared, then the
    open phase, the table loop and the version repair follow. *)
Lemma check_chert_run (path : string) (opts : Z) (out : bool) (s : state W) :
  stat C (path +:+ "/iamchert") (world s) = true ->
  check P C path opts out s =
  match chert_open P C path out (List.length (heap s))
          (S (List.length (heap s))) 0
          (mkState (world s) (heap s ++ [Vec 0 []; Rev 0]) (trace s)) with
  | (Ok opened, s1) =>
      (let* errors' :=
         for_each_table
           (check_chert_db_table C path (Some (S (List.length (heap s))))
              (masked P opts out) (List.length (heap s)) (fst opened) out)
           chert_tables (snd opened) in
       chert_fix_version P C path (masked P opts out) errors' (snd opened) >>
       ret errors') s1
  | (Throw e, s1) => (Throw e, s1)
  end.
Proof.
  intros Hchert. rewrite check_chert_unfold by exact Hchert.
  rewrite check_chert_db_unfold. cbv zeta. unfold declared. simpl.
  rewrite length_app, Nat.add_comm, <- !app_assoc. reflexivity.
Qed.

Lemma fix_requested_masked (opts : Z) (out : bool) :
  fix_requested P (masked P opts out) = fix_requested P opts.
Proof.
  unfold fix_requested, masked. destruct out; simpl; [ reflexivity | ].
  rewrite <- Z.land_assoc, Z.land_diag. reflexivity.
Qed.

Lemma chert_fix_version_run (path : string) (opts errors pre : Z) (s : state W) :
  chert_fix_version P C path opts errors pre s =
  if (errors =? pre) && fix_requested P opts then
    match ChertVersion_read_and_check C path (world s) with
    | Ok _ => (Ok tt, entered s (EChertVersionReadAndCheck path))
    | Throw e =>
        if is_DatabaseError e then
          (fst (ChertVersion_create C path (world s)),
           mkState (snd (ChertVersion_create C path (world s))) (heap s)
             (trace s ++ [EChertVersionReadAndCheck path;
                          EChertVersionCreate path]))
        else (Throw e, entered s (EChertVersionReadAndCheck path))
    end
  else (Ok tt, s).
Proof.
  unfold chert_fix_version, fix_requested.
  destruct ((errors =? pre) && negb (Z.land opts (DBCHECK_FIX P) =? 0));
    [ | reflexivity ].
  unfold try_catch, call_read_and_check, call_create, bind, log, entered.
  simpl.
  destruct (ChertVersion_read_and_check C path (world s)) as [[] | e];
    [ reflexivity | ].
  destruct (is_DatabaseError e); [ | reflexivity ].
  simpl. destruct (ChertVersion_create C path (world s)) as [r w'].
  simpl. rewrite <- app_assoc. reflexivity.
Qed.

(** The run after a failed open: the table loop and the version repair,
    entered with one error and the placeholder [last_docid]. *)
Lemma check_chert_open_failed (path : string) (opts : Z) (out : bool)
    (s : state W) (e : exn) :
  stat C (path +:+ "/iamchert") (world s) = true ->
  ChertDatabase_open C path (world s) = Throw e ->
  is_Xapian_Error e = true ->
  check P C path opts out s =
  (let* errors :=
     for_each_table
       (check_chert_db_table C path (Some (S (List.length (heap s))))
          (masked P opts out) (List.length (heap s)) docid_minus_one out)
       chert_tables 1 in
   chert_fix_version P C path (masked P opts out) errors 1 >> ret errors)
    (mkState (world s) (heap s ++ [Vec 0 []; Rev 0])
       (trace s ++ EChertDatabase path :: emitted out (msg_open_failed C e))).
Proof.
  intros Hchert Hopen Hx. rewrite check_chert_run by exact Hchert.
  rewrite (chert_open_failed_run _ _ _ _ _ e) by assumption.
  reflexivity.
Qed.

(** C2 (as the code has it). When the chert database cannot be opened
    (the constructor throws a [Xapian::Error]) the run goes on with the
    loop over the six tables and the version repair, entered with exactly
    one error and the placeholder [last_docid], 2^32 - 1; the description of
    the failure is printed exactly when a sink is attached; every table
    checker called is given the placeholder; and [reserve_doclens] is not
    entered at all. *)
Theorem chert_open_failure_continues (path : string) (opts : Z) (out : bool)
    (s : state W) (e : exn) :
  stat C (path +:+ "/iamchert") (world s) = true ->
  ChertDatabase_open C path (world s) = Throw e ->
  is_Xapian_Error e = true ->
  let doclens := List.length (heap s) in
  let opts' := masked P opts out in
  check P C path opts out s =
    (let* errors :=
       for_each_table
         (check_chert_db_table C path (Some (S doclens)) opts' doclens
            docid_minus_one out)
         ["record"; "termlist"; "postlist"; "position"; "spelling"; "synonym"]
         1 in
     chert_fix_version P C path opts' errors 1 >> ret errors)
      (mkState (world s) (heap s ++ [Vec 0 []; Rev 0])
         (trace s ++ EChertDatabase path :: emitted out (msg_open_failed C e))) /\
  docid_minus_one = 4294967295 /\
  emitted false (msg_open_failed C e) = [] /\
  exists evs,
    trace (snd (check P C path opts out s)) =
      trace s ++ EChertDatabase path :: emitted out (msg_open_failed C e) ++ evs /\
    Forall (fun ev =>
              is_reserve_doclens ev = false /\
              match ev with
              | ECheckChertTable _ _ _ _ _ last_docid _ =>
                  last_docid = docid_minus_one
              | _ => True
              end) evs.
Proof.
  intros Hchert Hopen Hx doclens opts'.
  pose proof (check_chert_open_failed path opts out s e Hchert Hopen Hx) as Heq.
  split; [ exact Heq | ].
  split; [ reflexivity | ].
  split; [ reflexivity | ].
  rewrite Heq.
  match goal with
  | |- context [trace (snd (?m ?s1))] =>
      assert (Hemits : emits m
                (Forall (fun ev =>
                   is_reserve_doclens ev = false /\
                   match ev with
                   | ECheckChertTable _ _ _ _ _ last_docid _ =>
                       last_docid = docid_minus_one
                   | _ => True
                   end)));
      [ | destruct (Hemits s1) as (evs & Htr & Hall) ]
  end.
  { repeat first
      [ apply only_chert_fix_version
      | apply only_check_chert_db_table
      | only_step ]; simpl; auto. }
  exists evs. split; [ | exact Hall ].
  rewrite Htr. simpl. rewrite <- app_assoc. reflexivity.
Qed.

Ltac gate_tac :=
  repeat match goal with
         | H : _ /\ _ |- _ => destruct H
         | H : exists _, _ |- _ => destruct H
         | H : _ \/ _ |- _ => destruct H
         | H : False |- _ => destruct H
         | H : In _ _ |- _ => simpl in H
         end;
  try discriminate; try congruence; try tauto; eauto;
  try (exfalso; match goal with H : ~ _ |- _ => apply H end; auto).

Lemma only_chert_open (Q : event -> Prop) (path : string) (out : bool)
    (doclens rev : loc) (errors : Z) :
  Q (EChertDatabase path) ->
  (forall d, Q (EReserveDoclens doclens d)) ->
  (forall n, Q (EVectorReserve doclens n)) ->
  (forall text, Q (Out text)) ->
  emits (chert_open P C path out doclens rev errors) (Forall Q).
Proof.
  intros H1 H2 H3 H4. unfold chert_open, call_ChertDatabase.
  repeat first [ apply only_reserve_doclens | only_step ]; auto.
Qed.

Lemma only_chert_table_loop (Q : event -> Prop) (path : string)
    (rev_ptr : option loc) (opts : Z) (doclens : loc) (ld : Z) (out : bool)
    (tables : list string) (errors : Z) :
  (forall text, Q (Out text)) ->
  (forall t, Q (ECheckChertTable t (path +:+ "/" +:+ t) rev_ptr opts doclens
                  ld out)) ->
  emits (for_each_table
           (check_chert_db_table C path rev_ptr opts doclens ld out)
           tables errors) (Forall Q).
Proof.
  intros H1 H2. apply only_for_each_table. intros t e.
  apply only_check_chert_db_table; auto.
Qed.

(** C3. On a chert directory, once the open phase has left [pre] errors
    and the table loop has ended with result [r], the version file is read
    and checked exactly when the caller set DBCHECK_FIX and the loop
    returned the very count [pre] it started from, whatever [pre] is; it
    is recreated exactly when, in addition, reading it threw a
    [DatabaseError].  Otherwise the run ends where the loop ended: nothing
    more is called and the state is unchanged.  Nothing before the end of
    the loop touches the version file. *)
Theorem chert_version_repair_gate (path : string) (opts : Z) (out : bool)
    (s : state W) (ld pre : Z) (s1 : state W) (r : result Z) (s2 : state W) :
  stat C (path +:+ "/iamchert") (world s) = true ->
  let doclens := List.length (heap s) in
  chert_open P C path out doclens (S doclens) 0
    (mkState (world s) (heap s ++ [Vec 0 []; Rev 0]) (trace s))
    = (Ok (ld, pre), s1) ->
  for_each_table
    (check_chert_db_table C path (Some (S doclens)) (masked P opts out)
       doclens ld out)
    chert_tables pre s1 = (r, s2) ->
  let final := check P C path opts out s in
  let gate := fix_requested P opts = true /\ r = Ok pre in
  (exists before,
     trace s2 = trace s ++ before /\
     Forall (fun e => is_version_repair e = false) before) /\
  exists evs,
    trace (snd final) = trace s2 ++ evs /\
    (In (EChertVersionReadAndCheck path) evs <-> gate) /\
    (In (EChertVersionCreate path) evs <->
     gate /\ exists e, ChertVersion_read_and_check C path (world s2) = Throw e /\
                       is_DatabaseError e = true) /\
    (~ gate -> evs = [] /\ snd final = s2 /\ fst final = r).
Proof.
  intros Hchert doclens Hopen Hloop final gate.
  split.
  - destruct (only_chert_open (fun e => is_version_repair e = false) path out
                doclens (S doclens) 0) with
      (s := mkState (world s) (heap s ++ [Vec 0 []; Rev 0]) (trace s))
      as (e1 & Ht1 & Hq1); auto.
    destruct (only_chert_table_loop (fun e => is_version_repair e = false)
                path (Some (S doclens)) (masked P opts out) doclens ld out
                chert_tables pre) with (s := s1) as (e2 & Ht2 & Hq2); auto.
    rewrite Hopen in Ht1. rewrite Hloop in Ht2. simpl in Ht1, Ht2.
    exists (e1 ++ e2). rewrite Ht2, Ht1, app_assoc.
    split; [ reflexivity | apply Forall_app; auto ].
  - assert (Hfinal : final =
              match r with
              | Ok errors =>
                  match chert_fix_version P C path (masked P opts out) errors
                          pre s2 with
                  | (Ok _, s') => (Ok errors, s')
                  | (Throw e, s') => (Throw e, s')
                  end
              | Throw e => (Throw e, s2)
              end).
    { subst final. rewrite check_chert_run by exact Hchert.
      fold doclens. rewrite Hopen. simpl. unfold bind at 1. rewrite Hloop.
      destruct r; reflexivity. }
    rewrite Hfinal. clear Hfinal. subst gate.
    destruct r as [errors | e].
    + rewrite chert_fix_version_run, fix_requested_masked.
      destruct (Z.eqb_spec errors pre) as [-> | Hne];
        destruct (fix_requested P opts); simpl;
        try solve [ exists []; rewrite app_nil_r; simpl;
                    repeat split; intros; gate_tac ].
      destruct (ChertVersion_read_and_check C path (world s2)) as [[] | e].
      * exists [EChertVersionReadAndCheck path]. simpl.
        repeat split; intros; gate_tac.
      * destruct (is_DatabaseError e) eqn:Hdb.
        -- exists [EChertVersionReadAndCheck path; EChertVersionCreate path].
           destruct (ChertVersion_create C path (world s2)) as [[[] | e'] w'];
             simpl; repeat split; intros; gate_tac.
        -- exists [EChertVersionReadAndCheck path]. simpl.
           repeat split; intros; gate_tac.
    + exists []. rewrite app_nil_r. simpl.
      repeat split; intros; gate_tac.
Qed.

End Chert.

(** The theorem on the chert directory whose database cannot be opened. *)
Lemma chert_open_failure_continues_witness :
  fst (Disk.run Disk.chert_dir_broken "db" 0 true) = Ok 1.
Proof.
  assert (H1 : stat Disk.collab ("db" +:+ "/iamchert")
                 (world (Disk.boot Disk.chert_dir_broken)) = true)
    by reflexivity.
  assert (H2 : ChertDatabase_open Disk.collab "db"
                 (world (Disk.boot Disk.chert_dir_broken)) =
               Throw (DatabaseError "cannot open")) by reflexivity.
  assert (H3 : is_Xapian_Error (DatabaseError "cannot open") = true)
    by reflexivity.
  pose proof (chert_open_failure_continues Disk.lp64 Disk.collab "db" 0 true
                (Disk.boot Disk.chert_dir_broken) _ H1 H2 H3) as H.
  unfold Disk.run. rewrite (proj1 H). reflexivity.
Defined.

(** C2 as stated fails: on that directory, with a sink attached,
    [reserve_doclens] is never entered, neither with the placeholder nor
    with any other [last_docid]. *)
Lemma chert_open_failure_no_reserve :
  Disk.chert_database Disk.chert_dir_broken = Throw (DatabaseError "cannot open") /\
  existsb is_reserve_doclens
    (trace (snd (Disk.run Disk.chert_dir_broken "db" 0 true))) = false /\
  ~ In (EReserveDoclens 0%nat docid_minus_one)
      (trace (snd (Disk.run Disk.chert_dir_broken "db" 0 true))).
Proof.
  split; [ reflexivity | ]. split; [ reflexivity | ].
  vm_compute. intuition discriminate.
Qed.

(** The theorem on the directory whose database cannot be opened, with
    DBCHECK_FIX and no sink: the open failure is the only error, the table
    checks add none, so the unreadable version file is recreated. *)
Lemma chert_version_repair_gate_witness :
  In (EChertVersionCreate "db")
     (trace (snd (Disk.run Disk.chert_dir_broken "db" 16 false))).
Proof.
  set (s := Disk.boot Disk.chert_dir_broken).
  set (s1 := snd (chert_open Disk.lp64 Disk.collab "db" false 0%nat 1%nat 0
                    (mkState (world s) (heap s ++ [Vec 0 []; Rev 0]) (trace s)))).
  set (s2 := snd (for_each_table
                    (check_chert_db_table Disk.collab "db" (Some 1%nat)
                       (masked Disk.lp64 16 false) 0%nat docid_minus_one false)
                    chert_tables 1 s1)).
  assert (H1 : stat Disk.collab ("db" +:+ "/iamchert") (world s) = true)
    by reflexivity.
  assert (H2 : chert_open Disk.lp64 Disk.collab "db" false
                 (List.length (heap s)) (S (List.length (heap s))) 0
                 (mkState (world s) (heap s ++ [Vec 0 []; Rev 0]) (trace s))
               = (Ok (docid_minus_one, 1), s1)) by reflexivity.
  assert (H3 : for_each_table
                 (check_chert_db_table Disk.collab "db"
                    (Some (S (List.length (heap s))))
                    (masked Disk.lp64 16 false) (List.length (heap s))
                    docid_minus_one false)
                 chert_tables 1 s1 = (Ok 1, s2)) by reflexivity.
  destruct (chert_version_repair_gate Disk.lp64 Disk.collab "db" 16 false s
              docid_minus_one 1 s1 (Ok 1) s2 H1 H2 H3)
    as [_ (evs & Ht & _ & Hc & _)].
  unfold Disk.run. fold s. rewrite Ht. apply in_or_app. right.
  apply Hc. split; [ split; reflexivity | ].
  exists (DatabaseError "bad version file"). split; reflexivity.
Defined.

(** ** Order of the table checks and the shared vector *)

Section TableOrder.

Context {W : Type} (P : platform) (C : collaborators W).

Local Arguments for_each_table : simpl never.

Lemma called_tables_app (e1 e2 : list event) :
  called_tables (e1 ++ e2) = called_tables e1 ++ called_tables e2.
Proof.
  induction e1 as [| e e1 IH]; simpl; [ reflexivity | ].
  destruct e; simpl; rewrite ?IH; reflexivity.
Qed.

Lemma called_tables_none (evs : list event) :
  Forall (fun e => is_table_check e = false) evs -> called_tables evs = [].
Proof.
  induction 1 as [| e evs He _ IH]; simpl; [ reflexivity | ].
  destruct e; simpl in *; try discriminate; exact IH.
Qed.

Lemma called_tables_emitted (out : bool) (text : string) :
  called_tables (emitted out text) = [].
Proof. destruct out; reflexivity. Qed.

Lemma calls_within_bind {A B} (m : M W A) (k : A -> M W B)
    (l1 l2 : list string) :
  emits m (calls_within l1) -> (forall a, emits (k a) (calls_within l2)) ->
  emits (bind m k) (calls_within (l1 ++ l2)).
Proof.
  intros Hm Hk. eapply emits_bind; eauto; unfold calls_within.
  - intros e1 H1. apply sublist_inserts_r. exact H1.
  - intros e1 e2 H1 H2. rewrite called_tables_app. apply sublist_app; auto.
Qed.

Lemma calls_within_silent {A} (m : M W A) :
  emits m (Forall (fun e => is_table_check e = false)) ->
  emits m (calls_within []).
Proof.
  intros Hm. eapply emits_weaken; [ exact Hm | ].
  intros evs H. unfold calls_within. rewrite called_tables_none by exact H.
  constructor.
Qed.

(** One turn of the chert loop calls the checker of its own table, at most
    once. *)
Lemma calls_within_chert_turn (path : string) (rev_ptr : option loc)
    (opts : Z) (doclens : loc) (ld : Z) (out : bool) (t : string) (errors : Z) :
  emits (check_chert_db_table C path rev_ptr opts doclens ld out t errors)
    (calls_within [t]).
Proof.
  intros s.
  destruct (String.eqb t "record" || String.eqb t "postlist" ||
            file_exists C ((path +:+ "/" +:+ t) +:+ ".DB") (world s)) eqn:E.
  - rewrite check_chert_db_table_checked by exact E.
    unfold bind. rewrite call_check_chert_table_run. simpl.
    match goal with
    | |- context [check_chert_table C ?a1 ?a2 ?a3 ?a4 ?a5 ?a6 ?a7 ?a8 ?a9] =>
        destruct (check_chert_table C a1 a2 a3 a4 a5 a6 a7 a8 a9)
          as [[[n | e] w'] h']
    end; simpl;
      (eexists; split; [ rewrite <- app_assoc; reflexivity | ]);
      unfold calls_within; rewrite called_tables_app, called_tables_emitted;
      simpl; repeat constructor.
  - apply orb_false_iff in E. destruct E as [E E3].
    apply orb_false_iff in E. destruct E as [E1 E2].
    rewrite check_chert_db_table_skipped by assumption. simpl.
    eexists; split; [ reflexivity | ].
    unfold calls_within. destruct out; simpl; repeat constructor.
Qed.

Lemma calls_within_chert_loop (path : string) (rev_ptr : option loc)
    (opts : Z) (doclens : loc) (ld : Z) (out : bool) (tables : list string) :
  forall errors,
    emits (for_each_table
             (check_chert_db_table C path rev_ptr opts doclens ld out)
             tables errors) (calls_within tables).
Proof.
  induction tables as [| t rest IH]; intros errors.
  - apply emits_ret. constructor.
  - change (t :: rest) with ([t] ++ rest).
    change (for_each_table ?b ([t] ++ rest) errors)
      with (bind (b t errors) (fun e' => for_each_table b rest e')).
    apply calls_within_bind; [ apply calls_within_chert_turn | ].
    intros a. apply IH.
Qed.

(** From the term-list turn on: the postlist checker runs on the world and
    the store the term-list checker has just left. *)
Lemma chert_termlist_then_postlist (path : string) (rev_ptr : option loc)
    (opts : Z) (doclens : loc) (ld : Z) (out : bool) (rest : list string)
    (errors : Z) (s : state W) (n : Z) (w' : W) (h' : store) :
  file_exists C ((path +:+ "/" +:+ "termlist") +:+ ".DB") (world s) = true ->
  check_chert_table C "termlist" (path +:+ "/" +:+ "termlist") rev_ptr opts
    doclens ld out (world s) (heap s) = (Ok n, w', h') ->
  for_each_table (check_chert_db_table C path rev_ptr opts doclens ld out)
    ("termlist" :: "postlist" :: rest) errors s =
  (let* m := call_check_chert_table C "postlist" (path +:+ "/" +:+ "postlist")
               rev_ptr opts doclens ld out in
   for_each_table (check_chert_db_table C path rev_ptr opts doclens ld out)
     rest (size_t_add (size_t_add errors n) m))
    (mkState w' h'
       (trace s ++ emitted out ("termlist" +:+ ":" +:+ nl) ++
        ECheckChertTable "termlist" (path +:+ "/" +:+ "termlist") rev_ptr opts
          doclens ld out ::
        emitted out ("postlist" +:+ ":" +:+ nl))).
Proof.
  intros Hpresent Hcall.
  change (for_each_table ?b ("termlist" :: "postlist" :: rest) errors)
    with (bind (b "termlist" errors)
            (fun e1 => bind (b "postlist" e1)
                         (fun e2 => for_each_table b rest e2))).
  unfold bind at 1.
  rewrite check_chert_db_table_checked by (rewrite Hpresent; reflexivity).
  unfold bind at 1. rewrite call_check_chert_table_run. simpl.
  rewrite Hcall. simpl.
  unfold bind at 1.
  rewrite check_chert_db_table_checked by reflexivity. simpl.
  unfold bind at 2. unfold bind at 1.
  rewrite <- !app_assoc. simpl.
  match goal with
  | |- context [call_check_chert_table C ?a1 ?a2 ?a3 ?a4 ?a5 ?a6 ?a7 ?a8] =>
      destruct (call_check_chert_table C a1 a2 a3 a4 a5 a6 a7 a8)
        as [[m | e] s']
  end; reflexivity.
Qed.

(** On a chert directory the table checkers are called in the order
    record, termlist, postlist, position, spelling, synonym (a table may be
    left out, none is repeated or moved); every call, like
    [reserve_doclens] before them, is given the location of the one vector
    [doclens] declared by this run; and when the term-list checker returns,
    the next thing called is the postlist checker, on exactly the world and
    store the term-list checker left, with the same location. *)
Lemma chert_calls_in_order (path : string) (opts : Z) (out : bool)
    (s : state W) :
  stat C (path +:+ "/iamchert") (world s) = true ->
  let doclens := List.length (heap s) in
  (exists evs,
     trace (snd (check P C path opts out s)) = trace s ++ evs /\
     called_tables evs `sublist_of`
       ["record"; "termlist"; "postlist"; "position"; "spelling"; "synonym"] /\
     Forall (fun e => match e with
                      | ECheckChertTable _ _ _ _ d _ _ => d = doclens
                      | EReserveDoclens d _ => d = doclens
                      | EVectorReserve d _ => d = doclens
                      | ECheckGlassTable _ _ _ _ _ _ _ => False
                      | _ => True
                      end) evs) /\
  heap (declared s (Vec 0 [])) !! doclens = Some (Vec 0 []) /\
  (forall rev_ptr opts' ld rest errors (s' : state W) n w' h',
     file_exists C ((path +:+ "/" +:+ "termlist") +:+ ".DB") (world s') = true ->
     check_chert_table C "termlist" (path +:+ "/" +:+ "termlist") rev_ptr opts'
       doclens ld out (world s') (heap s') = (Ok n, w', h') ->
     for_each_table (check_chert_db_table C path rev_ptr opts' doclens ld out)
       ("termlist" :: "postlist" :: rest) errors s' =
     (let* m := call_check_chert_table C "postlist"
                  (path +:+ "/" +:+ "postlist") rev_ptr opts' doclens ld out in
      for_each_table (check_chert_db_table C path rev_ptr opts' doclens ld out)
        rest (size_t_add (size_t_add errors n) m))
       (mkState w' h'
          (trace s' ++ emitted out ("termlist" +:+ ":" +:+ nl) ++
           ECheckChertTable "termlist" (path +:+ "/" +:+ "termlist") rev_ptr
             opts' doclens ld out ::
           emitted out ("postlist" +:+ ":" +:+ nl)))).
Proof.
  intros Hchert doclens.
  split; [ | split ].
  - rewrite check_chert_unfold by exact Hchert. fold doclens.
    set (Q := fun e => match e with
                       | ECheckChertTable _ _ _ _ d _ _ => d = doclens
                       | EReserveDoclens d _ => d = doclens
                       | EVectorReserve d _ => d = doclens
                       | ECheckGlassTable _ _ _ _ _ _ _ => False
                       | _ => True
                       end).
    assert (H1 : emits (check_chert_db P C path (masked P opts out) out
                          doclens 0)
                   (calls_within ([] ++ [] ++ chert_tables ++ []))).
    { unfold check_chert_db.
      apply calls_within_bind;
        [ apply calls_within_silent; only_step; reflexivity | intros rev ].
      apply calls_within_bind;
        [ apply calls_within_silent; apply only_chert_open; reflexivity
        | intros opened ].
      apply calls_within_bind; [ apply calls_within_chert_loop | intros e' ].
      apply calls_within_silent.
      repeat first [ apply only_chert_fix_version | only_step ]; reflexivity. }
    assert (H2 : emits (check_chert_db P C path (masked P opts out) out
                          doclens 0) (Forall Q)).
    { unfold check_chert_db.
      repeat first
        [ apply only_chert_open
        | apply only_chert_table_loop
        | apply only_chert_fix_version
        | only_step ]; simpl; auto. }
    destruct (H1 (declared s (Vec 0 []))) as (evs & Ht & Hs).
    destruct (H2 (declared s (Vec 0 []))) as (evs' & Ht' & Hq).
    assert (evs' = evs) as ->
      by (rewrite Ht in Ht'; apply app_inv_head in Ht'; congruence).
    exists evs. split; [ exact Ht | ]. split; [ | exact Hq ].
    unfold calls_within in Hs. simpl in Hs. exact Hs.
  - unfold declared. simpl. subst doclens.
    rewrite lookup_app_r by lia. rewrite Nat.sub_diag. reflexivity.
  - intros. apply chert_termlist_then_postlist; assumption.
Qed.

End TableOrder.

(** ** The whole glass directory *)

Section Glass.

Context {W : Type} (P : platform) (C : collaborators W).

Local Arguments for_each_table : simpl never.
Local Arguments check_changes : simpl never.

Lemma check_glass_unfold (path : string) (opts : Z) (out : bool) (s : state W) :
  stat C (path +:+ "/iamchert") (world s) = false ->
  stat C (path +:+ "/iamglass") (world s) = true ->
  check P C path opts out s =
  check_glass_db P C path (masked P opts out) out (List.length (heap s)) 0
    (declared s (Vec 0 [])).
Proof.
  intros H1 H2. unfold check, bind, alloc, query. simpl. rewrite H1. simpl.
  rewrite H2. reflexivity.
Qed.

Lemma glass_open_run (path : string) (out : bool) (errors : Z) (s : state W) :
  glass_open C path out errors s =
  match Database_open C path (world s) with
  | Ok _ => (Ok errors, entered s (EDatabase path))
  | Throw e =>
      if is_Xapian_Error e then
        (Ok (size_t_add errors 1),
         mkState (world s) (heap s)
           (trace s ++ EDatabase path :: emitted out (msg_open_failed C e)))
      else (Throw e, entered s (EDatabase path))
  end.
Proof.
  unfold glass_open, try_catch, call_Database, bind, log. simpl.
  destruct (Database_open C path (world s)) as [[] | e]; [ reflexivity | ].
  destruct (is_Xapian_Error e); [ | reflexivity ].
  rewrite print_run. simpl. rewrite <- app_assoc. reflexivity.
Qed.

(** After a tolerated openability test. *)
Lemma glass_open_caught (path : string) (out : bool) (s : state W) :
  caught_if_thrown (Database_open C path (world s)) ->
  glass_open C path out 0 s =
  (Ok (glass_open_errors (Database_open C path (world s))),
   mkState (world s) (heap s)
     (trace s ++ glass_open_events C path out (Database_open C path (world s)))).
Proof.
  intros Hc. rewrite glass_open_run. unfold glass_open_events, entered.
  destruct (Database_open C path (world s)) as [[] | e]; simpl in *.
  - reflexivity.
  - rewrite Hc. reflexivity.
Qed.

Lemma revisions_down_from_S (n : nat) :
  revisions_down_from (S n) = S n :: revisions_down_from n.
Proof.
  unfold revisions_down_from. rewrite seq_S, rev_app_distr. reflexivity.
Qed.

Lemma revisions_down_from_lookup (n i : nat) :
  (i < n)%nat -> revisions_down_from n !! i = Some (n - i)%nat.
Proof.
  revert i. induction n as [| n IH]; intros i Hi; [ lia | ].
  rewrite revisions_down_from_S. destruct i as [| i]; simpl.
  - reflexivity.
  - apply IH. lia.
Qed.

Lemma check_changes_step (path : string) (r : nat) (s : state W) :
  check_changes C path (S r) s =
  let f := changes_file_name path (S r) in
  if file_exists C f (world s) then
    match GlassChanges_check C f (world s) with
    | Ok _ => check_changes C path r (entered s (EGlassChangesCheck f))
    | Throw e => (Throw e, entered s (EGlassChangesCheck f))
    end
  else check_changes C path r s.
Proof.
  change (check_changes C path (S r) s) with
    ((let* present := query (file_exists C (changes_file_name path (S r))) in
      (if present then call_GlassChanges_check C (changes_file_name path (S r))
       else ret tt) >>
      check_changes C path r) s).
  unfold bind at 1, query. simpl.
  destruct (file_exists C (changes_file_name path (S r)) (world s)).
  - unfold bind, call_GlassChanges_check, log, entered. simpl.
    destruct (GlassChanges_check C (changes_file_name path (S r)) (world s))
      as [[] | e]; reflexivity.
  - reflexivity.
Qed.

(** The changes pass in full: it touches neither the world nor the store,
    the files it hands to [GlassChanges::check] are an initial part of
    those on disk, in descending order of revision; it checks them all
    unless a check throws, and then it ends with that exception. *)
Lemma check_changes_run (path : string) (n : nat) (s : state W) :
  exists checked,
    checked `prefix_of` changes_on_disk C path n (world s) /\
    snd (check_changes C path n s) =
      mkState (world s) (heap s) (trace s ++ map EGlassChangesCheck checked) /\
    match fst (check_changes C path n s) with
    | Ok _ => checked = changes_on_disk C path n (world s)
    | Throw e =>
        exists f, last checked = Some f /\
                  GlassChanges_check C f (world s) = Throw e
    end.
Proof.
  revert s. induction n as [| n IH]; intros s.
  - exists []. simpl. rewrite app_nil_r. destruct s. repeat split.
    apply prefix_nil.
  - rewrite check_changes_step. unfold changes_on_disk.
    rewrite revisions_down_from_S. simpl.
    destruct (file_exists C (changes_file_name path (S n)) (world s)).
    + destruct (GlassChanges_check C (changes_file_name path (S n)) (world s))
        as [[] | e] eqn:Hcheck.
      * destruct (IH (entered s (EGlassChangesCheck
                                   (changes_file_name path (S n)))))
          as (checked & Hp & Hs & Hr).
        exists (changes_file_name path (S n) :: checked).
        split; [ apply (prefix_app [_]); exact Hp | ].
        unfold entered in *. simpl in *.
        split; [ rewrite Hs, <- app_assoc; reflexivity | ].
        destruct (fst (check_changes C path n _)).
        -- rewrite Hr. reflexivity.
        -- destruct Hr as (f & Hl & Hf). exists f. split; [ | exact Hf ].
           destruct checked; [ discriminate | exact Hl ].
      * exists [changes_file_name path (S n)]. simpl.
        split; [ apply (prefix_app [_]); apply prefix_nil | ].
        split; [ reflexivity | ].
        exists (changes_file_name path (S n)).
        split; [ reflexivity | exact Hcheck ].
    + destruct (IH s) as (checked & Hp & Hs & Hr).
      exists checked. auto.
Qed.

Lemma call_GlassVersion_read_run (dir : string) (s : state W) :
  call_GlassVersion_read C dir s =
  (GlassVersion_read C dir (world s), entered s (EGlassVersionRead dir)).
Proof. reflexivity. Qed.

(** A run on a glass directory whose openability test is tolerated. *)
Lemma check_glass_run (path : string) (opts : Z) (out : bool) (s : state W) :
  stat C (path +:+ "/iamchert") (world s) = false ->
  stat C (path +:+ "/iamglass") (world s) = true ->
  caught_if_thrown (Database_open C path (world s)) ->
  check P C path opts out s =
  let doclens := List.length (heap s) in
  let opened := Database_open C path (world s) in
  let s1 := mkState (world s) (heap s ++ [Vec 0 []])
              (trace s ++ glass_open_events C path out opened ++
               [EGlassVersionRead path]) in
  match GlassVersion_read C path (world s) with
  | Throw e => (Throw e, s1)
  | Ok v =>
      (check_changes C path (N.to_nat (get_revision v)) >>
       reserve_doclens P C doclens (get_last_docid v) out >>
       for_each_table
         (check_glass_db_table C path v (masked P opts out) doclens
            (get_last_docid v) out)
         glass_tables (glass_open_errors opened)) s1
  end.
Proof.
  intros H1 H2 Hc. rewrite check_glass_unfold by assumption.
  unfold check_glass_db. unfold bind at 1.
  rewrite glass_open_caught by exact Hc. simpl.
  unfold bind at 1. rewrite call_GlassVersion_read_run. simpl.
  unfold entered. simpl. rewrite <- !app_assoc.
  destruct (GlassVersion_read C path (world s)); reflexivity.
Qed.

Lemma changes_checked_app (e1 e2 : list event) :
  changes_checked (e1 ++ e2) = changes_checked e1 ++ changes_checked e2.
Proof.
  induction e1 as [| e e1 IH]; simpl; [ reflexivity | ].
  destruct e; simpl; rewrite ?IH; reflexivity.
Qed.

Lemma changes_checked_map (fs : list string) :
  changes_checked (map EGlassChangesCheck fs) = fs.
Proof. induction fs as [| f fs IH]; simpl; [ | rewrite IH ]; reflexivity. Qed.

Lemma changes_checked_none (evs : list event) :
  Forall (fun e => match e with
                   | EGlassChangesCheck _ => False
                   | _ => True
                   end) evs ->
  changes_checked evs = [].
Proof.
  induction 1 as [| e evs He _ IH]; simpl; [ reflexivity | ].
  destruct e; simpl in *; try exact IH. contradiction.
Qed.

Lemma changes_checked_glass_open (path : string) (out : bool)
    (opened : result unit) :
  changes_checked (glass_open_events C path out opened ++
                   [EGlassVersionRead path]) = [].
Proof. destruct opened, out; reflexivity. Qed.

Lemma only_glass_tables (Q : event -> Prop) (path : string)
    (v : glass_version) (opts : Z) (doclens : loc) (ld : Z) (out : bool)
    (tables : list string) (errors : Z) :
  (forall t, Q (ECheckGlassTable t path v opts doclens ld out)) ->
  emits (for_each_table
           (check_glass_db_table C path v opts doclens ld out) tables errors)
    (Forall Q).
Proof.
  intros H. apply only_for_each_table. intros t e.
  unfold check_glass_db_table.
  repeat first [ apply only_call_check_glass_table | only_step ]; auto.
Qed.

(** When every changes file on disk passes its check, the pass hands
    exactly those files to the checker and returns. *)
Lemma check_changes_all (path : string) (n : nat) (s : state W) :
  (forall f, In f (changes_on_disk C path n (world s)) ->
             GlassChanges_check C f (world s) = Ok tt) ->
  check_changes C path n s =
  (Ok tt,
   mkState (world s) (heap s)
     (trace s ++ map EGlassChangesCheck (changes_on_disk C path n (world s)))).
Proof.
  intros Hok.
  destruct (check_changes_run path n s) as (checked & Hp & Hs & Hr).
  destruct (check_changes C path n s) as [[[] | e] s']; simpl in *.
  - subst. reflexivity.
  - destruct Hr as (f & Hl & Hf). exfalso.
    assert (Hin : In f (changes_on_disk C path n (world s))).
    { destruct Hp as [k ->]. apply in_or_app. left.
      apply last_Some in Hl. destruct Hl as [l' ->].
      apply in_or_app. right. left. reflexivity. }
    rewrite (Hok f Hin) in Hf. discriminate.
Qed.

(** When a changes file on disk fails its check and those of higher
    revision pass, the pass ends at that file with the exception: the files
    of lower revision are not looked at. *)
Lemma check_changes_until (path : string) (n : nat) (s : state W)
    (done rest : list string) (f : string) (e : exn) :
  changes_on_disk C path n (world s) = done ++ f :: rest ->
  (forall g, In g done -> GlassChanges_check C g (world s) = Ok tt) ->
  GlassChanges_check C f (world s) = Throw e ->
  check_changes C path n s =
  (Throw e,
   mkState (world s) (heap s)
     (trace s ++ map EGlassChangesCheck (done ++ [f]))).
Proof.
  revert s done. induction n as [| n IH]; intros s done Hdisk Hdone Hf.
  - destruct done; discriminate.
  - rewrite check_changes_step. cbv zeta.
    unfold changes_on_disk in Hdisk. rewrite revisions_down_from_S in Hdisk.
    simpl in Hdisk.
    destruct (file_exists C (changes_file_name path (S n)) (world s)).
    + destruct done as [| g done].
      * simpl in Hdisk. injection Hdisk as Hhead _. rewrite Hhead, Hf.
        reflexivity.
      * simpl in Hdisk. injection Hdisk as Hhead Htail.
        rewrite Hhead, (Hdone g (or_introl eq_refl)).
        rewrite (IH (entered s (EGlassChangesCheck g)) done).
        -- unfold entered. simpl. rewrite <- app_assoc. reflexivity.
        -- exact Htail.
        -- intros g' Hg'. apply Hdone. right. exact Hg'.
        -- exact Hf.
    + apply IH; assumption.
Qed.

(** C8 (as the code has it). On a glass directory whose version file
    reads as [v], the changes
    pass walks the revisions [n, n-1, ..., 1] for [n] the current revision
    (the i-th one visited is [n - i]; none when [n] is 0) and hands to
    [GlassChanges::check] the file [path/changes<r>] of each revision whose
    file exists, in that order: over the whole run the files checked are an
    initial part of that list, and all of it when no check throws.  In that
    case the run goes on to [reserve_doclens] and the table loop with the
    error count the openability test left, so neither a missing file nor
    the pass itself adds an error.  When the check of a file throws, the
    files of higher revision having passed, [check] ends there with that
    exception: the files of lower revision are not checked although they
    exist, and no table is. *)
Theorem glass_changes_pass (path : string) (opts : Z) (out : bool)
    (s : state W) (v : glass_version) :
  stat C (path +:+ "/iamchert") (world s) = false ->
  stat C (path +:+ "/iamglass") (world s) = true ->
  caught_if_thrown (Database_open C path (world s)) ->
  GlassVersion_read C path (world s) = Ok v ->
  let n := N.to_nat (get_revision v) in
  let on_disk :=
    List.filter (fun f => file_exists C f (world s))
      (map (fun r => path +:+ "/changes" +:+ str (N.of_nat r))
         (revisions_down_from n)) in
  let opened := Database_open C path (world s) in
  let doclens := List.length (heap s) in
  (forall i, (i < n)%nat -> revisions_down_from n !! i = Some (n - i)%nat) /\
  (n = O -> on_disk = []) /\
  (exists evs,
     trace (snd (check P C path opts out s)) = trace s ++ evs /\
     changes_checked evs `prefix_of` on_disk /\
     ((forall f, In f on_disk -> GlassChanges_check C f (world s) = Ok tt) ->
      changes_checked evs = on_disk)) /\
  ((forall f, In f on_disk -> GlassChanges_check C f (world s) = Ok tt) ->
   check P C path opts out s =
   (reserve_doclens P C doclens (get_last_docid v) out >>
    for_each_table
      (check_glass_db_table C path v (masked P opts out) doclens
         (get_last_docid v) out)
      glass_tables (glass_open_errors opened))
     (mkState (world s) (heap s ++ [Vec 0 []])
        (trace s ++ glass_open_events C path out opened ++
         [EGlassVersionRead path] ++ map EGlassChangesCheck on_disk))) /\
  (forall done f rest e,
     on_disk = done ++ f :: rest ->
     (forall g, In g done -> GlassChanges_check C g (world s) = Ok tt) ->
     GlassChanges_check C f (world s) = Throw e ->
     check P C path opts out s =
     (Throw e,
      mkState (world s) (heap s ++ [Vec 0 []])
        (trace s ++ glass_open_events C path out opened ++
         [EGlassVersionRead path] ++ map EGlassChangesCheck (done ++ [f])))).
Proof.
  intros H1 H2 Hc Hv n on_disk opened doclens.
  assert (Hd : on_disk = changes_on_disk C path n (world s)) by reflexivity.
  clearbody on_disk. subst on_disk.
  split; [ intros i Hi; apply revisions_down_from_lookup; exact Hi | ].
  split; [ intros ->; reflexivity | ].
  pose proof (check_glass_run path opts out s H1 H2 Hc) as Hrun.
  cbv zeta in Hrun. rewrite Hv in Hrun. fold n doclens opened in Hrun.
  set (s1 := mkState (world s) (heap s ++ [Vec 0 []])
               (trace s ++ glass_open_events C path out opened ++
                [EGlassVersionRead path])) in *.
  assert (Hafter : forall s2 : state W,
             exists evs,
               trace (snd ((reserve_doclens P C doclens (get_last_docid v) out >>
                            for_each_table
                              (check_glass_db_table C path v (masked P opts out)
                                 doclens (get_last_docid v) out)
                              glass_tables (glass_open_errors opened)) s2)) =
               trace s2 ++ evs /\ changes_checked evs = []).
  { intros s2.
    match goal with
    | |- context [trace (snd (?m s2))] =>
        assert (Hemits : emits m
                  (Forall (fun e => match e with
                                    | EGlassChangesCheck _ => False
                                    | _ => True
                                    end)))
    end.
    { repeat first
        [ apply only_reserve_doclens | apply only_glass_tables | only_step ];
        simpl; auto. }
    destruct (Hemits s2) as (evs & Ht & Hq).
    exists evs. split; [ exact Ht | apply changes_checked_none; exact Hq ]. }
  split; [ | split ].
  - rewrite Hrun. unfold bind at 1.
    destruct (check_changes_run path n s1) as (checked & Hp & Hs & Hr).
    destruct (check_changes C path n s1) as [[[] | e] s2] eqn:Hcc;
      cbn [fst snd] in Hs, Hr.
    + destruct (Hafter s2) as (evs & Ht & Hnone).
      exists ((glass_open_events C path out opened ++ [EGlassVersionRead path])
              ++ map EGlassChangesCheck checked ++ evs).
      split.
      { rewrite Ht, Hs. unfold s1. cbn [trace].
        rewrite <- !app_assoc. reflexivity. }
      rewrite changes_checked_app, changes_checked_glass_open,
        changes_checked_app, changes_checked_map, Hnone, app_nil_r.
      cbn [app]. subst checked. split; [ reflexivity | auto ].
    + exists ((glass_open_events C path out opened ++ [EGlassVersionRead path])
              ++ map EGlassChangesCheck checked).
      split.
      { cbn [snd]. rewrite Hs. unfold s1. cbn [trace].
        rewrite <- !app_assoc. reflexivity. }
      rewrite changes_checked_app, changes_checked_glass_open,
        changes_checked_map. cbn [app].
      split; [ exact Hp | ].
      intros Hok. rewrite (check_changes_all path n s1 Hok) in Hcc.
      discriminate.
  - intros Hok. rewrite Hrun. unfold bind at 1.
    rewrite (check_changes_all path n s1 Hok). unfold s1. cbn [trace world heap].
    rewrite <- !app_assoc. reflexivity.
  - intros done f rest e Hdisk Hdone Hf. rewrite Hrun. unfold bind at 1.
    rewrite (check_changes_until path n s1 done rest f e Hdisk Hdone Hf).
    unfold s1. cbn [trace world heap]. rewrite <- !app_assoc. reflexivity.
Qed.

(** C10. On a glass directory the version file is read outside any
    handler: when [version_file.read()] throws, [check] ends with that very
    exception, so no error count is returned, and nothing is called after
    the read, neither the changes checker nor a table checker.  A failure
    of the openability test just before it is tolerated: with a readable
    version file the run goes on, counting one error. *)
Theorem glass_version_read_propagates (path : string) (opts : Z) (out : bool)
    (s : state W) :
  stat C (path +:+ "/iamchert") (world s) = false ->
  stat C (path +:+ "/iamglass") (world s) = true ->
  caught_if_thrown (Database_open C path (world s)) ->
  let opened := Database_open C path (world s) in
  let doclens := List.length (heap s) in
  let s1 := mkState (world s) (heap s ++ [Vec 0 []])
              (trace s ++ glass_open_events C path out opened ++
               [EGlassVersionRead path]) in
  (forall e, GlassVersion_read C path (world s) = Throw e ->
     check P C path opts out s = (Throw e, s1) /\
     existsb is_table_check (glass_open_events C path out opened ++
                             [EGlassVersionRead path]) = false /\
     changes_checked (glass_open_events C path out opened ++
                      [EGlassVersionRead path]) = []) /\
  (forall e0 v,
     opened = Throw e0 ->
     GlassVersion_read C path (world s) = Ok v ->
     check P C path opts out s =
     (check_changes C path (N.to_nat (get_revision v)) >>
      reserve_doclens P C doclens (get_last_docid v) out >>
      for_each_table
        (check_glass_db_table C path v (masked P opts out) doclens
           (get_last_docid v) out)
        glass_tables 1)
       (mkState (world s) (heap s ++ [Vec 0 []])
          (trace s ++ EDatabase path :: emitted out (msg_open_failed C e0) ++
           [EGlassVersionRead path]))).
Proof.
  intros H1 H2 Hc opened doclens s1.
  pose proof (check_glass_run path opts out s H1 H2 Hc) as Hrun.
  cbv zeta in Hrun. fold opened doclens s1 in Hrun.
  split.
  - intros e He. rewrite He in Hrun.
    split; [ exact Hrun | ].
    split; [ destruct opened, out; reflexivity
           | apply changes_checked_glass_open ].
  - intros e0 v Ho Hv. rewrite Hv in Hrun. rewrite Hrun.
    subst s1. rewrite Ho. reflexivity.
Qed.

End Glass.

(** The theorem on the glass directory [g] at revision 3, where the
    changes file of revision 2 is missing: revisions 3 and 1 are checked,
    in that order. *)
Lemma glass_changes_pass_witness :
  changes_checked (trace (snd (Disk.run Disk.glass_dir "g" 0 true)))
    = ["g/changes3"; "g/changes1"] /\
  fst (Disk.run Disk.glass_dir "g" 0 true) = Ok 2.
Proof.
  set (s := Disk.boot Disk.glass_dir).
  assert (H1 : stat Disk.collab ("g" +:+ "/iamchert") (world s) = false)
    by reflexivity.
  assert (H2 : stat Disk.collab ("g" +:+ "/iamglass") (world s) = true)
    by reflexivity.
  assert (H3 : caught_if_thrown (Database_open Disk.collab "g" (world s)))
    by exact I.
  assert (H4 : GlassVersion_read Disk.collab "g" (world s) =
               Ok {| get_revision := 3; get_last_docid := 5 |})
    by reflexivity.
  destruct (glass_changes_pass Disk.lp64 Disk.collab "g" 0 true s _ H1 H2 H3 H4)
    as (_ & _ & (evs & Ht & _ & Hall) & _ & _).
  split; [ | reflexivity ].
  unfold Disk.run. fold s. rewrite Ht. simpl.
  apply Hall. intros f Hf. vm_compute in Hf.
  destruct Hf as [<- | [<- | []]]; reflexivity.
Defined.

(** The theorem on a glass directory whose version file cannot be read. *)
Lemma glass_version_read_propagates_witness :
  fst (Disk.run Disk.glass_dir_unreadable "g" 0 true)
    = Throw (DatabaseError "bad version file").
Proof.
  set (s := Disk.boot Disk.glass_dir_unreadable).
  assert (H1 : stat Disk.collab ("g" +:+ "/iamchert") (world s) = false)
    by reflexivity.
  assert (H2 : stat Disk.collab ("g" +:+ "/iamglass") (world s) = true)
    by reflexivity.
  assert (H3 : caught_if_thrown (Database_open Disk.collab "g" (world s)))
    by reflexivity.
  destruct (glass_version_read_propagates Disk.lp64 Disk.collab "g" 0 true s
              H1 H2 H3) as [Hthrow _].
  unfold Disk.run. fold s.
  rewrite (proj1 (Hthrow (DatabaseError "bad version file") eq_refl)).
  reflexivity.
Defined.

(** ** A single table *)

Section Strings.

Lemma length_append (a b : string) :
  String.length (a +:+ b) = (String.length a + String.length b)%nat.
Proof. induction a as [| c a IH]; simpl; [ | rewrite IH ]; reflexivity. Qed.

Lemma substring_all (b : string) : substring 0 (String.length b) b = b.
Proof. induction b as [| c b IH]; simpl; [ | rewrite IH ]; reflexivity. Qed.

Lemma substring_append_tail (a b : string) (k m : nat) :
  substring (String.length a + k) m (a +:+ b) = substring k m b.
Proof. induction a as [| c a IH]; simpl; [ reflexivity | exact IH ]. Qed.

Lemma substring_append_head (a b : string) :
  substring 0 (String.length a) (a +:+ b) = a.
Proof.
  induction a as [| c a IH]; simpl.
  - destruct b; reflexivity.
  - rewrite IH. reflexivity.
Qed.

(** Whether [a ++ b] ends with a suffix no longer than [b] is decided by
    [b] alone. *)
Lemma endswith_append (a b suffix : string) :
  (String.length suffix <= String.length b)%nat ->
  endswith (a +:+ b) suffix = endswith b suffix.
Proof.
  intros Hlen. unfold endswith. rewrite length_append.
  replace (String.length a + String.length b - String.length suffix)%nat
    with (String.length a + (String.length b - String.length suffix))%nat
    by lia.
  rewrite substring_append_tail.
  destruct (Nat.leb_spec (String.length suffix) (String.length b));
    destruct (Nat.leb_spec (String.length suffix)
                (String.length a + String.length b)); try lia; reflexivity.
Qed.

Lemma resize_drop_append (a b : string) :
  resize_drop (a +:+ b) (String.length b) = a.
Proof.
  unfold resize_drop. rewrite length_append.
  replace (String.length a + String.length b - String.length b)%nat
    with (String.length a) by lia.
  apply substring_append_head.
Qed.



Lemma trim_suffix_dot (base : string) :
  trim_suffix (base +:+ ".") = (base, UNKNOWN).
Proof.
  unfold trim_suffix.
  rewrite (endswith_append base "." ".") by (simpl; lia).
  cbn [endswith String.length Nat.leb Nat.sub substring String.eqb Ascii.eqb
       Bool.eqb andb].
  pose proof (resize_drop_append base ".") as H. cbn [String.length] in H.
  rewrite H. reflexivity.
Qed.

Lemma trim_suffix_DB (base : string) :
  trim_suffix (base +:+ ".DB") = (base, CHERT).
Proof.
  unfold trim_suffix.
  rewrite (endswith_append base ".DB" ".") by (simpl; lia).
  rewrite (endswith_append base ".DB" ".DB") by (simpl; lia).
  cbn [endswith String.length Nat.leb Nat.sub substring String.eqb Ascii.eqb
       Bool.eqb andb].
  pose proof (resize_drop_append base ".DB") as H. cbn [String.length] in H.
  rewrite H. reflexivity.
Qed.

Lemma trim_suffix_glass (base : string) :
  trim_suffix (base +:+ ".glass") = (base, GLASS).
Proof.
  unfold trim_suffix.
  rewrite (endswith_append base ".glass" ".") by (simpl; lia).
  rewrite (endswith_append base ".glass" ".DB") by (simpl; lia).
  rewrite (endswith_append base ".glass" ".glass") by (simpl; lia).
  cbn [endswith String.length Nat.leb Nat.sub substring String.eqb Ascii.eqb
       Bool.eqb andb].
  pose proof (resize_drop_append base ".glass") as H. cbn [String.length] in H.
  rewrite H. reflexivity.
Qed.

Lemma trim_suffix_none (path : string) :
  endswith path "." = false -> endswith path ".DB" = false ->
  endswith path ".glass" = false ->
  trim_suffix path = (path, UNKNOWN).
Proof. intros H1 H2 H3. unfold trim_suffix. rewrite H1, H2, H3. reflexivity. Qed.

End Strings.

Ltac rewrite_hyps_bool :=
  match goal with
  | H : ?x = true |- context [?x] => rewrite H
  | H : ?x = false |- context [?x] => rewrite H
  end.

Section SingleTable.

Context {W : Type} (P : platform) (C : collaborators W).

Lemma check_single_unfold (path : string) (opts : Z) (out : bool) (s : state W) :
  stat C (path +:+ "/iamchert") (world s) = false ->
  stat C (path +:+ "/iamglass") (world s) = false ->
  check P C path opts out s =
  check_single_table C path (masked P opts out) out (List.length (heap s)) 0
    (declared s (Vec 0 [])).
Proof.
  intros H1 H2. unfold check, bind, alloc, query. simpl. rewrite H1. simpl.
  rewrite H2. reflexivity.
Qed.

(** Retired formats are recognised in the order flint, brass, quartz, before
    anything is called and whatever the options are. *)
Lemma retired_format_rejected (path : string) (opts : Z) (out : bool)
    (s : state W) :
  stat C (path +:+ "/iamchert") (world s) = false ->
  stat C (path +:+ "/iamglass") (world s) = false ->
  let thrown msg :=
    (Throw (FeatureUnavailableError msg), declared s (Vec 0 [])) in
  (stat C (path +:+ "/iamflint") (world s) = true ->
   check P C path opts out s = thrown msg_flint) /\
  (stat C (path +:+ "/iamflint") (world s) = false ->
   stat C (path +:+ "/iambrass") (world s) = true ->
   check P C path opts out s = thrown msg_brass) /\
  (stat C (path +:+ "/iamflint") (world s) = false ->
   stat C (path +:+ "/iambrass") (world s) = false ->
   stat C (path +:+ "/record_DB") (world s) = true ->
   check P C path opts out s = thrown msg_quartz).
Proof.
  intros H1 H2 thrown. subst thrown. simpl.
  rewrite check_single_unfold by assumption.
  unfold check_single_table, bind, query, throw. simpl.
  repeat split; intros; repeat (rewrite_hyps_bool; simpl); reflexivity.
Qed.

(** With no marker at [path] the run is the resolution of the backend
    followed by the single table check. *)
Lemma check_single_run (path : string) (opts : Z) (out : bool) (s : state W) :
  no_marker C path (world s) ->
  check P C path opts out s =
  (let filename := fst (trim_suffix path) in
   let doclens := List.length (heap s) in
   let* backend := probe_backend C filename (snd (trim_suffix path)) in
   match backend with
   | GLASS =>
       let* version_file := call_GlassVersion_read C (dir_of filename) in
       call_check_glass_table C (tablename_of filename) (dir_of filename)
         version_file (masked P opts out) doclens docid_minus_one out
   | CHERT =>
       let* flint := query (stat C (dir_of filename +:+ "/iamflint")) in
       if flint then throw (FeatureUnavailableError msg_flint) else
       let* brass := query (stat C (dir_of filename +:+ "/iambrass")) in
       if brass then throw (FeatureUnavailableError msg_brass) else
       call_check_chert_table C (tablename_of filename) filename None
         (masked P opts out) doclens docid_minus_one out
   | UNKNOWN => ret 0
   end) (declared s (Vec 0 [])).
Proof.
  intros (H1 & H2 & H3 & H4 & H5).
  rewrite check_single_unfold by assumption.
  unfold check_single_table.
  unfold bind at 1, query at 1. simpl. rewrite H3.
  unfold bind at 1, query at 1. simpl. rewrite H4.
  unfold bind at 1, query at 1. simpl. rewrite H5.
  reflexivity.
Qed.

Lemma probe_backend_run (filename : string) (backend : backend_t)
    (s : state W) :
  probe_backend C filename backend s =
  match backend with
  | UNKNOWN =>
      if stat C (filename +:+ ".DB") (world s) then (Ok CHERT, s)
      else if stat C (filename +:+ ".glass") (world s) then (Ok GLASS, s)
      else (Throw (DatabaseError msg_not_a_database), s)
  | _ => (Ok backend, s)
  end.
Proof.
  destruct backend; try reflexivity.
  unfold probe_backend, bind, query, ret, throw. simpl.
  destruct (stat C (filename +:+ ".DB") (world s)); [ reflexivity | ].
  destruct (stat C (filename +:+ ".glass") (world s)); reflexivity.
Qed.

(** A chert table in a directory where the marker of a retired format is
    found, at the place the driver looks for it. *)
Lemma chert_table_in_retired_directory (path : string) (opts : Z) (out : bool)
    (s : state W) :
  no_marker C path (world s) ->
  let filename := fst (trim_suffix path) in
  let dir := dir_of filename in
  let s0 := declared s (Vec 0 []) in
  probe_backend C filename (snd (trim_suffix path)) s0 = (Ok CHERT, s0) ->
  (stat C (dir +:+ "/iamflint") (world s) = true ->
   check P C path opts out s =
   (Throw (FeatureUnavailableError msg_flint), s0)) /\
  (stat C (dir +:+ "/iamflint") (world s) = false ->
   stat C (dir +:+ "/iambrass") (world s) = true ->
   check P C path opts out s =
   (Throw (FeatureUnavailableError msg_brass), s0)).
Proof.
  intros Hno filename dir s0 Hprobe.
  pose proof (check_single_run path opts out s Hno) as Hrun.
  cbv zeta in Hrun. unfold bind at 1 in Hrun.
  fold filename dir s0 in Hrun. rewrite Hprobe in Hrun.
  split.
  - intros Hflint. rewrite Hrun.
    unfold bind at 1, query at 1. simpl. rewrite Hflint. reflexivity.
  - intros Hflint Hbrass. rewrite Hrun.
    unfold bind at 1, query at 1. simpl. rewrite Hflint.
    unfold bind at 1, query at 1. simpl. rewrite Hbrass. reflexivity.
Qed.

(** Without a slash in the file name that place is the root directory:
    [dir] is empty and the markers sought are [/iamflint], [/iambrass]. *)
Lemma dir_of_without_slash (filename : string) :
  find_last_of filename "/" = None -> dir_of filename = "".
Proof.
  intros H. unfold dir_of, after_last_slash. rewrite H.
  destruct filename; reflexivity.
Qed.

Lemma call_check_glass_table_run (t dir : string) (v : glass_version)
    (opts : Z) (doclens : loc) (ld : Z) (out : bool) (s : state W) :
  call_check_glass_table C t dir v opts doclens ld out s =
  let r := check_glass_table C t dir v opts doclens ld out
             (world s) (heap s) in
  (fst (fst r),
   mkState (snd (fst r)) (snd r)
     (trace s ++ [ECheckGlassTable t dir v opts doclens ld out])).
Proof.
  unfold call_check_glass_table, bind, log. simpl.
  destruct (check_glass_table C t dir v opts doclens ld out _ _)
    as [[r w'] h']. reflexivity.
Qed.

(** With no marker at [path], exactly one suffix is trimmed: a final
    "." (backend still unknown), else a final ".DB" (chert), else a final
    ".glass" (glass), else nothing.  A backend fixed by the suffix is kept
    without probing; otherwise [<base>.DB] is tried first and means chert
    whatever else exists, then [<base>.glass] means glass, and when neither
    exists [check] throws DatabaseError "Not a Xapian database or database
    table" without having called anything. *)
Lemma bare_resolution_steps (path : string) (opts : Z) (out : bool)
    (s : state W) :
  no_marker C path (world s) ->
  (forall base, path = base +:+ "." -> trim_suffix path = (base, UNKNOWN)) /\
  (forall base, path = base +:+ ".DB" -> trim_suffix path = (base, CHERT)) /\
  (forall base, path = base +:+ ".glass" -> trim_suffix path = (base, GLASS)) /\
  (endswith path "." = false -> endswith path ".DB" = false ->
   endswith path ".glass" = false -> trim_suffix path = (path, UNKNOWN)) /\
  let filename := fst (trim_suffix path) in
  let backend := snd (trim_suffix path) in
  let s0 := declared s (Vec 0 []) in
  (backend <> UNKNOWN ->
   probe_backend C filename backend s0 = (Ok backend, s0)) /\
  (backend = UNKNOWN ->
   stat C (filename +:+ ".DB") (world s) = true ->
   probe_backend C filename backend s0 = (Ok CHERT, s0)) /\
  (backend = UNKNOWN ->
   stat C (filename +:+ ".DB") (world s) = false ->
   stat C (filename +:+ ".glass") (world s) = true ->
   probe_backend C filename backend s0 = (Ok GLASS, s0)) /\
  (backend = UNKNOWN ->
   stat C (filename +:+ ".DB") (world s) = false ->
   stat C (filename +:+ ".glass") (world s) = false ->
   check P C path opts out s =
   (Throw (DatabaseError "Not a Xapian database or database table"), s0)).
Proof.
  intros Hno.
  split; [ intros base ->; apply trim_suffix_dot | ].
  split; [ intros base ->; apply trim_suffix_DB | ].
  split; [ intros base ->; apply trim_suffix_glass | ].
  split; [ apply trim_suffix_none | ].
  intros filename backend s0.
  repeat split.
  - intros Hb. rewrite probe_backend_run. destruct backend; congruence.
  - intros Hb Hdb. rewrite probe_backend_run, Hb. simpl. rewrite Hdb.
    reflexivity.
  - intros Hb Hdb Hglass. rewrite probe_backend_run, Hb. simpl.
    rewrite Hdb, Hglass. reflexivity.
  - intros Hb Hdb Hglass. rewrite check_single_run by exact Hno.
    cbv zeta. unfold bind at 1. fold filename backend s0.
    rewrite probe_backend_run, Hb. simpl. rewrite Hdb, Hglass. reflexivity.
Qed.


End SingleTable.



(** C6. The table [postlist.DB] of a flint database, named without a
    directory part from inside that directory: [iamflint] is there, next to
    the table, yet the marker looked for is [/iamflint], so no
    FeatureUnavailableError is thrown and the chert table checker is
    called.  Named as [./postlist.DB] the same table is rejected. *)
Theorem flint_table_without_directory_is_checked :
  Disk.exists_ "iamflint" Disk.inside_flint_dir = true /\
  Disk.exists_ "postlist.DB" Disk.inside_flint_dir = true /\
  dir_of (fst (trim_suffix "postlist.DB")) = "" /\
  Disk.run Disk.inside_flint_dir "postlist.DB" 0 false =
  (Ok 1,
   mkState Disk.inside_flint_dir [Vec 0 []]
     [ECheckChertTable "postlist" "postlist" None 0 0%nat 4294967295 false]) /\
  fst (Disk.run Disk.inside_flint_dir "./postlist.DB" 0 false) =
  Throw (FeatureUnavailableError
           "Flint database support was removed in Xapian 1.3.0").
Proof. repeat split. Qed.


(** * Further properties of the driver *)

(** ** reserve_doclens and the store *)

Section ReserveDoclensFrame.

Context {W : Type} (P : platform) (C : collaborators W).

(** What [reserve_doclens] does to the world and the store. *)
Lemma reserve_doclens_store (doclens : loc) (last_docid : Z) (out : bool)
    (s : state W) :
  let s' := snd (reserve_doclens P C doclens last_docid out s) in
  world s' = world s /\
  (heap s' = heap s \/
   exists cap elems,
     heap s !! doclens = Some (Vec cap elems) /\
     cap < docid_add last_docid 1 /\
     heap s' = <[doclens := Vec (docid_add last_docid 1) elems]> (heap s)).
Proof.
  cbv zeta. rewrite reserve_doclens_unfold. cbv zeta.
  destruct (last_docid >=? _).
  - rewrite print_run. simpl. auto.
  - unfold try_catch, vector_reserve, bind, log, entered. simpl.
    destruct (heap s !! doclens) as [[cap elems | r] |] eqn:Hcell;
      simpl; auto.
    destruct (vector_max_size P <? docid_add last_docid 1); simpl.
    { rewrite print_run. simpl. auto. }
    destruct (Z.leb_spec (docid_add last_docid 1) cap); simpl; auto.
    destruct (vector_allocate C (docid_add last_docid 1) (world s)); simpl.
    + split; [ reflexivity | ]. right. exists cap, elems. auto.
    + rewrite print_run. simpl. auto.
Qed.

(** X1. [reserve_doclens] leaves the world alone and, in the store, touches
    nothing but the capacity of the vector it is given: every other cell
    is as before, the store keeps its size, the vector keeps its elements
    and its capacity never shrinks. *)
Theorem reserve_doclens_frame (doclens : loc) (last_docid : Z) (out : bool)
    (s : state W) :
  let s' := snd (reserve_doclens P C doclens last_docid out s) in
  world s' = world s /\
  List.length (heap s') = List.length (heap s) /\
  (forall l : loc, l <> doclens -> heap s' !! l = heap s !! l) /\
  (forall cap elems,
     heap s !! doclens = Some (Vec cap elems) ->
     exists cap', heap s' !! doclens = Some (Vec cap' elems) /\ cap <= cap') /\
  (forall r, heap s !! doclens = Some (Rev r) -> heap s' = heap s).
Proof.
  intros s'.
  destruct (reserve_doclens_store doclens last_docid out s) as [Hw Hh].
  fold s' in Hw, Hh.
  split; [ exact Hw | ].
  destruct Hh as [Hh | (cap & elems & Hcell & Hlt & Hh)]; rewrite Hh.
  - repeat split; auto.
    intros cap elems Hc. exists cap. split; [ exact Hc | lia ].
  - split; [ apply length_insert | ].
    split; [ intros l Hl; apply list_lookup_insert_ne; congruence | ].
    split.
    + intros cap0 elems0 Hc. rewrite Hcell in Hc. injection Hc as <- <-.
      exists (docid_add last_docid 1).
      rewrite list_lookup_insert_eq
        by (eapply lookup_lt_Some; exact Hcell).
      split; [ reflexivity | lia ].
    + intros r Hr. rewrite Hcell in Hr. discriminate.
Qed.

End ReserveDoclensFrame.

(** The theorem on a store with the vector at location 0, holding the
    lengths of three documents, and a revision number at location 1. *)
Lemma reserve_doclens_frame_witness :
  let s := mkState Disk.chert_dir [Vec 3 [0; 4; 9]; Rev 7] [] in
  let s' := snd (reserve_doclens Disk.lp64 Disk.collab 0%nat 9 true s) in
  heap s' !! 1%nat = Some (Rev 7) /\
  exists cap', heap s' !! 0%nat = Some (Vec cap' [0; 4; 9]) /\ 3 <= cap'.
Proof.
  intros s s'.
  destruct (reserve_doclens_frame Disk.lp64 Disk.collab 0%nat 9 true s)
    as (_ & _ & Hother & Hvec & _).
  split.
  - unfold s'. rewrite (Hother 1%nat) by lia. reflexivity.
  - apply (Hvec 3 [0; 4; 9]). reflexivity.
Defined.

(** ** Options, sink and vector on every path *)

Ltac hands_down_tac :=
  repeat first
    [ progress cbv beta iota zeta
    | apply only_check_changes; intros ?
    | only_step ];
  simpl; auto.

Section HandedDown.

Context {W : Type} (P : platform) (C : collaborators W).

Lemma hands_down_chert (path : string) (opts : Z) (out : bool)
    (doclens : loc) (errors : Z) :
  emits (check_chert_db P C path opts out doclens errors)
    (Forall (handed_down out opts doclens)).
Proof.
  unfold check_chert_db, chert_open, check_chert_db_table, chert_fix_version,
    reserve_doclens, vector_reserve, call_ChertDatabase,
    call_check_chert_table, call_read_and_check, call_create.
  destruct out; unfold print; hands_down_tac.
Qed.

Lemma hands_down_glass (path : string) (opts : Z) (out : bool)
    (doclens : loc) (errors : Z) :
  emits (check_glass_db P C path opts out doclens errors)
    (Forall (handed_down out opts doclens)).
Proof.
  unfold check_glass_db, glass_open, check_glass_db_table,
    reserve_doclens, vector_reserve, call_Database, call_GlassVersion_read,
    call_check_glass_table.
  destruct out; unfold print; hands_down_tac.
Qed.

Lemma hands_down_single (path : string) (opts : Z) (out : bool)
    (doclens : loc) (errors : Z) :
  emits (check_single_table C path opts out doclens errors)
    (Forall (handed_down out opts doclens)).
Proof.
  unfold check_single_table, probe_backend, call_GlassVersion_read,
    call_check_glass_table, call_check_chert_table.
  destruct out; hands_down_tac.
Qed.

(** X2. On every path, whatever the collaborators do: [check] writes to the
    sink only when there is one; every per-table checker is handed the
    caller's sink, the vector [doclens] declared by this run and the
    options as masked at lines 89-93, which are the caller's options with a
    sink and only their DBCHECK_FIX bit without; [reserve_doclens] works on
    that same vector. *)
Theorem check_hands_down (path : string) (opts : Z) (out : bool) (s : state W) :
  exists evs,
    trace (snd (check P C path opts out s)) = trace s ++ evs /\
    Forall (handed_down out
              (if out then opts else Z.land opts (DBCHECK_FIX P))
              (List.length (heap s))) evs.
Proof.
  replace (if out then opts else Z.land opts (DBCHECK_FIX P))
    with (masked P opts out) by (destruct out; reflexivity).
  destruct (stat C (path +:+ "/iamchert") (world s)) eqn:Hchert.
  - rewrite check_chert_unfold by exact Hchert.
    apply (hands_down_chert path (masked P opts out) out _ 0
             (declared s (Vec 0 []))).
  - destruct (stat C (path +:+ "/iamglass") (world s)) eqn:Hglass.
    + rewrite check_glass_unfold by assumption.
      apply (hands_down_glass path (masked P opts out) out _ 0
               (declared s (Vec 0 []))).
    + rewrite check_single_unfold by assumption.
      apply (hands_down_single path (masked P opts out) out _ 0
               (declared s (Vec 0 []))).
Qed.

End HandedDown.

(** ** The chert pass when the database opens *)

Section ChertOpened.

Context {W : Type} (P : platform) (C : collaborators W).

Local Arguments for_each_table : simpl never.

(** After its entry event [reserve_doclens] calls no checker and does not
    enter itself again. *)
Lemma reserve_doclens_trace (doclens : loc) (last_docid : Z) (out : bool)
    (s : state W) :
  exists tail,
    trace (snd (reserve_doclens P C doclens last_docid out s)) =
      trace s ++ EReserveDoclens doclens last_docid :: tail /\
    Forall (fun e => is_table_check e = false /\
                     is_reserve_doclens e = false) tail.
Proof.
  rewrite reserve_doclens_unfold. cbv zeta.
  match goal with
  | |- context [if ?b then ?m1 _ else ?m2 _] =>
      assert (H1 : emits m1 (Forall (fun e => is_table_check e = false /\
                                              is_reserve_doclens e = false)))
        by (repeat only_step; auto);
      assert (H2 : emits m2 (Forall (fun e => is_table_check e = false /\
                                              is_reserve_doclens e = false)))
        by (unfold vector_reserve; repeat only_step; auto);
      destruct b;
      [ destruct (H1 (entered s (EReserveDoclens doclens last_docid)))
          as (tail & Ht & Hq)
      | destruct (H2 (entered s (EReserveDoclens doclens last_docid)))
          as (tail & Ht & Hq) ]
  end; exists tail; rewrite Ht; unfold entered; simpl;
    rewrite <- app_assoc; auto.
Qed.

(** X3. When the chert database opens, [reserve_doclens] is entered
    exactly once, with the database's [last_docid] and before any table
    check; then the revision number of the database is stored where
    [rev_ptr] points, and the table loop starts with no error, handing
    every checker the database's [last_docid].  The world is untouched up
    to that point and the vector is still empty. *)
Theorem chert_open_success (path : string) (opts : Z) (out : bool)
    (s : state W) (db : chert_db) :
  stat C (path +:+ "/iamchert") (world s) = true ->
  ChertDatabase_open C path (world s) = Ok db ->
  let doclens := List.length (heap s) in
  let s0 := snd (reserve_doclens P C doclens (get_lastdocid db) out
                   (mkState (world s) (heap s ++ [Vec 0 []; Rev 0])
                      (trace s ++ [EChertDatabase path]))) in
  let s1 := mkState (world s0)
              (<[S doclens := Rev (get_revision_number db)]> (heap s0))
              (trace s0) in
  check P C path opts out s =
    (let* errors :=
       for_each_table
         (check_chert_db_table C path (Some (S doclens)) (masked P opts out)
            doclens (get_lastdocid db) out)
         chert_tables 0 in
     chert_fix_version P C path (masked P opts out) errors 0 >> ret errors) s1 /\
  world s1 = world s /\
  heap s1 !! S doclens = Some (Rev (get_revision_number db)) /\
  (exists cap, heap s1 !! doclens = Some (Vec cap [])) /\
  exists tail,
    trace s1 = trace s ++ EChertDatabase path ::
               EReserveDoclens doclens (get_lastdocid db) :: tail /\
    Forall (fun e => is_table_check e = false /\
                     is_reserve_doclens e = false) tail.
Proof.
  intros Hchert Hopen doclens s0 s1.
  set (sA := mkState (world s) (heap s ++ [Vec 0 []; Rev 0])
               (trace s ++ [EChertDatabase path])) in *.
  assert (HlenA : List.length (heap sA) = S (S doclens))
    by (unfold sA; simpl; rewrite length_app; simpl; subst doclens; lia).
  assert (HcellA : heap sA !! doclens = Some (Vec 0 [])).
  { unfold sA. simpl. subst doclens.
    rewrite lookup_app_r by lia. rewrite Nat.sub_diag. reflexivity. }
  destruct (reserve_doclens_store P C doclens (get_lastdocid db) out sA)
    as [Hw Hh].
  fold s0 in Hw, Hh.
  assert (Hkept : List.length (heap s0) = List.length (heap sA) /\
                  exists cap, heap s0 !! doclens = Some (Vec cap [])).
  { destruct Hh as [-> | (cap & elems & Hcell & _ & ->)].
    - split; [ reflexivity | eauto ].
    - rewrite HcellA in Hcell. injection Hcell as <- <-.
      split; [ apply length_insert | ].
      eexists. apply list_lookup_insert_eq. lia. }
  destruct Hkept as [Hlen Hvec].
  split; [ | split; [ | split; [ | split ] ] ].
  - rewrite check_chert_run by exact Hchert.
    rewrite (chert_open_ok_run P C path out _ _ 0 db) by exact Hopen.
    reflexivity.
  - exact Hw.
  - unfold s1. simpl. apply list_lookup_insert_eq. lia.
  - destruct Hvec as (cap & Hc).
    exists cap. unfold s1. simpl.
    rewrite list_lookup_insert_ne by lia. exact Hc.
  - destruct (reserve_doclens_trace doclens (get_lastdocid db) out sA)
      as (tail & Ht & Hq).
    exists tail. split; [ | exact Hq ].
    unfold s1. cbn [trace]. unfold s0. rewrite Ht. unfold sA. cbn [trace].
    rewrite <- app_assoc. reflexivity.
Qed.

End ChertOpened.

(** The theorem on the healthy chert directory [db], whose last document
    is 2 and whose revision is 7. *)
Lemma chert_open_success_witness :
  heap (snd (Disk.run Disk.chert_dir "db" 0 false)) !! 1%nat = Some (Rev 7) /\
  fst (Disk.run Disk.chert_dir "db" 0 false) = Ok 0.
Proof.
  assert (H1 : stat Disk.collab ("db" +:+ "/iamchert")
                 (world (Disk.boot Disk.chert_dir)) = true) by reflexivity.
  assert (H2 : ChertDatabase_open Disk.collab "db"
                 (world (Disk.boot Disk.chert_dir)) =
               Ok {| get_lastdocid := 2; get_revision_number := 7 |})
    by reflexivity.
  destruct (chert_open_success Disk.lp64 Disk.collab "db" 0 false
              (Disk.boot Disk.chert_dir) _ H1 H2) as (Hrun & _).
  unfold Disk.run. rewrite Hrun. split; reflexivity.
Defined.

(** ** The error count of a database whose tables are sound *)

Section CleanTables.

Context {W : Type} (P : platform) (C : collaborators W).

Local Arguments for_each_table : simpl never.

Lemma size_t_add_zero (errors : Z) :
  0 <= errors < size_t_modulus -> size_t_add errors 0 = errors.
Proof.
  intros H. unfold size_t_add. rewrite Z.add_0_r. apply Z.mod_small. exact H.
Qed.

Lemma chert_loop_clean (path : string) (rev_ptr : option loc) (opts : Z)
    (doclens : loc) (ld : Z) (out : bool) (tables : list string) :
  chert_tables_clean C ->
  forall errors (s : state W),
    0 <= errors < size_t_modulus ->
    fst (for_each_table
           (check_chert_db_table C path rev_ptr opts doclens ld out)
           tables errors s) = Ok errors.
Proof.
  intros Hclean. induction tables as [| t rest IH]; intros errors s Hr.
  - reflexivity.
  - change (for_each_table ?b (t :: rest) errors s)
      with (bind (b t errors) (fun e' => for_each_table b rest e') s).
    unfold bind at 1.
    destruct (String.eqb t "record" || String.eqb t "postlist" ||
              file_exists C ((path +:+ "/" +:+ t) +:+ ".DB") (world s)) eqn:E.
    + rewrite check_chert_db_table_checked by exact E.
      unfold bind at 1. rewrite call_check_chert_table_run. cbv zeta.
      cbn [fst snd]. rewrite Hclean. unfold ret.
      rewrite size_t_add_zero by exact Hr. apply IH. exact Hr.
    + apply orb_false_iff in E. destruct E as [E E3].
      apply orb_false_iff in E. destruct E as [E1 E2].
      rewrite check_chert_db_table_skipped by assumption. apply IH. exact Hr.
Qed.

Lemma never_created_fix (path : string) (opts errors pre : Z) :
  (fix_requested P opts = true ->
   forall w, ChertVersion_read_and_check C path w = Ok tt) ->
  emits (chert_fix_version P C path opts errors pre)
    (Forall (fun e => e <> EChertVersionCreate path)).
Proof.
  intros Hvalid s. rewrite chert_fix_version_run.
  destruct ((errors =? pre) && fix_requested P opts) eqn:Hgate.
  - apply andb_true_iff in Hgate. destruct Hgate as [_ Hfix].
    rewrite (Hvalid Hfix). exists [EChertVersionReadAndCheck path].
    split; [ reflexivity | ]. repeat constructor. discriminate.
  - exists []. rewrite app_nil_r. split; [ reflexivity | constructor ].
Qed.

(** X4. On a chert directory whose table checkers find nothing wrong, and
    whose version file is valid if DBCHECK_FIX asks for it to be read,
    [check] returns 0 when the database opens and 1 when opening it throws
    a [Xapian::Error]; and it never recreates the version file. *)
Theorem clean_chert_database_count (path : string) (opts : Z) (out : bool)
    (s : state W) :
  stat C (path +:+ "/iamchert") (world s) = true ->
  chert_tables_clean C ->
  caught_if_thrown (ChertDatabase_open C path (world s)) ->
  (fix_requested P opts = true ->
   forall w, ChertVersion_read_and_check C path w = Ok tt) ->
  fst (check P C path opts out s) =
    Ok (chert_open_errors (ChertDatabase_open C path (world s))) /\
  exists evs,
    trace (snd (check P C path opts out s)) = trace s ++ evs /\
    ~ In (EChertVersionCreate path) evs.
Proof.
  intros Hchert Hclean Hcaught Hvalid.
  split.
  - rewrite check_chert_run by exact Hchert.
    assert (Hend : forall pre (s2 : state W),
               fst ((chert_fix_version P C path (masked P opts out) pre pre >>
                     ret pre) s2) = Ok pre).
    { intros pre s2. unfold bind. rewrite chert_fix_version_run.
      rewrite fix_requested_masked, Z.eqb_refl. simpl.
      destruct (fix_requested P opts) eqn:Hfix; [ | reflexivity ].
      rewrite (Hvalid eq_refl). reflexivity. }
    assert (Hrest : forall ld pre (s1 : state W),
               0 <= pre < size_t_modulus ->
               fst ((let* errors' :=
                       for_each_table
                         (check_chert_db_table C path
                            (Some (S (List.length (heap s))))
                            (masked P opts out) (List.length (heap s)) ld out)
                         chert_tables pre in
                     chert_fix_version P C path (masked P opts out) errors' pre
                     >> ret errors') s1) = Ok pre).
    { intros ld pre s1 Hr. unfold bind at 1.
      pose proof (chert_loop_clean path (Some (S (List.length (heap s))))
                    (masked P opts out) (List.length (heap s)) ld out
                    chert_tables Hclean pre s1 Hr) as Hloop.
      destruct (for_each_table _ chert_tables pre s1) as [r s2].
      simpl in Hloop. subst r. apply Hend. }
    destruct (ChertDatabase_open C path (world s)) as [db | e] eqn:Hopen.
    + rewrite (chert_open_ok_run P C path out _ _ 0 db) by exact Hopen.
      cbv zeta. cbn [fst snd chert_open_errors].
      apply Hrest. unfold size_t_modulus. lia.
    + simpl in Hcaught.
      rewrite (chert_open_failed_run P C path out _ _ 0 e) by assumption.
      cbn [fst snd chert_open_errors].
      apply Hrest. unfold size_t_modulus. lia.
  - rewrite check_chert_unfold by exact Hchert.
    assert (Hemits : emits (check_chert_db P C path (masked P opts out) out
                              (List.length (heap s)) 0)
                       (Forall (fun e => e <> EChertVersionCreate path))).
    { unfold check_chert_db.
      repeat first
        [ apply never_created_fix;
          rewrite fix_requested_masked; exact Hvalid
        | apply only_chert_open
        | apply only_chert_table_loop
        | only_step ]; intros; discriminate. }
    destruct (Hemits (declared s (Vec 0 []))) as (evs & Ht & Hq).
    exists evs. split; [ exact Ht | ].
    intros Hin. rewrite Forall_forall in Hq.
    apply (Hq (EChertVersionCreate path)); [ | reflexivity ].
    apply list_elem_of_In. exact Hin.
Qed.

End CleanTables.

(** The theorem on the healthy chert directory [db] with DBCHECK_FIX. *)
Lemma clean_chert_database_count_witness :
  fst (check Disk.lp64 (Disk.frozen Disk.chert_dir) "db" 16 true
         (mkState tt [] [])) = Ok 0.
Proof.
  apply (clean_chert_database_count Disk.lp64 (Disk.frozen Disk.chert_dir)
           "db" 16 true (mkState tt [] [])).
  - reflexivity.
  - intros t f rev_ptr opts doclens last_docid out w h. reflexivity.
  - exact I.
  - intros _ w. reflexivity.
Defined.

(** ** The tables of a glass directory *)

Section GlassTables.

Context {W : Type} (P : platform) (C : collaborators W).

Local Arguments for_each_table : simpl never.
Local Arguments check_changes : simpl never.

Lemma emits_with_bind {A B} (m : M W A) (k : A -> M W B)
    (Q1 : result A -> list event -> Prop)
    (Q2 Q : result B -> list event -> Prop) :
  emits_with m Q1 -> (forall a, emits_with (k a) Q2) ->
  (forall e e1, Q1 (Throw e) e1 -> Q (Throw e) e1) ->
  (forall a r e1 e2, Q1 (Ok a) e1 -> Q2 r e2 -> Q r (e1 ++ e2)) ->
  emits_with (bind m k) Q.
Proof.
  intros Hm Hk Hthrow Hseq s. unfold bind.
  destruct (Hm s) as (e1 & Ht1 & Hq1).
  destruct (m s) as [[a | e] s1]; simpl in *.
  - destruct (Hk a s1) as (e2 & Ht2 & Hq2).
    exists (e1 ++ e2). rewrite Ht2, Ht1, app_assoc. eauto.
  - exists e1. auto.
Qed.

Lemma calls_done_bind {A B} (m : M W A) (k : A -> M W B)
    (l1 l2 : list string) :
  emits_with m (calls_done l1) ->
  (forall a, emits_with (k a) (calls_done l2)) ->
  emits_with (bind m k) (calls_done (l1 ++ l2)).
Proof.
  intros Hm Hk. eapply emits_with_bind; eauto; unfold calls_done.
  - intros e e1 [Hp _]. split; [ | discriminate ].
    apply prefix_app_r. exact Hp.
  - intros a r e1 e2 [_ H1] [Hp2 H2]. rewrite called_tables_app.
    rewrite (H1 eq_refl). split.
    + apply prefix_app. exact Hp2.
    + intros Hr. rewrite (H2 Hr). reflexivity.
Qed.

Lemma calls_done_silent {A} (m : M W A) :
  emits m (Forall (fun e => is_table_check e = false)) ->
  emits_with m (calls_done []).
Proof.
  intros Hm s. destruct (Hm s) as (evs & Ht & Hq).
  exists evs. split; [ exact Ht | ].
  unfold calls_done. rewrite (called_tables_none evs Hq). auto.
Qed.

Lemma calls_done_glass_turn (path : string) (v : glass_version) (opts : Z)
    (doclens : loc) (ld : Z) (out : bool) (t : string) (errors : Z) :
  emits_with (check_glass_db_table C path v opts doclens ld out t errors)
    (calls_done [t]).
Proof.
  intros s. unfold check_glass_db_table, bind.
  rewrite call_check_glass_table_run. cbv zeta.
  exists [ECheckGlassTable t path v opts doclens ld out].
  destruct (check_glass_table C t path v opts doclens ld out _ _)
    as [[[n | e] w'] h']; simpl; (split; [ reflexivity | ]);
    unfold calls_done; simpl; auto.
Qed.

Lemma calls_done_glass_loop (path : string) (v : glass_version) (opts : Z)
    (doclens : loc) (ld : Z) (out : bool) (tables : list string) :
  forall errors,
    emits_with (for_each_table
                  (check_glass_db_table C path v opts doclens ld out)
                  tables errors) (calls_done tables).
Proof.
  induction tables as [| t rest IH]; intros errors.
  - intros s. exists []. simpl. rewrite app_nil_r.
    split; [ reflexivity | ]. unfold calls_done. simpl. auto.
  - change (t :: rest) with ([t] ++ rest).
    change (for_each_table ?b ([t] ++ rest) errors)
      with (bind (b t errors) (fun e' => for_each_table b rest e')).
    apply calls_done_bind; [ apply calls_done_glass_turn | ].
    intros a. apply IH.
Qed.

Lemma glass_loop_clean (path : string) (v : glass_version) (opts : Z)
    (doclens : loc) (ld : Z) (out : bool) (tables : list string) :
  glass_tables_clean C ->
  forall errors (s : state W),
    0 <= errors < size_t_modulus ->
    fst (for_each_table
           (check_glass_db_table C path v opts doclens ld out)
           tables errors s) = Ok errors.
Proof.
  intros Hclean. induction tables as [| t rest IH]; intros errors s Hr.
  - reflexivity.
  - change (for_each_table ?b (t :: rest) errors s)
      with (bind (b t errors) (fun e' => for_each_table b rest e') s).
    unfold bind at 1, check_glass_db_table at 1, bind at 1.
    rewrite call_check_glass_table_run. cbv zeta. cbn [fst snd].
    rewrite Hclean. unfold ret.
    rewrite size_t_add_zero by exact Hr. apply IH. exact Hr.
Qed.

(** The part of the glass pass after the version file has been read. *)
Lemma glass_after_read (path : string) (v : glass_version) (opts : Z)
    (out : bool) (doclens : loc) (errors : Z) :
  let rest :=
    check_changes C path (N.to_nat (get_revision v)) >>
    reserve_doclens P C doclens (get_last_docid v) out >>
    for_each_table
      (check_glass_db_table C path v opts doclens (get_last_docid v) out)
      glass_tables errors in
  emits_with rest (calls_done glass_tables) /\
  emits rest (Forall (glass_call_of path v)).
Proof.
  intros rest. subst rest. split.
  - change glass_tables with ([] ++ [] ++ glass_tables).
    apply calls_done_bind.
    { apply calls_done_silent. apply only_check_changes. reflexivity. }
    intros _. apply calls_done_bind.
    { apply calls_done_silent. apply only_reserve_doclens; reflexivity. }
    intros _. apply calls_done_glass_loop.
  - repeat first
      [ apply only_check_changes; intros ?
      | apply only_reserve_doclens
      | apply only_glass_tables
      | only_step ]; simpl; auto.
Qed.

Lemma called_tables_glass_open (path : string) (out : bool)
    (opened : result unit) :
  called_tables (glass_open_events C path out opened ++
                 [EGlassVersionRead path]) = [].
Proof. destruct opened, out; reflexivity. Qed.

Lemma glass_call_of_glass_open (path : string) (v : glass_version)
    (out : bool) (opened : result unit) :
  Forall (glass_call_of path v)
    (glass_open_events C path out opened ++ [EGlassVersionRead path]).
Proof. destruct opened, out; repeat constructor. Qed.

(** X5. On a glass directory the table checkers are called for docdata,
    termlist, postlist, position, spelling, synonym, in that order and
    with no file test of the driver's own: over any run those called are
    the first ones of that list, and all six when [check] returns a count.
    Each one is handed the directory itself, the version file as read and
    the [last_docid] of that version file, which is also what
    [reserve_doclens] gets; the chert checker is never called. *)
Theorem glass_tables_all_checked (path : string) (opts : Z) (out : bool)
    (s : state W) :
  stat C (path +:+ "/iamchert") (world s) = false ->
  stat C (path +:+ "/iamglass") (world s) = true ->
  exists evs,
    trace (snd (check P C path opts out s)) = trace s ++ evs /\
    called_tables evs `prefix_of`
      ["docdata"; "termlist"; "postlist"; "position"; "spelling"; "synonym"] /\
    (forall n, fst (check P C path opts out s) = Ok n ->
       called_tables evs =
       ["docdata"; "termlist"; "postlist"; "position"; "spelling"; "synonym"]) /\
    (forall v, GlassVersion_read C path (world s) = Ok v ->
       Forall (glass_call_of path v) evs) /\
    (forall e, GlassVersion_read C path (world s) = Throw e ->
       called_tables evs = []).
Proof.
  intros H1 H2.
  set (opened := Database_open C path (world s)).
  assert (Hcase : caught_if_thrown opened \/
                  exists e0, opened = Throw e0 /\ is_Xapian_Error e0 = false).
  { destruct opened as [[] | e0]; [ left; exact I | ].
    destruct (is_Xapian_Error e0) eqn:Hx; [ left; exact Hx | right; eauto ]. }
  destruct Hcase as [Hc | (e0 & Hopen & Hx)].
  - pose proof (check_glass_run P C path opts out s H1 H2 Hc) as Hrun.
    cbv zeta in Hrun. fold opened in Hrun. rewrite Hrun.
    destruct (GlassVersion_read C path (world s)) as [v | e] eqn:Hv.
    + match goal with
      | |- context [trace (snd (?m ?s1))] =>
          destruct (glass_after_read path v (masked P opts out) out
                      (List.length (heap s)) (glass_open_errors opened))
            as [Hd Hq];
          destruct (Hd s1) as (evs & Ht & Hp & Hall);
          destruct (Hq s1) as (evs' & Ht' & Hf)
      end.
      assert (evs' = evs) as ->
        by (rewrite Ht in Ht'; apply app_inv_head in Ht'; congruence).
      exists ((glass_open_events C path out opened ++ [EGlassVersionRead path])
              ++ evs).
      split; [ rewrite Ht; cbn [trace]; rewrite <- !app_assoc; reflexivity | ].
      rewrite called_tables_app, called_tables_glass_open. cbn [app].
      split; [ exact Hp | ].
      split; [ intros n Hn; apply Hall; rewrite Hn; reflexivity | ].
      split; [ | discriminate ].
      intros v' [= <-]. apply Forall_app. split; [ | exact Hf ].
      apply glass_call_of_glass_open.
    + exists (glass_open_events C path out opened ++ [EGlassVersionRead path]).
      cbn [fst snd trace]. rewrite called_tables_glass_open.
      split; [ reflexivity | ].
      split; [ apply prefix_nil | ].
      split; [ discriminate | ].
      split; [ discriminate | reflexivity ].
  - assert (Hfinal : check P C path opts out s =
                     (Throw e0, entered (declared s (Vec 0 [])) (EDatabase path))).
    { rewrite check_glass_unfold by assumption.
      unfold check_glass_db. unfold bind at 1. rewrite glass_open_run.
      cbn [world declared]. fold opened. rewrite Hopen, Hx. reflexivity. }
    rewrite Hfinal.
    exists [EDatabase path]. cbn [fst snd].
    split; [ reflexivity | ].
    split; [ apply prefix_nil | ].
    split; [ discriminate | ].
    split; [ intros; repeat constructor | reflexivity ].
Qed.

(** X6. On a glass directory whose version file can be read, whose changes
    files all pass their check and whose table checkers find nothing
    wrong, [check] returns 0 when the database opens and 1 when opening it
    throws a [Xapian::Error]. *)
Theorem clean_glass_database_count (path : string) (opts : Z) (out : bool)
    (s : state W) (v : glass_version) :
  stat C (path +:+ "/iamchert") (world s) = false ->
  stat C (path +:+ "/iamglass") (world s) = true ->
  caught_if_thrown (Database_open C path (world s)) ->
  GlassVersion_read C path (world s) = Ok v ->
  (forall f,
     In f (changes_on_disk C path (N.to_nat (get_revision v)) (world s)) ->
     GlassChanges_check C f (world s) = Ok tt) ->
  glass_tables_clean C ->
  fst (check P C path opts out s) =
    Ok (glass_open_errors (Database_open C path (world s))).
Proof.
  intros H1 H2 Hc Hv Hchanges Hclean.
  pose proof (check_glass_run P C path opts out s H1 H2 Hc) as Hrun.
  cbv zeta in Hrun. rewrite Hv in Hrun. rewrite Hrun.
  unfold bind at 1.
  rewrite check_changes_all by exact Hchanges.
  unfold bind at 1.
  match goal with
  | |- context [reserve_doclens P C ?d ?l ?o ?s1] =>
      pose proof (reserve_doclens_returns P C d l o s1) as Hret;
      destruct (reserve_doclens P C d l o s1) as [r s2]
  end.
  simpl in Hret. subst r.
  apply glass_loop_clean; [ exact Hclean | ].
  destruct (Database_open C path (world s)); simpl;
    unfold size_t_modulus; lia.
Qed.

End GlassTables.

(** The theorem on the glass directory [g]: all six tables are checked. *)
Lemma glass_tables_all_checked_witness :
  called_tables (trace (snd (Disk.run Disk.glass_dir "g" 0 false))) =
  ["docdata"; "termlist"; "postlist"; "position"; "spelling"; "synonym"].
Proof.
  destruct (glass_tables_all_checked Disk.lp64 Disk.collab "g" 0 false
              (Disk.boot Disk.glass_dir) eq_refl eq_refl)
    as (evs & Ht & _ & Hall & _).
  unfold Disk.run. rewrite Ht. apply (Hall 2). reflexivity.
Defined.

(** The theorem on a sound glass directory at revision 3. *)
Lemma clean_glass_database_count_witness :
  fst (check Disk.lp64 (Disk.frozen Scenario.glass_sound) "g" 0 true
         (mkState tt [] [])) = Ok 0.
Proof.
  apply (clean_glass_database_count Disk.lp64
           (Disk.frozen Scenario.glass_sound) "g" 0 true (mkState tt [] [])
           {| get_revision := 3; get_last_docid := 5 |}).
  - reflexivity.
  - reflexivity.
  - exact I.
  - reflexivity.
  - intros f Hf. reflexivity.
  - intros t dir v opts doclens last_docid out w h. reflexivity.
Defined.

(** ** Exceptions the open handlers do not catch *)

Section ForeignExceptions.

Context {W : Type} (P : platform) (C : collaborators W).

Lemma chert_open_foreign_run (path : string) (out : bool) (doclens rev : loc)
    (errors : Z) (e : exn) (s : state W) :
  ChertDatabase_open C path (world s) = Throw e ->
  is_Xapian_Error e = false ->
  chert_open P C path out doclens rev errors s =
  (Throw e, entered s (EChertDatabase path)).
Proof.
  intros Hopen Hx. unfold chert_open, try_catch, call_ChertDatabase.
  unfold bind at 3, log. simpl. unfold bind at 1. simpl. rewrite Hopen, Hx.
  reflexivity.
Qed.

(** X7. The handlers around the two open attempts catch [Xapian::Error]
    only.  When opening the chert database, or testing that the glass
    database opens, throws anything else, [check] ends with that exception
    at once: no error is counted, nothing is printed, no version file is
    read and no table is checked. *)
Theorem open_exception_not_caught (path : string) (opts : Z) (out : bool)
    (s : state W) (e : exn) :
  is_Xapian_Error e = false ->
  (stat C (path +:+ "/iamchert") (world s) = true ->
   ChertDatabase_open C path (world s) = Throw e ->
   check P C path opts out s =
   (Throw e,
    mkState (world s) (heap s ++ [Vec 0 []; Rev 0])
      (trace s ++ [EChertDatabase path]))) /\
  (stat C (path +:+ "/iamchert") (world s) = false ->
   stat C (path +:+ "/iamglass") (world s) = true ->
   Database_open C path (world s) = Throw e ->
   check P C path opts out s =
   (Throw e,
    mkState (world s) (heap s ++ [Vec 0 []]) (trace s ++ [EDatabase path]))).
Proof.
  intros Hx. split.
  - intros Hchert Hopen. rewrite check_chert_run by exact Hchert.
    rewrite (chert_open_foreign_run path out _ _ 0 e) by assumption.
    reflexivity.
  - intros H1 H2 Hopen. rewrite check_glass_unfold by assumption.
    unfold check_glass_db. unfold bind at 1. rewrite glass_open_run.
    cbn [world declared]. rewrite Hopen, Hx. reflexivity.
Qed.

End ForeignExceptions.

(** The theorem on directories where opening the database runs out of
    memory. *)
Lemma open_exception_not_caught_witness :
  Disk.run Scenario.chert_no_memory "db" 0 true =
    (Throw bad_alloc,
     mkState Scenario.chert_no_memory [Vec 0 []; Rev 0] [EChertDatabase "db"]) /\
  Disk.run Scenario.glass_no_memory "g" 0 true =
    (Throw bad_alloc,
     mkState Scenario.glass_no_memory [Vec 0 []] [EDatabase "g"]).
Proof.
  destruct (open_exception_not_caught Disk.lp64 Disk.collab "db" 0 true
              (Disk.boot Scenario.chert_no_memory) bad_alloc eq_refl)
    as [Hchert _].
  destruct (open_exception_not_caught Disk.lp64 Disk.collab "g" 0 true
              (Disk.boot Scenario.glass_no_memory) bad_alloc eq_refl)
    as [_ Hglass].
  split.
  - apply Hchert; reflexivity.
  - apply Hglass; reflexivity.
Defined.

(** ** Retired formats at the path itself *)

Section RetiredFormats.

Context {W : Type} (P : platform) (C : collaborators W).

(** X8. At a path that is neither a chert nor a glass directory, the
    markers of the retired formats are looked for in the order iamflint,
    iambrass, record_DB, and the first one found makes [check] throw
    FeatureUnavailableError with the message of that format, whatever the
    options and the sink are, before anything is printed or called. *)
Theorem retired_formats_in_order (path : string) (opts : Z) (out : bool)
    (s : state W) :
  stat C (path +:+ "/iamchert") (world s) = false ->
  stat C (path +:+ "/iamglass") (world s) = false ->
  let flint := stat C (path +:+ "/iamflint") (world s) in
  let brass := stat C (path +:+ "/iambrass") (world s) in
  let quartz := stat C (path +:+ "/record_DB") (world s) in
  flint || brass || quartz = true ->
  check P C path opts out s =
  (Throw (FeatureUnavailableError
            (if flint
             then "Flint database support was removed in Xapian 1.3.0"
             else if brass
             then "Brass database support was removed in Xapian 1.3.2"
             else "Quartz database support was removed in Xapian 1.1.0")),
   mkState (world s) (heap s ++ [Vec 0 []]) (trace s)).
Proof.
  intros H1 H2 flint brass quartz Hsome.
  destruct (retired_format_rejected P C path opts out s H1 H2)
    as (Hf & Hb & Hq).
  fold flint brass quartz in Hf, Hb, Hq.
  destruct flint; [ apply Hf; reflexivity | ].
  destruct brass; [ apply Hb; reflexivity | ].
  destruct quartz; [ apply Hq; reflexivity | discriminate ].
Qed.

End RetiredFormats.

(** The theorem on a directory that carries all three markers: flint is
    the format reported. *)
Lemma retired_formats_in_order_witness :
  fst (Disk.run Scenario.retired_dir "old" 16 false) =
  Throw (FeatureUnavailableError
           "Flint database support was removed in Xapian 1.3.0").
Proof.
  unfold Disk.run.
  rewrite (retired_formats_in_order Disk.lp64 Disk.collab "old" 16 false
             (Disk.boot Scenario.retired_dir) eq_refl eq_refl eq_refl).
  reflexivity.
Defined.

(** ** Directory and table name of a single table *)

Section PathSplit.

Lemma substring_zero_zero (s : string) : substring 0 0 s = "".
Proof. destruct s; reflexivity. Qed.

Lemma string_map_length (f : ascii -> ascii) (s : string) :
  String.length (string_map f s) = String.length s.
Proof. induction s as [| a s IH]; simpl; [ | rewrite IH ]; reflexivity. Qed.

Lemma tolower_slash (a : ascii) :
  Ascii.eqb (tolower a) "/" = Ascii.eqb a "/".
Proof. destruct a as [[] [] [] [] [] [] [] []]; reflexivity. Qed.

Lemma find_last_of_tolower (s : string) :
  find_last_of (string_map tolower s) "/" = find_last_of s "/".
Proof.
  induction s as [| a s IH]; simpl; [ reflexivity | ].
  rewrite IH, tolower_slash. reflexivity.
Qed.

(** The split at the last slash, by cases on where it is. *)
Lemma split_at_last_slash (s : string) :
  match find_last_of s "/" with
  | None => dir_of s = "" /\ basename_of s = s
  | Some p =>
      exists d, dir_of s = d +:+ "/" /\ String.length d = p /\
                s = (d +:+ "/") +:+ basename_of s /\
                find_last_of (basename_of s) "/" = None
  end.
Proof.
  unfold dir_of, basename_of, after_last_slash.
  induction s as [| a s IH]; simpl.
  - auto.
  - destruct (find_last_of s "/") as [p |] eqn:Hp.
    + destruct IH as (d & Hd & Hlen & Hs & Hb).
      exists (String a d). simpl. rewrite Hd.
      split; [ reflexivity | ]. split; [ rewrite Hlen; reflexivity | ].
      split; [ rewrite Hs at 1; reflexivity | exact Hb ].
    + destruct IH as [_ Hb]. rewrite Nat.sub_0_r in Hb.
      destruct (Ascii.eqb_spec a "/") as [-> | Hne].
      * exists "". simpl. rewrite substring_zero_zero, Nat.sub_0_r.
        rewrite Hb. repeat split. exact Hp.
      * simpl. rewrite Hb. auto.
Qed.

(** X9. The file name of a single table is split at its last '/': the
    directory is everything up to and including that slash and it is empty
    when there is none; directory and base name together give the file
    name back; the table name is the base name in lower case, has its
    length and contains no '/'. *)
Theorem single_table_path_split (filename : string) :
  dir_of filename +:+ basename_of filename = filename /\
  tablename_of filename = string_map tolower (basename_of filename) /\
  String.length (tablename_of filename) = String.length (basename_of filename) /\
  find_last_of (tablename_of filename) "/" = None /\
  (find_last_of filename "/" = None ->
   dir_of filename = "" /\
   tablename_of filename = string_map tolower filename) /\
  (forall p, find_last_of filename "/" = Some p ->
     exists d, dir_of filename = d +:+ "/" /\ String.length d = p).
Proof.
  assert (Htab : tablename_of filename =
                 string_map tolower (basename_of filename)) by reflexivity.
  pose proof (split_at_last_slash filename) as Hsplit.
  rewrite Htab, find_last_of_tolower, string_map_length.
  destruct (find_last_of filename "/") as [p |] eqn:Hp.
  - destruct Hsplit as (d & Hd & Hlen & Hs & Hb).
    rewrite Hd. repeat split; auto; try discriminate.
    intros p' [= <-]. eauto.
  - destruct Hsplit as [Hd Hb]. rewrite Hd, Hb.
    repeat split; auto. discriminate.
Qed.

End PathSplit.

(** The theorem on the file name [Db/Sub/PostList]. *)
Lemma single_table_path_split_witness :
  dir_of "Db/Sub/PostList" = "Db/Sub/" /\
  tablename_of "Db/Sub/PostList" = "postlist" /\
  exists d, dir_of "Db/Sub/PostList" = d +:+ "/" /\ String.length d = 6%nat.
Proof.
  destruct (single_table_path_split "Db/Sub/PostList")
    as (_ & _ & _ & _ & _ & Hdir).
  split; [ reflexivity | ]. split; [ reflexivity | ].
  apply Hdir. reflexivity.
Defined.

(** ** Names of the changes files *)

Section ChangesNames.

Context {W : Type} (C : collaborators W).

Local Arguments check_changes : simpl never.

Lemma to_uint_nonnil (r : N) : N.to_uint r <> Decimal.Nil.
Proof.
  destruct r as [| p]; simpl; [ discriminate | ].
  apply DecimalPos.Unsigned.to_uint_nonnil.
Qed.

Lemma str_round_trip (r : N) :
  option_map N.of_uint (NilZero.uint_of_string (str r)) = Some r.
Proof.
  unfold str. rewrite NilZero.usu by apply to_uint_nonnil. simpl.
  rewrite DecimalN.Unsigned.of_to. reflexivity.
Qed.

Lemma str_injective (a b : N) : str a = str b -> a = b.
Proof.
  intros H. pose proof (str_round_trip a) as Ha.
  rewrite H, str_round_trip in Ha. congruence.
Qed.

Lemma changes_file_name_injective (path : string) (a b : nat) :
  changes_file_name path a = changes_file_name path b -> a = b.
Proof.
  unfold changes_file_name. intros H.
  apply String.app_inj in H. apply String.app_inj in H.
  apply str_injective in H. apply Nat2N.inj. exact H.
Qed.

Lemma NoDup_map_injective {A B} (f : A -> B) (l : list A) :
  (forall x y, f x = f y -> x = y) ->
  List.NoDup l -> List.NoDup (map f l).
Proof.
  intros Hinj. induction 1 as [| x l Hx Hl IH]; simpl; constructor.
  - rewrite in_map_iff. intros (y & Hy & Hin).
    apply Hinj in Hy. subst y. contradiction.
  - exact IH.
Qed.

Lemma changes_on_disk_NoDup (path : string) (n : nat) (w : W) :
  List.NoDup (changes_on_disk C path n w).
Proof.
  unfold changes_on_disk, revisions_down_from.
  apply List.NoDup_filter. apply NoDup_map_injective.
  - apply changes_file_name_injective.
  - apply List.NoDup_rev. apply List.seq_NoDup.
Qed.

(** X10. The decimal rendering of a revision number reads back as that
    number, so distinct revisions have distinct changes files; the changes
    pass therefore hands no file to [GlassChanges::check] twice, it hands
    it only files that exist, and it leaves the world and the store as
    they were. *)
Theorem changes_files_checked_once (path : string) (n : nat) (s : state W) :
  (forall r, option_map N.of_uint (NilZero.uint_of_string (str r)) = Some r) /\
  (forall a b,
     path +:+ "/changes" +:+ str (N.of_nat a) =
     path +:+ "/changes" +:+ str (N.of_nat b) -> a = b) /\
  exists checked,
    snd (check_changes C path n s) =
      mkState (world s) (heap s) (trace s ++ map EGlassChangesCheck checked) /\
    List.NoDup checked /\
    (forall f, In f checked -> file_exists C f (world s) = true).
Proof.
  split; [ apply str_round_trip | ].
  split; [ apply changes_file_name_injective | ].
  destruct (check_changes_run C path n s) as (checked & Hp & Hs & _).
  exists checked. split; [ exact Hs | ].
  destruct Hp as [k Hk].
  pose proof (changes_on_disk_NoDup path n (world s)) as Hnd.
  split.
  - rewrite Hk in Hnd. apply List.NoDup_app_remove_r in Hnd. exact Hnd.
  - intros f Hf.
    assert (Hin : In f (changes_on_disk C path n (world s)))
      by (rewrite Hk; apply in_or_app; left; exact Hf).
    unfold changes_on_disk in Hin. apply filter_In in Hin. apply Hin.
Qed.

End ChangesNames.

(** ** What a run leaves alone *)

Section LeftAlone.

Context {W : Type} (P : platform) (C : collaborators W).

Local Arguments for_each_table : simpl never.

Lemma no_repair_without_fix (path : string) (opts errors pre : Z) :
  fix_requested P opts = false ->
  emits (chert_fix_version P C path opts errors pre)
    (Forall (fun e => is_version_repair e = false)).
Proof.
  intros Hfix s. rewrite chert_fix_version_run, Hfix, andb_false_r.
  exists []. rewrite app_nil_r. split; [ reflexivity | constructor ].
Qed.

(** X11. The chert version file is read, and possibly recreated, only in
    the whole-database check of a chert directory with DBCHECK_FIX set:
    without that option, and on every path that is not a chert directory
    (a glass directory, a single table of either backend, a retired
    format, nothing at all), no run of [check] reads or rewrites it. *)
Theorem version_file_left_alone (path : string) (opts : Z) (out : bool)
    (s : state W) :
  stat C (path +:+ "/iamchert") (world s) = false \/
  fix_requested P opts = false ->
  exists evs,
    trace (snd (check P C path opts out s)) = trace s ++ evs /\
    Forall (fun e => is_version_repair e = false) evs.
Proof.
  intros Hcase.
  destruct (stat C (path +:+ "/iamchert") (world s)) eqn:Hchert.
  - destruct Hcase as [Hc | Hfix]; [ discriminate | ].
    rewrite check_chert_unfold by exact Hchert.
    assert (Hemits : emits (check_chert_db P C path (masked P opts out) out
                              (List.length (heap s)) 0)
                       (Forall (fun e => is_version_repair e = false))).
    { unfold check_chert_db.
      repeat first
        [ apply no_repair_without_fix; rewrite fix_requested_masked; exact Hfix
        | apply only_chert_open
        | apply only_chert_table_loop
        | only_step ]; reflexivity. }
    apply (Hemits (declared s (Vec 0 []))).
  - destruct (stat C (path +:+ "/iamglass") (world s)) eqn:Hglass.
    + rewrite check_glass_unfold by assumption.
      assert (Hemits : emits (check_glass_db P C path (masked P opts out) out
                                (List.length (heap s)) 0)
                         (Forall (fun e => is_version_repair e = false))).
      { unfold check_glass_db, glass_open, call_Database,
          call_GlassVersion_read.
        repeat first
          [ apply only_check_changes; intros ?
          | apply only_reserve_doclens
          | apply only_glass_tables
          | only_step ]; reflexivity. }
      apply (Hemits (declared s (Vec 0 []))).
    + rewrite check_single_unfold by assumption.
      assert (Hemits : emits (check_single_table C path (masked P opts out) out
                                (List.length (heap s)) 0)
                         (Forall (fun e => is_version_repair e = false))).
      { unfold check_single_table, probe_backend, call_GlassVersion_read,
          call_check_glass_table, call_check_chert_table.
        repeat only_step; reflexivity. }
      apply (Hemits (declared s (Vec 0 []))).
Qed.

End LeftAlone.

(** The theorem on the chert directory whose version file is unreadable,
    checked without DBCHECK_FIX: the version file is not looked at. *)
Lemma version_file_left_alone_witness :
  existsb is_version_repair
    (trace (snd (Disk.run Disk.chert_dir_broken "db" 0 true))) = false.
Proof.
  destruct (version_file_left_alone Disk.lp64 Disk.collab "db" 0 true
              (Disk.boot Disk.chert_dir_broken) (or_intror eq_refl))
    as (evs & Ht & Hq).
  unfold Disk.run. rewrite Ht. simpl.
  clear Ht. induction Hq as [| e evs He _ IH]; simpl;
    [ reflexivity | rewrite He; exact IH ].
Defined.

(** ** Everything a single table check can do *)

Section SingleTableEvents.

Context {W : Type} (P : platform) (C : collaborators W).

(** The dispatch on the resolved backend, lines 268-299. *)
Lemma single_dispatch_events (filename : string) (opts : Z) (out : bool)
    (doclens : loc) (backend : backend_t) (s0 : state W) :
  backend <> UNKNOWN ->
  let run :=
    match backend with
    | GLASS =>
        let* version_file := call_GlassVersion_read C (dir_of filename) in
        call_check_glass_table C (tablename_of filename) (dir_of filename)
          version_file opts doclens docid_minus_one out
    | CHERT =>
        let* flint := query (stat C (dir_of filename +:+ "/iamflint")) in
        if flint then throw (FeatureUnavailableError msg_flint) else
        let* brass := query (stat C (dir_of filename +:+ "/iambrass")) in
        if brass then throw (FeatureUnavailableError msg_brass) else
        call_check_chert_table C (tablename_of filename) filename None
          opts doclens docid_minus_one out
    | UNKNOWN => ret 0
    end s0 in
  exists evs,
    trace (snd run) = trace s0 ++ evs /\
    single_table_events opts doclens out evs /\
    (forall n, fst run = Ok n -> exists t, called_tables evs = [t]) /\
    (called_tables evs = [] ->
     world (snd run) = world s0 /\ heap (snd run) = heap s0).
Proof.
  intros Hb run. unfold single_table_events.
  destruct backend; [ congruence | | ].
  - assert (Hrun : run =
              if stat C (dir_of filename +:+ "/iamflint") (world s0)
              then (Throw (FeatureUnavailableError msg_flint), s0)
              else if stat C (dir_of filename +:+ "/iambrass") (world s0)
              then (Throw (FeatureUnavailableError msg_brass), s0)
              else call_check_chert_table C (tablename_of filename) filename
                     None opts doclens docid_minus_one out s0).
    { subst run. unfold bind at 1, query at 1. cbn [fst snd].
      destruct (stat C (dir_of filename +:+ "/iamflint") (world s0));
        [ reflexivity | ].
      unfold bind at 1, query at 1. cbn [fst snd].
      destruct (stat C (dir_of filename +:+ "/iambrass") (world s0));
        reflexivity. }
    clearbody run. subst run.
    destruct (stat C (dir_of filename +:+ "/iamflint") (world s0)).
    { exists []. rewrite app_nil_r. simpl.
      repeat split; auto; discriminate. }
    destruct (stat C (dir_of filename +:+ "/iambrass") (world s0)).
    { exists []. rewrite app_nil_r. simpl.
      repeat split; auto; discriminate. }
    rewrite call_check_chert_table_run. cbv zeta. cbn [fst snd trace].
    eexists. split; [ reflexivity | ].
    split; [ eauto 10 | ].
    split; [ simpl; eauto | simpl; discriminate ].
  - assert (Hrun : run =
              match GlassVersion_read C (dir_of filename) (world s0) with
              | Ok v =>
                  call_check_glass_table C (tablename_of filename)
                    (dir_of filename) v opts doclens docid_minus_one out
                    (entered s0 (EGlassVersionRead (dir_of filename)))
              | Throw e =>
                  (Throw e, entered s0 (EGlassVersionRead (dir_of filename)))
              end).
    { subst run. unfold bind at 1. rewrite call_GlassVersion_read_run.
      destruct (GlassVersion_read C (dir_of filename) (world s0));
        reflexivity. }
    clearbody run. subst run.
    destruct (GlassVersion_read C (dir_of filename) (world s0)) as [v | e].
    + rewrite call_check_glass_table_run. cbv zeta.
      cbn [fst snd trace entered].
      eexists. split; [ rewrite <- app_assoc; reflexivity | ].
      split; [ eauto 10 | ].
      split; [ simpl; eauto | simpl; discriminate ].
    + cbn [fst snd trace entered].
      eexists. split; [ reflexivity | ].
      split; [ eauto 10 | ].
      split; [ discriminate | simpl; auto ].
Qed.

(** X12. A run on a path that is neither a chert nor a glass directory
    prints nothing, opens no database, reserves nothing and checks no
    changes file: all it may do is read the version file of the table's
    directory (glass) and call one per-table checker, with [last_docid]
    2^32 - 1.  When it returns a count it has called exactly one checker;
    when it has called none, the world and the vector are untouched. *)
Theorem single_table_does_little (path : string) (opts : Z) (out : bool)
    (s : state W) :
  stat C (path +:+ "/iamchert") (world s) = false ->
  stat C (path +:+ "/iamglass") (world s) = false ->
  let final := check P C path opts out s in
  exists evs,
    trace (snd final) = trace s ++ evs /\
    single_table_events (masked P opts out) (List.length (heap s)) out evs /\
    (forall n, fst final = Ok n -> exists t, called_tables evs = [t]) /\
    (called_tables evs = [] ->
     world (snd final) = world s /\ heap (snd final) = heap s ++ [Vec 0 []]).
Proof.
  intros H1 H2 final.
  assert (Hnothing : forall e,
             final = (Throw e, declared s (Vec 0 [])) ->
             exists evs,
               trace (snd final) = trace s ++ evs /\
               single_table_events (masked P opts out) (List.length (heap s))
                 out evs /\
               (forall n, fst final = Ok n ->
                  exists t, called_tables evs = [t]) /\
               (called_tables evs = [] ->
                world (snd final) = world s /\
                heap (snd final) = heap s ++ [Vec 0 []])).
  { intros e ->. exists []. simpl. rewrite app_nil_r.
    unfold single_table_events. repeat split; auto. discriminate. }
  destruct (retired_format_rejected P C path opts out s H1 H2)
    as (Hf & Hb & Hq). cbv zeta in Hf, Hb, Hq.
  destruct (stat C (path +:+ "/iamflint") (world s)) eqn:Hflint;
    [ eapply Hnothing; apply Hf; reflexivity | ].
  destruct (stat C (path +:+ "/iambrass") (world s)) eqn:Hbrass;
    [ eapply Hnothing; apply Hb; reflexivity | ].
  destruct (stat C (path +:+ "/record_DB") (world s)) eqn:Hquartz;
    [ eapply Hnothing; apply Hq; reflexivity | ].
  clear Hf Hb Hq.
  assert (Hno : no_marker C path (world s)) by (repeat split; assumption).
  pose proof (check_single_run P C path opts out s Hno) as Hrun.
  cbv zeta in Hrun. unfold bind at 1 in Hrun.
  rewrite probe_backend_run in Hrun. cbn [world declared] in Hrun.
  assert (Hdispatch : forall backend,
             backend <> UNKNOWN ->
             final =
             match backend with
             | GLASS =>
                 let* version_file :=
                   call_GlassVersion_read C
                     (dir_of (fst (trim_suffix path))) in
                 call_check_glass_table C
                   (tablename_of (fst (trim_suffix path)))
                   (dir_of (fst (trim_suffix path))) version_file
                   (masked P opts out) (List.length (heap s))
                   docid_minus_one out
             | CHERT =>
                 let* flint :=
                   query (stat C (dir_of (fst (trim_suffix path)) +:+
                                  "/iamflint")) in
                 if flint then throw (FeatureUnavailableError msg_flint) else
                 let* brass :=
                   query (stat C (dir_of (fst (trim_suffix path)) +:+
                                  "/iambrass")) in
                 if brass then throw (FeatureUnavailableError msg_brass) else
                 call_check_chert_table C
                   (tablename_of (fst (trim_suffix path)))
                   (fst (trim_suffix path)) None (masked P opts out)
                   (List.length (heap s)) docid_minus_one out
             | UNKNOWN => ret 0
             end (declared s (Vec 0 [])) ->
             exists evs,
               trace (snd final) = trace s ++ evs /\
               single_table_events (masked P opts out) (List.length (heap s))
                 out evs /\
               (forall n, fst final = Ok n ->
                  exists t, called_tables evs = [t]) /\
               (called_tables evs = [] ->
                world (snd final) = world s /\
                heap (snd final) = heap s ++ [Vec 0 []])).
  { intros backend Hb ->.
    apply (single_dispatch_events (fst (trim_suffix path)) (masked P opts out)
             out (List.length (heap s)) backend (declared s (Vec 0 [])) Hb). }
  fold final in Hrun.
  destruct (snd (trim_suffix path)).
  - destruct (stat C (fst (trim_suffix path) +:+ ".DB") (world s)).
    { apply (Hdispatch CHERT); [ discriminate | exact Hrun ]. }
    destruct (stat C (fst (trim_suffix path) +:+ ".glass") (world s)).
    { apply (Hdispatch GLASS); [ discriminate | exact Hrun ]. }
    eapply Hnothing. exact Hrun.
  - apply (Hdispatch CHERT); [ discriminate | exact Hrun ].
  - apply (Hdispatch GLASS); [ discriminate | exact Hrun ].
Qed.

End SingleTableEvents.

(** The theorem on the table [g/PostList.glass] of the glass directory. *)
Lemma single_table_does_little_witness :
  exists t,
    called_tables (trace (snd (Disk.run Disk.glass_dir "g/PostList.glass" 0 false)))
    = [t].
Proof.
  destruct (single_table_does_little Disk.lp64 Disk.collab "g/PostList.glass"
              0 false (Disk.boot Disk.glass_dir) eq_refl eq_refl)
    as (evs & Ht & _ & Hone & _).
  unfold Disk.run. rewrite Ht. apply (Hone 2). reflexivity.
Defined.

(** ** The tables a returning chert run has checked *)

Section ChertCovered.

Context {W : Type} (P : platform) (C : collaborators W).

Local Arguments for_each_table : simpl never.

Lemma calls_cover_bind {A B} (m : M W A) (k : A -> M W B)
    (l1 l2 : list string) :
  emits_with m (calls_cover l1) ->
  (forall a, emits_with (k a) (calls_cover l2)) ->
  emits_with (bind m k) (calls_cover (l1 ++ l2)).
Proof.
  intros Hm Hk. eapply emits_with_bind; eauto; unfold calls_cover.
  - intros e e1 _. discriminate.
  - intros a r e1 e2 H1 H2 Hr t Ht. rewrite called_tables_app.
    apply in_or_app. apply in_app_or in Ht. destruct Ht as [Ht | Ht].
    + left. apply (H1 eq_refl). exact Ht.
    + right. apply (H2 Hr). exact Ht.
Qed.

Lemma calls_cover_nothing {A} (m : M W A) (Q : list event -> Prop) :
  emits m Q -> emits_with m (calls_cover []).
Proof.
  intros Hm s. destruct (Hm s) as (evs & Ht & _).
  exists evs. split; [ exact Ht | ]. intros _ t [].
Qed.

Lemma calls_cover_chert_turn (path : string) (rev_ptr : option loc)
    (opts : Z) (doclens : loc) (ld : Z) (out : bool) (t : string) (errors : Z) :
  always_checked C path t ->
  emits_with (check_chert_db_table C path rev_ptr opts doclens ld out t errors)
    (calls_cover [t]).
Proof.
  intros Halways s.
  rewrite check_chert_db_table_checked.
  2: { destruct Halways as [-> | [-> | Hall]];
         [ reflexivity | reflexivity | ].
       rewrite Hall. apply orb_true_r. }
  unfold bind. rewrite call_check_chert_table_run. cbv zeta.
  exists (emitted out (t +:+ ":" +:+ nl) ++
          [ECheckChertTable t (path +:+ "/" +:+ t) rev_ptr opts doclens ld out]).
  match goal with
  | |- context [check_chert_table C ?a1 ?a2 ?a3 ?a4 ?a5 ?a6 ?a7 ?a8 ?a9] =>
      destruct (check_chert_table C a1 a2 a3 a4 a5 a6 a7 a8 a9)
        as [[[n | e] w'] h']
  end; cbn [fst snd trace ret];
    (split; [ rewrite <- app_assoc; reflexivity | ]);
    intros _ t' [<- | []];
    rewrite called_tables_app, called_tables_emitted; simpl; auto.
Qed.

Lemma calls_cover_chert_loop (path : string) (rev_ptr : option loc)
    (opts : Z) (doclens : loc) (ld : Z) (out : bool) (t : string)
    (tables : list string) :
  always_checked C path t ->
  forall errors,
    emits_with (for_each_table
                  (check_chert_db_table C path rev_ptr opts doclens ld out)
                  tables errors)
      (calls_cover (List.filter (String.eqb t) tables)).
Proof.
  intros Halways. induction tables as [| t' rest IH]; intros errors.
  - apply (calls_cover_nothing _ (fun _ => True)). apply emits_ret. exact I.
  - change (for_each_table ?b (t' :: rest) errors)
      with (bind (b t' errors) (fun e' => for_each_table b rest e')).
    simpl. destruct (String.eqb_spec t t') as [<- | Hne].
    + change (t :: List.filter (String.eqb t) rest)
        with ([t] ++ List.filter (String.eqb t) rest).
      apply calls_cover_bind; [ apply calls_cover_chert_turn; exact Halways | ].
      intros a. apply IH.
    + change (List.filter (String.eqb t) rest)
        with ([] ++ List.filter (String.eqb t) rest).
      apply calls_cover_bind; [ | intros a; apply IH ].
      apply (calls_cover_nothing _ (Forall (fun _ => True))).
      apply only_check_chert_db_table; auto.
Qed.

(** X13. When the check of a chert directory returns a count, it has
    called the checkers of record and postlist, and of every table among
    termlist, position, spelling and synonym whose .DB file exists
    whatever the checkers do to the world: no table that is there is
    passed over. *)
Theorem chert_returning_run_covers (path : string) (opts : Z) (out : bool)
    (s : state W) (n : Z) :
  stat C (path +:+ "/iamchert") (world s) = true ->
  fst (check P C path opts out s) = Ok n ->
  exists evs,
    trace (snd (check P C path opts out s)) = trace s ++ evs /\
    In "record" (called_tables evs) /\
    In "postlist" (called_tables evs) /\
    (forall t,
       In t ["termlist"; "position"; "spelling"; "synonym"] ->
       (forall w, file_exists C ((path +:+ "/" +:+ t) +:+ ".DB") w = true) ->
       In t (called_tables evs)).
Proof.
  intros Hchert Hok.
  assert (Hcover : forall t,
             always_checked C path t ->
             emits_with (check_chert_db P C path (masked P opts out) out
                           (List.length (heap s)) 0)
               (calls_cover ([] ++ [] ++
                             List.filter (String.eqb t) chert_tables ++ []))).
  { intros t Ht. unfold check_chert_db.
    apply calls_cover_bind.
    { apply (calls_cover_nothing _ (Forall (fun _ => True))).
      only_step. }
    intros rev. apply calls_cover_bind.
    { apply (calls_cover_nothing _ (Forall (fun _ => True))).
      apply only_chert_open; auto. }
    intros opened. apply calls_cover_bind.
    { apply calls_cover_chert_loop. exact Ht. }
    intros errors. apply (calls_cover_nothing _ (Forall (fun _ => True))).
    repeat first [ apply only_chert_fix_version | only_step ]; auto. }
  rewrite check_chert_unfold in Hok |- * by exact Hchert.
  assert (Hin : forall t,
             In t chert_tables -> always_checked C path t ->
             forall evs,
               trace (snd (check_chert_db P C path (masked P opts out) out
                             (List.length (heap s)) 0 (declared s (Vec 0 []))))
               = trace s ++ evs ->
               In t (called_tables evs)).
  { intros t Htab Ht evs Hevs.
    destruct (Hcover t Ht (declared s (Vec 0 []))) as (evs' & Ht' & Hc).
    assert (evs' = evs) as ->
      by (rewrite Hevs in Ht'; apply app_inv_head in Ht'; congruence).
    apply Hc; [ rewrite Hok; reflexivity | ].
    cbn [app]. rewrite app_nil_r. apply filter_In.
    split; [ exact Htab | apply String.eqb_refl ]. }
  destruct (Hcover "record" (or_introl eq_refl) (declared s (Vec 0 [])))
    as (evs & Hevs & _).
  exists evs. split; [ exact Hevs | ].
  split; [ apply Hin; [ simpl; auto | left; reflexivity | exact Hevs ] | ].
  split; [ apply Hin; [ simpl; auto | right; left; reflexivity | exact Hevs ] | ].
  intros t Ht Hall. apply Hin; [ | right; right; exact Hall | exact Hevs ].
  simpl in Ht. simpl. intuition.
Qed.

End ChertCovered.

(** The theorem on the healthy chert directory [db]. *)
Lemma chert_returning_run_covers_witness :
  In "postlist"
    (called_tables
       (trace (snd (check Disk.lp64 (Disk.frozen Disk.chert_dir) "db" 0 false
                      (mkState tt [] [])))))
  /\
  In "termlist"
    (called_tables
       (trace (snd (check Disk.lp64 (Disk.frozen Disk.chert_dir) "db" 0 false
                      (mkState tt [] []))))).
Proof.
  destruct (chert_returning_run_covers Disk.lp64 (Disk.frozen Disk.chert_dir)
              "db" 0 false (mkState tt [] []) 0 eq_refl eq_refl)
    as (evs & Ht & _ & Hpost & Hlazy).
  rewrite Ht. simpl. split; [ exact Hpost | ].
  apply (Hlazy "termlist"); [ simpl; auto | ].
  intros []. reflexivity.
Defined.

(** ** What the chert table checkers are handed *)

Section ChertArguments.

Context {W : Type} (P : platform) (C : collaborators W).

Local Arguments for_each_table : simpl never.

(** X14. In the check of a chert directory every table checker is handed
    the path [<path>/<table>] without the .DB suffix, the pointer to the
    one revision number of this run and one and the same [last_docid]: the
    database's when it opened, 2^32 - 1 when it did not.  The glass checker
    is never called. *)
Theorem chert_calls_arguments (path : string) (opts : Z) (out : bool)
    (s : state W) :
  stat C (path +:+ "/iamchert") (world s) = true ->
  exists evs,
    trace (snd (check P C path opts out s)) = trace s ++ evs /\
    Forall (chert_call_of path (S (List.length (heap s)))
              (chert_last_docid (ChertDatabase_open C path (world s)))) evs.
Proof.
  intros Hchert. rewrite check_chert_run by exact Hchert.
  set (doclens := List.length (heap s)).
  set (s0 := mkState (world s) (heap s ++ [Vec 0 []; Rev 0]) (trace s)).
  set (ld := chert_last_docid (ChertDatabase_open C path (world s))).
  destruct (only_chert_open P C (chert_call_of path (S doclens) ld) path out
              doclens (S doclens) 0) with (s := s0)
    as (e1 & Ht1 & Hq1); try (intros; exact I).
  assert (Hld : forall opened s1,
             chert_open P C path out doclens (S doclens) 0 s0
             = (Ok opened, s1) -> fst opened = ld).
  { intros opened s1 Hrun. subst ld.
    destruct (ChertDatabase_open C path (world s)) as [db | e] eqn:Hopen.
    - rewrite (chert_open_ok_run P C path out _ _ 0 db) in Hrun
        by exact Hopen.
      cbv zeta in Hrun. injection Hrun as <- _. reflexivity.
    - destruct (is_Xapian_Error e) eqn:Hx.
      + rewrite (chert_open_failed_run P C path out _ _ 0 e) in Hrun
          by assumption.
        injection Hrun as <- _. reflexivity.
      + rewrite (chert_open_foreign_run P C path out _ _ 0 e) in Hrun
          by assumption.
        discriminate. }
  destruct (chert_open P C path out doclens (S doclens) 0 s0)
    as [[opened | e] s1] eqn:Hrun; cbn [fst snd] in Ht1.
  - rewrite (Hld opened s1 eq_refl).
    match goal with
    | |- context [trace (snd (?m s1))] =>
        assert (Hemits : emits m (Forall (chert_call_of path (S doclens) ld)))
    end.
    { repeat first
        [ apply only_chert_fix_version
        | apply only_chert_table_loop
        | only_step ]; simpl; auto. }
    destruct (Hemits s1) as (e2 & Ht2 & Hq2).
    exists (e1 ++ e2). split.
    + rewrite Ht2, Ht1. unfold s0. cbn [trace]. rewrite app_assoc. reflexivity.
    + apply Forall_app. auto.
  - exists e1. split; [ | exact Hq1 ].
    cbn [snd]. rewrite Ht1. reflexivity.
Qed.

End ChertArguments.

(** The theorem on the chert directory whose database cannot be opened. *)
Lemma chert_calls_arguments_witness :
  Forall (chert_call_of "db" 1%nat 4294967295)
    (trace (snd (Disk.run Disk.chert_dir_broken "db" 0 false))).
Proof.
  destruct (chert_calls_arguments Disk.lp64 Disk.collab "db" 0 false
              (Disk.boot Disk.chert_dir_broken) eq_refl)
    as (evs & Ht & Hq).
  unfold Disk.run. rewrite Ht. exact Hq.
Defined.

(** ** The suffix trimmed from the path of a single table *)

Section TrimSuffix.

Lemma substring_split (s : string) (p : nat) :
  (p <= String.length s)%nat ->
  substring 0 p s +:+ substring p (String.length s - p) s = s.
Proof.
  revert p. induction s as [| a s IH]; intros p Hp.
  - destruct p; reflexivity.
  - destruct p as [| p]; simpl.
    + rewrite substring_all. reflexivity.
    + simpl in Hp.
      change (String a (substring 0 p s +:+
                        substring p (String.length s - p) s) = String a s).
      f_equal. apply IH. lia.
Qed.

(** A string that ends with [suffix] is some string followed by it. *)
Lemma endswith_true (s suffix : string) :
  endswith s suffix = true ->
  s = resize_drop s (String.length suffix) +:+ suffix.
Proof.
  unfold endswith, resize_drop. intros H.
  apply andb_true_iff in H. destruct H as [Hlen Heq].
  apply Nat.leb_le in Hlen. apply String.eqb_eq in Heq.
  pose proof (substring_split s (String.length s - String.length suffix))
    as Hsplit.
  replace (String.length s - (String.length s - String.length suffix))%nat
    with (String.length suffix) in Hsplit by lia.
  rewrite Heq in Hsplit. symmetry. apply Hsplit. lia.
Qed.

(** X15. Whatever the path, trimming takes away exactly one ending, or
    none: the path is the trimmed file name followed by ".", by ".DB" or
    by ".glass", with the backend left unknown, set to chert or set to
    glass in that order, or else the file name is the path itself, which
    then has none of these endings, and the backend is unknown.  The file
    name is never longer than the path. *)
Theorem trim_suffix_decomposes (path : string) :
  let filename := fst (trim_suffix path) in
  let backend := snd (trim_suffix path) in
  (path = filename +:+ "." /\ backend = UNKNOWN \/
   path = filename +:+ ".DB" /\ backend = CHERT \/
   path = filename +:+ ".glass" /\ backend = GLASS \/
   path = filename /\ backend = UNKNOWN /\
   endswith path "." = false /\ endswith path ".DB" = false /\
   endswith path ".glass" = false) /\
  (String.length filename <= String.length path)%nat.
Proof.
  cbv zeta. unfold trim_suffix.
  destruct (endswith path ".") eqn:H1;
    [ | destruct (endswith path ".DB") eqn:H2;
        [ | destruct (endswith path ".glass") eqn:H3 ] ];
    cbn [fst snd].
  - pose proof (endswith_true path "." H1) as H. cbn [String.length] in H.
    split; [ left; auto | ].
    rewrite H at 2. rewrite length_append. lia.
  - pose proof (endswith_true path ".DB" H2) as H. cbn [String.length] in H.
    split; [ right; left; auto | ].
    rewrite H at 2. rewrite length_append. lia.
  - pose proof (endswith_true path ".glass" H3) as H.
    cbn [String.length] in H.
    split; [ right; right; left; auto | ].
    rewrite H at 2. rewrite length_append. lia.
  - split; [ right; right; right; auto | lia ].
Qed.

End TrimSuffix.

(** * Whole runs *)

(** ** Running a bind whose first part is known *)

Section Runs.

Context {W : Type}.

Lemma bind_run_ok {A B} (m : M W A) (k : A -> M W B) (s s' : state W) (a : A) :
  m s = (Ok a, s') -> bind m k s = k a s'.
Proof. intros H. unfold bind. rewrite H. reflexivity. Qed.

Lemma bind_run_throw {A B} (m : M W A) (k : A -> M W B) (s s' : state W)
    (e : exn) :
  m s = (Throw e, s') -> bind m k s = (Throw e, s').
Proof. intros H. unfold bind. rewrite H. reflexivity. Qed.

End Runs.

(** ** A single table, from the path to the call *)

Section BareTable.

Context {W : Type} (P : platform) (C : collaborators W).

(** The run once the file name is settled on chert: the markers of the
    retired formats are sought in the table's directory, then the chert
    checker is called. *)
Lemma single_chert_run (path : string) (opts : Z) (out : bool) (s : state W) :
  no_marker C path (world s) ->
  let filename := fst (trim_suffix path) in
  let s0 := declared s (Vec 0 []) in
  probe_backend C filename (snd (trim_suffix path)) s0 = (Ok CHERT, s0) ->
  check P C path opts out s =
  if stat C (dir_of filename +:+ "/iamflint") (world s) then
    (Throw (FeatureUnavailableError msg_flint), s0)
  else if stat C (dir_of filename +:+ "/iambrass") (world s) then
    (Throw (FeatureUnavailableError msg_brass), s0)
  else
    let r := check_chert_table C (tablename_of filename) filename None
               (masked P opts out) (List.length (heap s)) docid_minus_one out
               (world s) (heap s ++ [Vec 0 []]) in
    (fst (fst r),
     mkState (snd (fst r)) (snd r)
       (trace s ++ [ECheckChertTable (tablename_of filename) filename None
                      (masked P opts out) (List.length (heap s))
                      docid_minus_one out])).
Proof.
  intros Hno filename s0 Hprobe.
  pose proof (check_single_run P C path opts out s Hno) as Hrun.
  cbv zeta in Hrun. fold filename s0 in Hrun.
  rewrite (bind_run_ok _ _ _ _ _ Hprobe) in Hrun. rewrite Hrun.
  unfold bind at 1, query at 1. change (world s0) with (world s).
  destruct (stat C (dir_of filename +:+ "/iamflint") (world s));
    [ reflexivity | ].
  unfold bind at 1, query at 1. change (world s0) with (world s).
  destruct (stat C (dir_of filename +:+ "/iambrass") (world s));
    [ reflexivity | ].
  rewrite call_check_chert_table_run. reflexivity.
Qed.

(** The run once the file name is settled on glass: the version file of
    the table's directory is read, then the glass checker is called. *)
Lemma single_glass_run (path : string) (opts : Z) (out : bool) (s : state W) :
  no_marker C path (world s) ->
  let filename := fst (trim_suffix path) in
  let s0 := declared s (Vec 0 []) in
  probe_backend C filename (snd (trim_suffix path)) s0 = (Ok GLASS, s0) ->
  check P C path opts out s =
  match GlassVersion_read C (dir_of filename) (world s) with
  | Throw e =>
      (Throw e,
       mkState (world s) (heap s ++ [Vec 0 []])
         (trace s ++ [EGlassVersionRead (dir_of filename)]))
  | Ok v =>
      let r := check_glass_table C (tablename_of filename) (dir_of filename) v
                 (masked P opts out) (List.length (heap s)) docid_minus_one out
                 (world s) (heap s ++ [Vec 0 []]) in
      (fst (fst r),
       mkState (snd (fst r)) (snd r)
         (trace s ++ [EGlassVersionRead (dir_of filename);
                      ECheckGlassTable (tablename_of filename)
                        (dir_of filename) v (masked P opts out)
                        (List.length (heap s)) docid_minus_one out]))
  end.
Proof.
  intros Hno filename s0 Hprobe.
  pose proof (check_single_run P C path opts out s Hno) as Hrun.
  cbv zeta in Hrun. fold filename s0 in Hrun.
  rewrite (bind_run_ok _ _ _ _ _ Hprobe) in Hrun. rewrite Hrun.
  unfold bind at 1. rewrite call_GlassVersion_read_run.
  change (world s0) with (world s).
  destruct (GlassVersion_read C (dir_of filename) (world s)) as [v | e];
    [ | reflexivity ].
  rewrite call_check_glass_table_run. cbn [entered trace world heap].
  rewrite <- app_assoc. reflexivity.
Qed.

(** C7. With no marker at [path], exactly one suffix is trimmed: a final
    "." (backend still unknown), else a final ".DB" (chert), else a final
    ".glass" (glass), else nothing.  A backend fixed by the suffix is kept
    without probing; otherwise [<base>.DB] is tried first and means chert
    whatever else exists, then [<base>.glass] means glass, and when neither
    exists [check] throws DatabaseError "Not a Xapian database or database
    table" without having called anything.  The whole run follows the
    resolution: for [<base>.DB] it is the chert check of the file name
    [<base>] (the markers of the retired formats are sought in its
    directory, then the chert checker is called on [<base>]) whether or not
    a glass table of that name exists; for [<base>.glass] it is the glass
    check of [<base>] (the version file of its directory is read, then the
    glass checker is called); for [<base>.] and for a path without any of
    the three endings it is the chert check when [<base>.DB] exists, else
    the glass check when [<base>.glass] exists, else the exception. *)
Theorem bare_table_resolution (path : string) (opts : Z) (out : bool)
    (s : state W) :
  no_marker C path (world s) ->
  (forall base, path = base +:+ "." -> trim_suffix path = (base, UNKNOWN)) /\
  (forall base, path = base +:+ ".DB" -> trim_suffix path = (base, CHERT)) /\
  (forall base, path = base +:+ ".glass" -> trim_suffix path = (base, GLASS)) /\
  (endswith path "." = false -> endswith path ".DB" = false ->
   endswith path ".glass" = false -> trim_suffix path = (path, UNKNOWN)) /\
  let filename := fst (trim_suffix path) in
  let backend := snd (trim_suffix path) in
  let s0 := declared s (Vec 0 []) in
  let doclens := List.length (heap s) in
  let opts' := masked P opts out in
  let chert_check base :=
    if stat C (dir_of base +:+ "/iamflint") (world s) then
      (Throw (FeatureUnavailableError
                "Flint database support was removed in Xapian 1.3.0"), s0)
    else if stat C (dir_of base +:+ "/iambrass") (world s) then
      (Throw (FeatureUnavailableError
                "Brass database support was removed in Xapian 1.3.2"), s0)
    else
      let r := check_chert_table C (tablename_of base) base None opts' doclens
                 docid_minus_one out (world s) (heap s ++ [Vec 0 []]) in
      (fst (fst r),
       mkState (snd (fst r)) (snd r)
         (trace s ++ [ECheckChertTable (tablename_of base) base None opts'
                        doclens docid_minus_one out])) in
  let glass_check base :=
    match GlassVersion_read C (dir_of base) (world s) with
    | Throw e =>
        (Throw e,
         mkState (world s) (heap s ++ [Vec 0 []])
           (trace s ++ [EGlassVersionRead (dir_of base)]))
    | Ok v =>
        let r := check_glass_table C (tablename_of base) (dir_of base) v opts'
                   doclens docid_minus_one out (world s)
                   (heap s ++ [Vec 0 []]) in
        (fst (fst r),
         mkState (snd (fst r)) (snd r)
           (trace s ++ [EGlassVersionRead (dir_of base);
                        ECheckGlassTable (tablename_of base) (dir_of base) v
                          opts' doclens docid_minus_one out]))
    end in
  let probed base :=
    if stat C (base +:+ ".DB") (world s) then chert_check base
    else if stat C (base +:+ ".glass") (world s) then glass_check base
    else (Throw (DatabaseError "Not a Xapian database or database table"),
          s0) in
  (backend <> UNKNOWN ->
   probe_backend C filename backend s0 = (Ok backend, s0)) /\
  (backend = UNKNOWN ->
   stat C (filename +:+ ".DB") (world s) = true ->
   probe_backend C filename backend s0 = (Ok CHERT, s0)) /\
  (backend = UNKNOWN ->
   stat C (filename +:+ ".DB") (world s) = false ->
   stat C (filename +:+ ".glass") (world s) = true ->
   probe_backend C filename backend s0 = (Ok GLASS, s0)) /\
  (backend = UNKNOWN ->
   stat C (filename +:+ ".DB") (world s) = false ->
   stat C (filename +:+ ".glass") (world s) = false ->
   check P C path opts out s =
   (Throw (DatabaseError "Not a Xapian database or database table"), s0)) /\
  (forall base, path = base +:+ ".DB" ->
   check P C path opts out s = chert_check base) /\
  (forall base, path = base +:+ ".glass" ->
   check P C path opts out s = glass_check base) /\
  (forall base, path = base +:+ "." ->
   check P C path opts out s = probed base) /\
  (endswith path "." = false -> endswith path ".DB" = false ->
   endswith path ".glass" = false ->
   check P C path opts out s = probed path).
Proof.
  intros Hno.
  pose proof (bare_resolution_steps P C path opts out s Hno) as Hsteps.
  cbv zeta in Hsteps.
  destruct Hsteps as (Hdot & HDB & Hglass & Hnone & Hkept & Hp1 & Hp2 & Hp3).
  split; [ exact Hdot | ]. split; [ exact HDB | ].
  split; [ exact Hglass | ]. split; [ exact Hnone | ].
  cbv zeta.
  split; [ exact Hkept | ]. split; [ exact Hp1 | ].
  split; [ exact Hp2 | ]. split; [ exact Hp3 | ].
  assert (Hprobed : forall base,
            trim_suffix path = (base, UNKNOWN) ->
            check P C path opts out s =
            if stat C (base +:+ ".DB") (world s) then
              if stat C (dir_of base +:+ "/iamflint") (world s) then
                (Throw (FeatureUnavailableError msg_flint),
                 declared s (Vec 0 []))
              else if stat C (dir_of base +:+ "/iambrass") (world s) then
                (Throw (FeatureUnavailableError msg_brass),
                 declared s (Vec 0 []))
              else
                let r := check_chert_table C (tablename_of base) base None
                           (masked P opts out) (List.length (heap s))
                           docid_minus_one out (world s)
                           (heap s ++ [Vec 0 []]) in
                (fst (fst r),
                 mkState (snd (fst r)) (snd r)
                   (trace s ++ [ECheckChertTable (tablename_of base) base None
                                  (masked P opts out) (List.length (heap s))
                                  docid_minus_one out]))
            else if stat C (base +:+ ".glass") (world s) then
              match GlassVersion_read C (dir_of base) (world s) with
              | Throw e =>
                  (Throw e,
                   mkState (world s) (heap s ++ [Vec 0 []])
                     (trace s ++ [EGlassVersionRead (dir_of base)]))
              | Ok v =>
                  let r := check_glass_table C (tablename_of base)
                             (dir_of base) v (masked P opts out)
                             (List.length (heap s)) docid_minus_one out
                             (world s) (heap s ++ [Vec 0 []]) in
                  (fst (fst r),
                   mkState (snd (fst r)) (snd r)
                     (trace s ++ [EGlassVersionRead (dir_of base);
                                  ECheckGlassTable (tablename_of base)
                                    (dir_of base) v (masked P opts out)
                                    (List.length (heap s)) docid_minus_one
                                    out]))
              end
            else (Throw (DatabaseError msg_not_a_database),
                  declared s (Vec 0 []))).
  { intros base Htrim.
    pose proof (single_chert_run path opts out s Hno) as Hchert.
    pose proof (single_glass_run path opts out s Hno) as Hgl.
    cbv zeta in Hchert, Hgl. rewrite Htrim in *. cbn [fst snd] in *.
    destruct (stat C (base +:+ ".DB") (world s)) eqn:Edb.
    - apply Hchert. apply Hp1; [ reflexivity | reflexivity ].
    - destruct (stat C (base +:+ ".glass") (world s)) eqn:Egl.
      + apply Hgl. apply Hp2; reflexivity.
      + apply Hp3; reflexivity. }
  split; [ | split; [ | split ] ].
  - intros base Hpath.
    pose proof (single_chert_run path opts out s Hno) as Hchert.
    cbv zeta in Hchert. rewrite (HDB base Hpath) in *. cbn [fst snd] in *.
    apply Hchert. apply Hkept. discriminate.
  - intros base Hpath.
    pose proof (single_glass_run path opts out s Hno) as Hgl.
    cbv zeta in Hgl. rewrite (Hglass base Hpath) in *. cbn [fst snd] in *.
    apply Hgl. apply Hkept. discriminate.
  - intros base Hpath. apply Hprobed. apply Hdot. exact Hpath.
  - intros E1 E2 E3. apply Hprobed. apply Hnone; assumption.
Qed.

End BareTable.

(** The theorem on the glass directory [g]: a path that names nothing is
    refused, the table named with its ending is checked as a glass table
    without a look at [g/postlist.DB], and so is the table named without
    ending, since there is no [g/postlist.DB]. *)
Lemma bare_table_resolution_witness :
  fst (Disk.run Disk.glass_dir "g/nothing" 0 false)
    = Throw (DatabaseError "Not a Xapian database or database table") /\
  Disk.run Disk.glass_dir "g/postlist.glass" 0 false
    = (Ok 2,
       mkState Disk.glass_dir [Vec 0 []]
         [EGlassVersionRead "g/";
          ECheckGlassTable "postlist" "g/"
            {| get_revision := 3; get_last_docid := 5 |} 0 0%nat
            4294967295 false]) /\
  Disk.run Disk.glass_dir "g/postlist" 0 false
    = Disk.run Disk.glass_dir "g/postlist.glass" 0 false.
Proof.
  assert (Hno : forall p,
            In p ["g/nothing"; "g/postlist.glass"; "g/postlist"] ->
            no_marker Disk.collab p (world (Disk.boot Disk.glass_dir))).
  { intros p [<- | [<- | [<- | []]]]; repeat split. }
  split; [ | split ].
  - destruct (bare_table_resolution Disk.lp64 Disk.collab "g/nothing" 0 false
                (Disk.boot Disk.glass_dir) (Hno _ (or_introl eq_refl)))
      as (_ & _ & _ & _ & _ & _ & _ & Hthrow & _).
    unfold Disk.run. rewrite Hthrow; reflexivity.
  - destruct (bare_table_resolution Disk.lp64 Disk.collab "g/postlist.glass"
                0 false (Disk.boot Disk.glass_dir)
                (Hno _ (or_intror (or_introl eq_refl))))
      as (_ & _ & _ & _ & _ & _ & _ & _ & _ & Hgl & _).
    unfold Disk.run. rewrite (Hgl "g/postlist" eq_refl). reflexivity.
  - destruct (bare_table_resolution Disk.lp64 Disk.collab "g/postlist"
                0 false (Disk.boot Disk.glass_dir)
                (Hno _ (or_intror (or_intror (or_introl eq_refl)))))
      as (_ & _ & _ & _ & _ & _ & _ & _ & _ & _ & _ & Hbare).
    unfold Disk.run at 1. rewrite Hbare by reflexivity. reflexivity.
Defined.

(** ** The chert table loop inside a whole run *)

Section ChertRuns.

Context {W : Type} (P : platform) (C : collaborators W).

Local Arguments for_each_table : simpl never.

Lemma bind_run_eq {A B} (m m' : M W A) (k : A -> M W B) (s s' : state W) :
  m s = m' s' -> bind m k s = bind m' k s'.
Proof. intros H. unfold bind. rewrite H. reflexivity. Qed.

(** One turn of the loop when the table is checked and the checker
    returns. *)
Lemma chert_turn_checked_ok (path : string) (rev_ptr : option loc)
    (opts : Z) (doclens : loc) (ld : Z) (out : bool) (t : string)
    (errors : Z) (s : state W) (n : Z) (w' : W) (h' : store) :
  String.eqb t "record" || String.eqb t "postlist" ||
  file_exists C ((path +:+ "/" +:+ t) +:+ ".DB") (world s) = true ->
  check_chert_table C t (path +:+ "/" +:+ t) rev_ptr opts doclens ld out
    (world s) (heap s) = (Ok n, w', h') ->
  check_chert_db_table C path rev_ptr opts doclens ld out t errors s =
  (Ok (size_t_add errors n),
   mkState w' h'
     (trace s ++ emitted out (t +:+ ":" +:+ nl) ++
      [ECheckChertTable t (path +:+ "/" +:+ t) rev_ptr opts doclens ld out])).
Proof.
  intros Hc Hr. rewrite check_chert_db_table_checked by exact Hc.
  unfold bind. rewrite call_check_chert_table_run. cbn [world heap trace].
  rewrite Hr. cbn [fst snd]. unfold ret. rewrite <- app_assoc. reflexivity.
Qed.

(** One turn of the loop for a lazily created table that is absent. *)
Lemma chert_turn_absent (path : string) (rev_ptr : option loc)
    (opts : Z) (doclens : loc) (ld : Z) (out : bool) (t : string)
    (errors : Z) (s : state W) :
  In t ["termlist"; "position"; "spelling"; "synonym"] ->
  file_exists C ((path +:+ "/" +:+ t) +:+ ".DB") (world s) = false ->
  check_chert_db_table C path rev_ptr opts doclens ld out t errors s =
  (Ok errors,
   mkState (world s) (heap s)
     (trace s ++
      absent_report out t
        (if String.eqb t "termlist" then "Not present."
         else "Lazily created, and not yet used."))).
Proof.
  intros Ht Habsent.
  assert (H1 : String.eqb t "record" = false)
    by (simpl in Ht; intuition; subst; reflexivity).
  assert (H2 : String.eqb t "postlist" = false)
    by (simpl in Ht; intuition; subst; reflexivity).
  rewrite check_chert_db_table_skipped by assumption.
  unfold absent_report.
  destruct out; [ | reflexivity ].
  destruct (String.eqb t "termlist"); reflexivity.
Qed.

(** C5. In the chert table loop a term-list, position, spelling or synonym
    table whose .DB file is absent is not handed to the checker and leaves
    the error count as it was; with a sink the turn prints the table
    header, then "Not present." for the term-list and "Lazily created, and
    not yet used." for the others, then an empty line, and without a sink
    it prints nothing.  The record and postlist tables are handed to the
    checker whatever the file test would say.  Over a whole run on a chert
    directory, a lazily created table that is absent throughout is never
    handed to the checker.  The run of [check] on a chert directory is,
    after the open phase, these turns for record, termlist, postlist,
    position, spelling and synonym in that order, followed by the version
    repair; when termlist.DB is absent after the record check and
    position.DB, spelling.DB and synonym.DB are absent after the postlist
    check, it calls the record checker and the postlist checker and no
    other, prints the two notices where they belong, and the error count is
    that of the open phase plus what the two checkers report. *)
Theorem chert_lazy_tables (path : string) (opts : Z) (out : bool)
    (s : state W) (rev_ptr : option loc) (doclens : loc) (ld errors : Z) :
  let turn t :=
    check_chert_db_table C path rev_ptr opts doclens ld out t errors s in
  let skipped t text :=
    (Ok errors,
     mkState (world s) (heap s) (trace s ++ absent_report out t text)) in
  (file_exists C ((path +:+ "/" +:+ "termlist") +:+ ".DB") (world s) = false ->
   turn "termlist" = skipped "termlist" "Not present.") /\
  (forall t, In t ["position"; "spelling"; "synonym"] ->
     file_exists C ((path +:+ "/" +:+ t) +:+ ".DB") (world s) = false ->
     turn t = skipped t "Lazily created, and not yet used.") /\
  (forall t, In t ["record"; "postlist"] ->
     turn t =
     (let* n := call_check_chert_table C t (path +:+ "/" +:+ t) rev_ptr opts
                  doclens ld out in
      ret (size_t_add errors n))
       (mkState (world s) (heap s)
          (trace s ++ emitted out (t +:+ ":" +:+ nl)))) /\
  (forall t, In t ["termlist"; "position"; "spelling"; "synonym"] ->
     stat C (path +:+ "/iamchert") (world s) = true ->
     (forall w, file_exists C ((path +:+ "/" +:+ t) +:+ ".DB") w = false) ->
     exists evs,
       trace (snd (check P C path opts out s)) = trace s ++ evs /\
       ~ In t (called_tables evs)) /\
  (stat C (path +:+ "/iamchert") (world s) = true ->
   forall (db_last_docid pre : Z) (s1 : state W),
     let vec := List.length (heap s) in
     let rev := S vec in
     let opts' := masked P opts out in
     let one t e :=
       check_chert_db_table C path (Some rev) opts' vec db_last_docid out t e in
     let checker t :=
       check_chert_table C t (path +:+ "/" +:+ t) (Some rev) opts' vec
         db_last_docid out in
     let call t :=
       ECheckChertTable t (path +:+ "/" +:+ t) (Some rev) opts' vec
         db_last_docid out in
     chert_open P C path out vec rev 0
       (mkState (world s) (heap s ++ [Vec 0 []; Rev 0]) (trace s)) =
     (Ok (db_last_docid, pre), s1) ->
     check P C path opts out s =
     (let* total :=
        (let* e1 := one "record" pre in
         let* e2 := one "termlist" e1 in
         let* e3 := one "postlist" e2 in
         let* e4 := one "position" e3 in
         let* e5 := one "spelling" e4 in
         let* e6 := one "synonym" e5 in
         ret e6) in
      chert_fix_version P C path opts' total pre >> ret total) s1 /\
     forall (n0 : Z) (w0 : W) (h0 : store) (n1 : Z) (w1 : W) (h1 : store),
       checker "record" (world s1) (heap s1) = (Ok n0, w0, h0) ->
       file_exists C ((path +:+ "/" +:+ "termlist") +:+ ".DB") w0 = false ->
       checker "postlist" w0 h0 = (Ok n1, w1, h1) ->
       (forall t, In t ["position"; "spelling"; "synonym"] ->
          file_exists C ((path +:+ "/" +:+ t) +:+ ".DB") w1 = false) ->
       let total := size_t_add (size_t_add pre n0) n1 in
       check P C path opts out s =
       (chert_fix_version P C path opts' total pre >> ret total)
         (mkState w1 h1
            (trace s1 ++
             emitted out ("record" +:+ ":" +:+ nl) ++ [call "record"] ++
             absent_report out "termlist" "Not present." ++
             emitted out ("postlist" +:+ ":" +:+ nl) ++ [call "postlist"] ++
             absent_report out "position" "Lazily created, and not yet used." ++
             absent_report out "spelling" "Lazily created, and not yet used." ++
             absent_report out "synonym" "Lazily created, and not yet used."))).
Proof.
  pose proof (chert_lazy_turns P C path opts out s rev_ptr doclens ld errors)
    as Hturns.
  cbv zeta in Hturns |- *.
  destruct Hturns as (Hterm & Hlazy & Halways & Hnever).
  split; [ exact Hterm | ]. split; [ exact Hlazy | ].
  split; [ exact Halways | ]. split; [ exact Hnever | ].
  intros Hchert ld' pre s1 Hopen.
  assert (Hrun : check P C path opts out s =
                 (let* total :=
                    for_each_table
                      (check_chert_db_table C path
                         (Some (S (List.length (heap s)))) (masked P opts out)
                         (List.length (heap s)) ld' out)
                      chert_tables pre in
                  chert_fix_version P C path (masked P opts out) total pre >>
                  ret total) s1).
  { rewrite (check_chert_run P C path opts out s Hchert), Hopen.
    reflexivity. }
  split; [ exact Hrun | ].
  intros n0 w0 h0 n1 w1 h1 Hrecord Hno_termlist Hpostlist Hno_lazy.
  rewrite Hrun.
  match goal with
  | |- bind ?m ?k s1 = _ ?final =>
      apply (bind_run_ok m k s1 final (size_t_add (size_t_add pre n0) n1))
  end.
  change (for_each_table ?b chert_tables pre)
    with (let* e1 := b "record" pre in
          let* e2 := b "termlist" e1 in
          let* e3 := b "postlist" e2 in
          let* e4 := b "position" e3 in
          let* e5 := b "spelling" e4 in
          let* e6 := b "synonym" e5 in
          ret e6).
  erewrite bind_run_ok
    by (apply chert_turn_checked_ok; [ reflexivity | exact Hrecord ]).
  erewrite bind_run_ok
    by (apply chert_turn_absent; [ simpl; auto | exact Hno_termlist ]).
  erewrite bind_run_ok
    by (apply chert_turn_checked_ok; [ reflexivity | exact Hpostlist ]).
  erewrite bind_run_ok
    by (apply chert_turn_absent;
        [ simpl; auto | apply Hno_lazy; simpl; auto ]).
  erewrite bind_run_ok
    by (apply chert_turn_absent;
        [ simpl; auto | apply Hno_lazy; simpl; auto ]).
  erewrite bind_run_ok
    by (apply chert_turn_absent;
        [ simpl; auto | apply Hno_lazy; simpl; auto ]).
  unfold ret. cbn [world heap trace String.eqb Ascii.eqb Bool.eqb].
  rewrite <- !app_assoc. reflexivity.
Qed.

End ChertRuns.

(** The theorem on the chert directory [db] that holds the record and
    postlist tables only, with a sink: the two checkers are called, the
    four notices are printed in their places, and the one error of the
    postlist table is the count. *)
Lemma chert_lazy_tables_witness :
  Disk.run Scenario.chert_bare "db" 0 true =
  (Ok 1,
   mkState Scenario.chert_bare [Vec 3 []; Rev 7]
     [EChertDatabase "db"; EReserveDoclens 0 2; EVectorReserve 0 3;
      Out ("record:" +:+ nl);
      ECheckChertTable "record" "db/record" (Some 1%nat) 0 0 2 true;
      Out ("termlist:" +:+ nl); Out ("Not present." +:+ nl); Out nl;
      Out ("postlist:" +:+ nl);
      ECheckChertTable "postlist" "db/postlist" (Some 1%nat) 0 0 2 true;
      Out ("position:" +:+ nl);
      Out ("Lazily created, and not yet used." +:+ nl); Out nl;
      Out ("spelling:" +:+ nl);
      Out ("Lazily created, and not yet used." +:+ nl); Out nl;
      Out ("synonym:" +:+ nl);
      Out ("Lazily created, and not yet used." +:+ nl); Out nl]).
Proof.
  pose proof (chert_lazy_tables Disk.lp64 Disk.collab "db" 0 true
                (Disk.boot Scenario.chert_bare) None 0%nat 0 0) as H.
  cbv zeta in H. destruct H as (_ & _ & _ & _ & H).
  destruct (H eq_refl 2 0
              (mkState Scenario.chert_bare [Vec 3 []; Rev 7]
                 [EChertDatabase "db"; EReserveDoclens 0 2;
                  EVectorReserve 0 3]) eq_refl) as [_ Hrun].
  unfold Disk.run.
  rewrite (Hrun 0 Scenario.chert_bare [Vec 3 []; Rev 7]
             1 Scenario.chert_bare [Vec 3 []; Rev 7]
             eq_refl eq_refl eq_refl).
  - reflexivity.
  - intros t [<- | [<- | [<- | []]]]; reflexivity.
Defined.

(** ** The order of the chert tables and the one vector *)

Section ChertOrder.

Context {W : Type} (P : platform) (C : collaborators W).

Local Arguments for_each_table : simpl never.

Lemma calls_done_chert_turn (path : string) (rev_ptr : option loc)
    (opts : Z) (doclens : loc) (ld : Z) (out : bool) (t : string) (errors : Z) :
  always_checked C path t ->
  emits_with (check_chert_db_table C path rev_ptr opts doclens ld out t errors)
    (calls_done [t]).
Proof.
  intros Halways s.
  rewrite check_chert_db_table_checked.
  2: { destruct Halways as [-> | [-> | Hall]];
         [ reflexivity | reflexivity | ].
       rewrite Hall. apply orb_true_r. }
  unfold bind. rewrite call_check_chert_table_run. cbv zeta.
  exists (emitted out (t +:+ ":" +:+ nl) ++
          [ECheckChertTable t (path +:+ "/" +:+ t) rev_ptr opts doclens ld out]).
  match goal with
  | |- context [check_chert_table C ?a1 ?a2 ?a3 ?a4 ?a5 ?a6 ?a7 ?a8 ?a9] =>
      destruct (check_chert_table C a1 a2 a3 a4 a5 a6 a7 a8 a9)
        as [[[n | e] w'] h']
  end; cbn [fst snd trace ret];
    (split; [ rewrite <- app_assoc; reflexivity | ]);
    unfold calls_done; rewrite called_tables_app, called_tables_emitted;
    simpl; auto.
Qed.

Lemma calls_done_chert_loop (path : string) (rev_ptr : option loc)
    (opts : Z) (doclens : loc) (ld : Z) (out : bool) (tables : list string) :
  (forall t, In t tables -> always_checked C path t) ->
  forall errors,
    emits_with (for_each_table
                  (check_chert_db_table C path rev_ptr opts doclens ld out)
                  tables errors) (calls_done tables).
Proof.
  induction tables as [| t rest IH]; intros Hall errors.
  - intros s. exists []. simpl. rewrite app_nil_r.
    split; [ reflexivity | ]. unfold calls_done. simpl. auto.
  - change (t :: rest) with ([t] ++ rest).
    change (for_each_table ?b ([t] ++ rest) errors)
      with (bind (b t errors) (fun e' => for_each_table b rest e')).
    apply calls_done_bind.
    + apply calls_done_chert_turn. apply Hall. left. reflexivity.
    + intros a. apply IH. intros t' Ht'. apply Hall. right. exact Ht'.
Qed.

(** When every lazily created table is there whatever the checkers do, the
    whole chert pass calls the checkers of the six tables in order, up to
    the first that throws. *)
Lemma chert_db_calls_done (path : string) (opts : Z) (out : bool)
    (doclens : loc) (errors : Z) :
  (forall t w, In t ["termlist"; "position"; "spelling"; "synonym"] ->
     file_exists C ((path +:+ "/" +:+ t) +:+ ".DB") w = true) ->
  emits_with (check_chert_db P C path opts out doclens errors)
    (calls_done
       ["record"; "termlist"; "postlist"; "position"; "spelling"; "synonym"]).
Proof.
  intros Hall.
  change ["record"; "termlist"; "postlist"; "position"; "spelling"; "synonym"]
    with ([] ++ [] ++ chert_tables ++ []).
  unfold check_chert_db.
  apply calls_done_bind;
    [ apply calls_done_silent; only_step; reflexivity | intros rev ].
  apply calls_done_bind;
    [ apply calls_done_silent; apply only_chert_open; reflexivity
    | intros opened ].
  apply calls_done_bind.
  - apply calls_done_chert_loop. intros t Ht.
    unfold chert_tables in Ht. simpl in Ht.
    destruct Ht as [<- | [<- | [<- | Ht]]].
    + left. reflexivity.
    + right. right. intros w. apply Hall. simpl. auto.
    + right. left. reflexivity.
    + right. right. intros w. apply Hall. simpl. intuition.
  - intros e'. apply calls_done_silent.
    repeat first [ apply only_chert_fix_version | only_step ]; reflexivity.
Qed.

(** C4. On a chert directory the table checkers are called in the order
    record, termlist, postlist, position, spelling, synonym (a table may be
    left out, none is repeated or moved); when the four lazily created
    tables are there, the tables checked are an initial part of that list
    and exactly that list when [check] returns a count.  Every call, like
    [reserve_doclens] before them, is given the location of the one vector
    [doclens] declared by this run.  When the term-list checker returns,
    the next thing called is the postlist checker, on exactly the world and
    store the term-list checker left, with the same location: this holds of
    the loop from the term-list turn on, and of the whole run of [check],
    whose outcome when the postlist checker throws on that store is that
    exception. *)
Theorem chert_tables_order_and_doclens (path : string) (opts : Z) (out : bool)
    (s : state W) :
  stat C (path +:+ "/iamchert") (world s) = true ->
  let doclens := List.length (heap s) in
  (exists evs,
     trace (snd (check P C path opts out s)) = trace s ++ evs /\
     called_tables evs `sublist_of`
       ["record"; "termlist"; "postlist"; "position"; "spelling"; "synonym"] /\
     Forall (fun e => match e with
                      | ECheckChertTable _ _ _ _ d _ _ => d = doclens
                      | EReserveDoclens d _ => d = doclens
                      | EVectorReserve d _ => d = doclens
                      | ECheckGlassTable _ _ _ _ _ _ _ => False
                      | _ => True
                      end) evs /\
     ((forall t w, In t ["termlist"; "position"; "spelling"; "synonym"] ->
         file_exists C ((path +:+ "/" +:+ t) +:+ ".DB") w = true) ->
      called_tables evs `prefix_of`
        ["record"; "termlist"; "postlist"; "position"; "spelling"; "synonym"] /\
      (forall n, fst (check P C path opts out s) = Ok n ->
         called_tables evs =
         ["record"; "termlist"; "postlist"; "position"; "spelling";
          "synonym"]))) /\
  heap (declared s (Vec 0 [])) !! doclens = Some (Vec 0 []) /\
  (forall rev_ptr opts' ld rest errors (s' : state W) n w' h',
     file_exists C ((path +:+ "/" +:+ "termlist") +:+ ".DB") (world s') = true ->
     check_chert_table C "termlist" (path +:+ "/" +:+ "termlist") rev_ptr opts'
       doclens ld out (world s') (heap s') = (Ok n, w', h') ->
     for_each_table (check_chert_db_table C path rev_ptr opts' doclens ld out)
       ("termlist" :: "postlist" :: rest) errors s' =
     (let* m := call_check_chert_table C "postlist"
                  (path +:+ "/" +:+ "postlist") rev_ptr opts' doclens ld out in
      for_each_table (check_chert_db_table C path rev_ptr opts' doclens ld out)
        rest (size_t_add (size_t_add errors n) m))
       (mkState w' h'
          (trace s' ++ emitted out ("termlist" +:+ ":" +:+ nl) ++
           ECheckChertTable "termlist" (path +:+ "/" +:+ "termlist") rev_ptr
             opts' doclens ld out ::
           emitted out ("postlist" +:+ ":" +:+ nl)))) /\
  (forall (db_last_docid pre : Z) (s1 : state W)
          (n0 : Z) (w0 : W) (h0 : store) (n1 : Z) (w1 : W) (h1 : store),
     let rev := S doclens in
     let opts' := masked P opts out in
     let checker t :=
       check_chert_table C t (path +:+ "/" +:+ t) (Some rev) opts' doclens
         db_last_docid out in
     let call t :=
       ECheckChertTable t (path +:+ "/" +:+ t) (Some rev) opts' doclens
         db_last_docid out in
     let before_postlist :=
       trace s1 ++
       emitted out ("record" +:+ ":" +:+ nl) ++ [call "record"] ++
       emitted out ("termlist" +:+ ":" +:+ nl) ++ [call "termlist"] ++
       emitted out ("postlist" +:+ ":" +:+ nl) in
     chert_open P C path out doclens rev 0
       (mkState (world s) (heap s ++ [Vec 0 []; Rev 0]) (trace s)) =
     (Ok (db_last_docid, pre), s1) ->
     checker "record" (world s1) (heap s1) = (Ok n0, w0, h0) ->
     file_exists C ((path +:+ "/" +:+ "termlist") +:+ ".DB") w0 = true ->
     checker "termlist" w0 h0 = (Ok n1, w1, h1) ->
     check P C path opts out s =
     (let* total :=
        (let* m := call_check_chert_table C "postlist"
                     (path +:+ "/" +:+ "postlist") (Some rev) opts' doclens
                     db_last_docid out in
         for_each_table
           (check_chert_db_table C path (Some rev) opts' doclens
              db_last_docid out)
           ["position"; "spelling"; "synonym"]
           (size_t_add (size_t_add (size_t_add pre n0) n1) m)) in
      chert_fix_version P C path opts' total pre >> ret total)
       (mkState w1 h1 before_postlist) /\
     forall (e : exn) (w2 : W) (h2 : store),
       checker "postlist" w1 h1 = (Throw e, w2, h2) ->
       check P C path opts out s =
       (Throw e, mkState w2 h2 (before_postlist ++ [call "postlist"]))).
Proof.
  intros Hchert.
  pose proof (chert_calls_in_order P C path opts out s Hchert) as Hold.
  cbv zeta in Hold |- *.
  destruct Hold as ((evs & Htrace & Hsub & Hvec) & Hdeclared & Hloop).
  split; [ | split; [ exact Hdeclared | split; [ exact Hloop | ] ] ].
  - exists evs. split; [ exact Htrace | ]. split; [ exact Hsub | ].
    split; [ exact Hvec | ]. intros Hall.
    destruct (chert_db_calls_done path (masked P opts out) out
                (List.length (heap s)) 0 Hall (declared s (Vec 0 [])))
      as (evs' & Htrace' & Hprefix & Hdone).
    rewrite <- (check_chert_unfold P C path opts out s Hchert)
      in Htrace', Hdone.
    assert (evs' = evs) as ->.
    { change (trace (declared s (Vec 0 []))) with (trace s) in Htrace'.
      rewrite Htrace in Htrace'. apply app_inv_head in Htrace'.
      congruence. }
    split; [ exact Hprefix | ].
    intros n Hn. apply Hdone. rewrite Hn. reflexivity.
  - intros ld pre s1 n0 w0 h0 n1 w1 h1 Hopen Hrecord Htermlist Hfilled.
    assert (Hrun : check P C path opts out s =
                   (let* total :=
                      for_each_table
                        (check_chert_db_table C path
                           (Some (S (List.length (heap s))))
                           (masked P opts out) (List.length (heap s)) ld out)
                        chert_tables pre in
                    chert_fix_version P C path (masked P opts out) total pre >>
                    ret total) s1).
    { rewrite (check_chert_run P C path opts out s Hchert), Hopen.
      reflexivity. }
    assert (Hhand : check P C path opts out s =
       (let* total :=
          (let* m := call_check_chert_table C "postlist"
                       (path +:+ "/" +:+ "postlist")
                       (Some (S (List.length (heap s)))) (masked P opts out)
                       (List.length (heap s)) ld out in
           for_each_table
             (check_chert_db_table C path (Some (S (List.length (heap s))))
                (masked P opts out) (List.length (heap s)) ld out)
             ["position"; "spelling"; "synonym"]
             (size_t_add (size_t_add (size_t_add pre n0) n1) m)) in
        chert_fix_version P C path (masked P opts out) total pre >> ret total)
         (mkState w1 h1
            (trace s1 ++
             emitted out ("record" +:+ ":" +:+ nl) ++
             [ECheckChertTable "record" (path +:+ "/" +:+ "record")
                (Some (S (List.length (heap s)))) (masked P opts out)
                (List.length (heap s)) ld out] ++
             emitted out ("termlist" +:+ ":" +:+ nl) ++
             [ECheckChertTable "termlist" (path +:+ "/" +:+ "termlist")
                (Some (S (List.length (heap s)))) (masked P opts out)
                (List.length (heap s)) ld out] ++
             emitted out ("postlist" +:+ ":" +:+ nl)))).
    { rewrite Hrun. apply bind_run_eq.
      change (for_each_table ?b chert_tables pre)
        with (let* e1 := b "record" pre in
              for_each_table b
                ("termlist" :: "postlist" ::
                 ["position"; "spelling"; "synonym"]) e1).
      erewrite bind_run_ok
        by (apply chert_turn_checked_ok; [ reflexivity | exact Hrecord ]).
      rewrite (chert_termlist_then_postlist C path _ _ _ _ out _ _ _ n1 w1 h1)
        by (cbn [world heap]; assumption).
      cbn [trace]. rewrite <- !app_assoc. reflexivity. }
    split; [ exact Hhand | ].
    intros e w2 h2 Hpostlist. rewrite Hhand.
    match goal with
    | |- bind (bind ?m ?k) ?k' ?s0 = _ =>
        assert (Hcall : m s0 =
                  (Throw e,
                   mkState w2 h2
                     (trace s0 ++
                      [ECheckChertTable "postlist"
                         (path +:+ "/" +:+ "postlist")
                         (Some (S (List.length (heap s))))
                         (masked P opts out) (List.length (heap s)) ld out])))
    end.
    { rewrite call_check_chert_table_run. cbn [world heap trace].
      rewrite Hpostlist. reflexivity. }
    rewrite (bind_run_throw _ _ _ _ _ (bind_run_throw _ _ _ _ _ Hcall)).
    reflexivity.
Qed.

End ChertOrder.

(** The theorem on a chert directory [db] that holds all six tables: they
    are checked in order, and the term-list checker has filled the one
    vector. *)
Lemma chert_tables_order_and_doclens_witness :
  called_tables
    (trace (snd (check Disk.lp64 (Disk.frozen Scenario.chert_full) "db" 0 true
                   (mkState tt [] []))))
  = ["record"; "termlist"; "postlist"; "position"; "spelling"; "synonym"] /\
  heap (snd (check Disk.lp64 (Disk.frozen Scenario.chert_full) "db" 0 true
               (mkState tt [] []))) !! 0%nat
  = Some (Vec 3 [0; 4; 9]).
Proof.
  destruct (chert_tables_order_and_doclens Disk.lp64
              (Disk.frozen Scenario.chert_full) "db" 0 true (mkState tt [] [])
              eq_refl)
    as [(evs & Ht & _ & _ & Hall) _].
  split; [ | reflexivity ].
  rewrite Ht. cbn [trace app].
  apply (proj2 (Hall ltac:(intros t [] [<- | [<- | [<- | [<- | []]]]];
                            reflexivity)) 0).
  reflexivity.
Defined.

(** ** A changes file that fails its check *)

(** C8 as stated fails when a check throws: on the glass directory [g] at
    revision 3 whose changes file of revision 3 is damaged, the changes
    file of revision 1 exists and yet is never checked, the descent having
    ended at revision 3, and [check] ends with the exception of the failed
    check, not with a count. *)
Lemma glass_changes_descent_stops :
  file_exists Disk.collab "g/changes1" Scenario.glass_bad_changes = true /\
  changes_checked
    (trace (snd (Disk.run Scenario.glass_bad_changes "g" 0 true)))
    = ["g/changes3"] /\
  Disk.run Scenario.glass_bad_changes "g" 0 true
    = (Throw (DatabaseError "Changeset too short"),
       mkState Scenario.glass_bad_changes [Vec 0 []]
         [EDatabase "g"; EGlassVersionRead "g";
          EGlassChangesCheck "g/changes3"]).
Proof. repeat split. Qed.
